(** * Rubiksolver: validation, solve front end and Kociemba tools

    A shallow embedding of [Rubiksolver/Models/CubeState.cs], of the
    [CubeSolver] service and of [Kociemba/K_Tools.cs], followed by the
    properties of the solver's specification that these files decide. *)

From stdpp Require Import gmap strings list fin_maps.
From Stdlib Require Import ZArith Ascii Lia.

(** ** The .NET runtime pieces the sources rely on *)

(** Exceptions raised by the runtime operations the sources use.  The last
    constructor stands for whatever else a collaborator may raise. *)
Inductive Exception : Type :=
| IndexOutOfRangeException
| NullReferenceException
| ArgumentNullException (paramName : string)
| KeyNotFoundException (key : string)
| ArgumentException (msg : string)
| OtherException (msg : string).

(** [ex.Message], with the runtime's English texts. *)
Definition Message (ex : Exception) : string :=
  match ex with
  | IndexOutOfRangeException => "Index was outside the bounds of the array."
  | NullReferenceException => "Object reference not set to an instance of an object."
  | ArgumentNullException paramName =>
      "Value cannot be null. (Parameter '" +:+ paramName +:+ "')"
  | KeyNotFoundException key =>
      "The given key '" +:+ key +:+ "' was not present in the dictionary."
  | ArgumentException msg => msg
  | OtherException msg => msg
  end.

(** A computation that returns normally or throws. *)
Inductive Result (A : Type) : Type :=
| Ok (a : A)
| Throw (ex : Exception).
Arguments Ok {A} a.
Arguments Throw {A} ex.

#[global] Instance Result_ret : MRet Result := fun A a => Ok a.
#[global] Instance Result_bind : MBind Result := fun A B f m =>
  match m with
  | Ok a => f a
  | Throw ex => Throw ex
  end.

(** [foreach (var a in l) st = body(st, a)], stopping at the first throw. *)
Fixpoint foreach {A S : Type} (body : S -> A -> Result S) (l : list A) (st : S)
  : Result S :=
  match l with
  | [] => Ok st
  | a :: l' => st' ← body st a; foreach body l' st'
  end.

(** A [string?] value; [None] is [null]. *)
Definition nstring : Type := option string.

(** How [string.Concat] and string interpolation render a [string?]. *)
Definition str (c : nstring) : string := default "" c.

(** A [string[]] field; [None] is a null reference. *)
Definition array : Type := option (list nstring).

(** [arr[idx]]. *)
Definition index (arr : array) (idx : nat) : Result nstring :=
  match arr with
  | None => Throw NullReferenceException
  | Some a =>
      match a !! idx with
      | Some c => Ok c
      | None => Throw IndexOutOfRangeException
      end
  end.

(** [Array.Fill(arr, value)]. *)
Definition Array_Fill (arr : array) (value : string) : Result array :=
  match arr with
  | None => Throw (ArgumentNullException "array")
  | Some a => Ok (Some (replicate (length a) (Some value)))
  end.

(** [s[i]] on a string, as a one-character string. *)
Definition charAt (s : string) (i : nat) : Result string :=
  match String.get i s with
  | Some c => Ok (String c EmptyString)
  | None => Throw IndexOutOfRangeException
  end.

(** [string.Join(sep, items)]. *)
Definition Join (sep : string) (items : list string) : string :=
  String.concat sep items.

(** ** Rubiksolver.Models *)

Module Models.

Record CubeState : Type := mkCubeState {
  U : array;  (* Up (White) *)
  D : array;  (* Down (Yellow) *)
  F : array;  (* Front (Green) *)
  B : array;  (* Back (Blue) *)
  R : array;  (* Right (Red) *)
  L : array   (* Left (Orange) *)
}.

(** The object before the constructor body runs: six [new string[9]]. *)
Definition fresh_fields : CubeState :=
  let blank := Some (replicate 9 None) in
  mkCubeState blank blank blank blank blank blank.

Definition Reset (s : CubeState) : Result CubeState :=
  u ← Array_Fill (U s) "W";
  d ← Array_Fill (D s) "Y";
  f ← Array_Fill (F s) "G";
  b ← Array_Fill (B s) "B";
  r ← Array_Fill (R s) "R";
  l ← Array_Fill (L s) "O";
  Ok (mkCubeState u d f b r l).

(** [new CubeState()]. *)
Definition new_CubeState : Result CubeState := Reset fresh_fields.

Definition colorToFace : gmap string ascii :=
  <["B" := "B"%char]> (<["O" := "L"%char]> (<["Y" := "D"%char]>
  (<["G" := "F"%char]> (<["R" := "R"%char]> (<["W" := "U"%char]> ∅))))).

(** [colorToFace[color]]. *)
Definition colorToFace_item (color : nstring) : Result ascii :=
  match color with
  | None => Throw (ArgumentNullException "key")
  | Some c =>
      match colorToFace !! c with
      | Some f => Ok f
      | None => Throw (KeyNotFoundException c)
      end
  end.

(** [foreach (var color in face) sb.Append(colorToFace[color])]. *)
Definition append_face (sb : string) (face : array) : Result string :=
  match face with
  | None => Throw NullReferenceException
  | Some a =>
      foreach (fun sb color =>
                 f ← colorToFace_item color; Ok (sb +:+ String f EmptyString))
              a sb
  end.

Definition ToKociembaString (s : CubeState) : Result string :=
  sb ← append_face "" (U s);
  sb ← append_face sb (R s);
  sb ← append_face sb (F s);
  sb ← append_face sb (D s);
  sb ← append_face sb (L s);
  append_face sb (B s).

(** [string.Concat(values)]: a null entry counts as the empty string. *)
Definition Concat (values : array) : Result string :=
  match values with
  | None => Throw (ArgumentNullException "values")
  | Some a => Ok (String.concat "" (str <$> a))
  end.

Definition ToKey (s : CubeState) : Result string :=
  u ← Concat (U s); d ← Concat (D s); f ← Concat (F s);
  b ← Concat (B s); r ← Concat (R s); l ← Concat (L s);
  Ok (((((u +:+ d) +:+ f) +:+ b) +:+ r) +:+ l).

(** [face.All(c => c == color)]. *)
Definition All_eq (face : array) (color : string) : Result bool :=
  match face with
  | None => Throw (ArgumentNullException "source")
  | Some a =>
      Ok (forallb (fun c => match c with
                            | Some c' => String.eqb c' color
                            | None => false
                            end) a)
  end.

(** [a && b] with [b] evaluated only when [a] holds. *)
Definition and_then (a : Result bool) (b : Result bool) : Result bool :=
  x ← a; if x : bool then b else Ok false.

Definition IsSolved (s : CubeState) : Result bool :=
  and_then (All_eq (U s) "W")
  (and_then (All_eq (D s) "Y")
  (and_then (All_eq (F s) "G")
  (and_then (All_eq (B s) "B")
  (and_then (All_eq (R s) "R")
            (All_eq (L s) "O"))))).

Record ValidationResult : Type := mkValidationResult {
  MissingEdges : list string;
  DuplicateEdges : list string;
  InvalidEdges : list string;
  MissingCorners : list string;
  DuplicateCorners : list string;
  InvalidCorners : list string
}.

Definition HasIssues (r : ValidationResult) : bool :=
  (0 <? length (MissingEdges r))%nat || (0 <? length (DuplicateEdges r))%nat ||
  (0 <? length (InvalidEdges r))%nat || (0 <? length (MissingCorners r))%nat ||
  (0 <? length (DuplicateCorners r))%nat || (0 <? length (InvalidCorners r))%nat.

Definition GetDetailedMessage (r : ValidationResult) : string :=
  let part (label sep : string) (items : list string) : list string :=
    if (0 <? length items)%nat then [label +:+ Join sep items] else [] in
  Join ". "
    (part "Invalid edges: " "; " (InvalidEdges r) ++
     part "Missing edges: " ", " (MissingEdges r) ++
     part "Duplicate edges: " "; " (DuplicateEdges r) ++
     part "Invalid corners: " "; " (InvalidCorners r) ++
     part "Missing corners: " ", " (MissingCorners r) ++
     part "Duplicate corners: " "; " (DuplicateCorners r)).

(** The two [HashSet<string>] of valid combinations, as the lists of their
    members in the order the source adds them, which is the order in which
    a set that nothing was removed from is enumerated. *)
Definition validEdges : list string :=
  ["GW"; "RW"; "BW"; "OW";
   "GY"; "RY"; "BY"; "OY";
   "GR"; "GO"; "BR"; "BO"].

Definition validCorners : list string :=
  ["GRW"; "GOW"; "BRW"; "BOW";
   "GRY"; "GOY"; "BRY"; "BOY"].

Definition edgePositions : list (string * nat * string * nat * string) :=
  [("U", 7, "F", 1, "UF"); ("U", 5, "R", 1, "UR"); ("U", 1, "B", 1, "UB"); ("U", 3, "L", 1, "UL");
   ("D", 1, "F", 7, "DF"); ("D", 5, "R", 7, "DR"); ("D", 7, "B", 7, "DB"); ("D", 3, "L", 7, "DL");
   ("F", 5, "R", 3, "FR"); ("F", 3, "L", 5, "FL"); ("B", 3, "R", 5, "BR"); ("B", 5, "L", 3, "BL")]%nat.

Definition cornerPositions
  : list (string * nat * string * nat * string * nat * string) :=
  [("U", 8, "F", 2, "R", 0, "UFR"); ("U", 6, "F", 0, "L", 2, "UFL");
   ("U", 2, "B", 0, "R", 2, "UBR"); ("U", 0, "B", 2, "L", 0, "UBL");
   ("D", 2, "F", 8, "R", 6, "DFR"); ("D", 0, "F", 6, "L", 8, "DFL");
   ("D", 8, "B", 6, "R", 8, "DBR"); ("D", 6, "B", 8, "L", 6, "DBL")]%nat.

Definition GetFace (s : CubeState) (face : string) : Result array :=
  if String.eqb face "U" then Ok (U s)
  else if String.eqb face "D" then Ok (D s)
  else if String.eqb face "F" then Ok (F s)
  else if String.eqb face "B" then Ok (B s)
  else if String.eqb face "R" then Ok (R s)
  else if String.eqb face "L" then Ok (L s)
  else Throw (ArgumentException ("Invalid face: " +:+ face)).

(** [GetFace(face)[idx]]. *)
Definition sticker (s : CubeState) (face : string) (idx : nat) : Result nstring :=
  a ← GetFace s face; index a idx.

(** The position lists kept per sorted combination
    ([Dictionary<string, List<string>>]). *)
Abbreviation Counts := (gmap string (list string)).

(** [if (!counts.ContainsKey(sorted)) counts[sorted] = new List<string>();
     counts[sorted].Add(pos);] *)
Definition record_position (counts : Counts) (sorted pos : string) : Counts :=
  let counts' :=
    match counts !! sorted with
    | Some _ => counts
    | None => <[sorted := []]> counts
    end in
  alter (fun positions => positions ++ [pos]) sorted counts'.

Section Validation.

(** [string.CompareTo], the comparison behind [OrderBy(c => c)].  It follows
    the current culture, so it stays a parameter. *)
Variable compareTo : string -> string -> comparison.

(** [Comparer<string>.Default.Compare]: a null reference sorts first. *)
Definition Compare (x y : nstring) : comparison :=
  match x, y with
  | Some a, Some b => compareTo a b
  | Some _, None => Gt
  | None, Some _ => Lt
  | None, None => Eq
  end.

(** Puts [x] in front of a sorted list, behind the strictly smaller keys
    only, so that equal keys keep their source order. *)
Fixpoint insert_sorted (x : nstring) (l : list nstring) : list nstring :=
  match l with
  | [] => [x]
  | y :: l' =>
      match Compare x y with
      | Gt => y :: insert_sorted x l'
      | _ => x :: l
      end
  end.

(** [source.OrderBy(c => c)]: a stable sort. *)
Definition OrderBy (source : list nstring) : list nstring :=
  foldr insert_sorted [] source.

(** [string.Concat(source.OrderBy(c => c))]. *)
Definition sorted_concat (source : list nstring) : string :=
  String.concat "" (str <$> OrderBy source).

(** Body of the "Count edges" loop; the state is [edgeCounts] and
    [result.InvalidEdges]. *)
Definition count_edge (s : CubeState) (st : Counts * list string)
    (e : string * nat * string * nat * string) : Result (Counts * list string) :=
  let '(face1, idx1, face2, idx2, pos) := e in
  let '(edgeCounts, invalid) := st in
  c1 ← sticker s face1 idx1;
  c2 ← sticker s face2 idx2;
  let sorted := sorted_concat [c1; c2] in
  let edgeCounts := record_position edgeCounts sorted pos in
  if bool_decide (sorted ∈ validEdges)
  then Ok (edgeCounts, invalid)
  else Ok (edgeCounts, invalid ++ [str c1 +:+ "-" +:+ str c2 +:+ " at " +:+ pos]).

(** Body of the "missing/duplicate edges" loop; the state is
    [result.MissingEdges] and [result.DuplicateEdges]. *)
Definition check_edge (edgeCounts : Counts) (st : list string * list string)
    (validEdge : string) : Result (list string * list string) :=
  let '(missing, duplicate) := st in
  let positions := default [] (edgeCounts !! validEdge) in
  if (length positions =? 0)%nat then
    a ← charAt validEdge 0; b ← charAt validEdge 1;
    Ok (missing ++ [a +:+ "-" +:+ b], duplicate)
  else if (1 <? length positions)%nat then
    a ← charAt validEdge 0; b ← charAt validEdge 1;
    Ok (missing, duplicate ++ [a +:+ "-" +:+ b +:+ " at " +:+ Join ", " positions])
  else Ok (missing, duplicate).

Definition count_corner (s : CubeState) (st : Counts * list string)
    (c : string * nat * string * nat * string * nat * string)
  : Result (Counts * list string) :=
  let '(face1, idx1, face2, idx2, face3, idx3, pos) := c in
  let '(cornerCounts, invalid) := st in
  c1 ← sticker s face1 idx1;
  c2 ← sticker s face2 idx2;
  c3 ← sticker s face3 idx3;
  let sorted := sorted_concat [c1; c2; c3] in
  let cornerCounts := record_position cornerCounts sorted pos in
  if bool_decide (sorted ∈ validCorners)
  then Ok (cornerCounts, invalid)
  else Ok (cornerCounts,
           invalid ++ [str c1 +:+ "-" +:+ str c2 +:+ "-" +:+ str c3 +:+ " at " +:+ pos]).

Definition check_corner (cornerCounts : Counts) (st : list string * list string)
    (validCorner : string) : Result (list string * list string) :=
  let '(missing, duplicate) := st in
  let positions := default [] (cornerCounts !! validCorner) in
  if (length positions =? 0)%nat then
    a ← charAt validCorner 0; b ← charAt validCorner 1; c ← charAt validCorner 2;
    Ok (missing ++ [a +:+ "-" +:+ b +:+ "-" +:+ c], duplicate)
  else if (1 <? length positions)%nat then
    a ← charAt validCorner 0; b ← charAt validCorner 1; c ← charAt validCorner 2;
    Ok (missing,
        duplicate ++ [a +:+ "-" +:+ b +:+ "-" +:+ c +:+ " at " +:+ Join ", " positions])
  else Ok (missing, duplicate).

(** [ValidateState]: [Ok None] is the source's [null] (valid cube). *)
Definition ValidateState (s : CubeState) : Result (option ValidationResult) :=
  '(edgeCounts, invalidEdges) ← foreach (count_edge s) edgePositions (∅, []);
  '(missingEdges, duplicateEdges) ← foreach (check_edge edgeCounts) validEdges ([], []);
  '(cornerCounts, invalidCorners) ← foreach (count_corner s) cornerPositions (∅, []);
  '(missingCorners, duplicateCorners) ←
     foreach (check_corner cornerCounts) validCorners ([], []);
  let result := mkValidationResult missingEdges duplicateEdges invalidEdges
                                   missingCorners duplicateCorners invalidCorners in
  Ok (if HasIssues result then Some result else None).

End Validation.

Record SolveResponse : Type := mkSolveResponse {
  Solution : list string;
  MoveCount : Z;
  SolveTimeMs : Z;
  Error : option string
}.

(** [new SolveResponse()]. *)
Definition new_SolveResponse : SolveResponse := mkSolveResponse [] 0 0 None.

End Models.

(** ** Rubiksolver.Services *)

Module Services.
Import Models.

(** [char.IsWhiteSpace] on the Latin-1 range. *)
Definition IsWhiteSpace (c : ascii) : bool :=
  let n := nat_of_ascii c in
  ((9 <=? n) && (n <=? 13) || (n =? 32) || (n =? 133) || (n =? 160))%nat.

(** [string.IsNullOrWhiteSpace] on a non-null string. *)
Fixpoint IsNullOrWhiteSpace (s : string) : bool :=
  match s with
  | EmptyString => true
  | String c s' => IsWhiteSpace c && IsNullOrWhiteSpace s'
  end.

(** [s.Split(sep)], empty entries kept. *)
Fixpoint Split (sep : ascii) (s : string) : list string :=
  match s with
  | EmptyString => [EmptyString]
  | String c s' =>
      if Ascii.eqb c sep then EmptyString :: Split sep s'
      else match Split sep s' with
           | w :: ws => String c w :: ws
           | [] => [String c EmptyString]
           end
  end.

Fixpoint TrimStart (s : string) : string :=
  match s with
  | EmptyString => EmptyString
  | String c s' => if IsWhiteSpace c then TrimStart s' else s
  end.

Fixpoint TrimEnd (s : string) : string :=
  match s with
  | EmptyString => EmptyString
  | String c s' =>
      match TrimEnd s' with
      | EmptyString => if IsWhiteSpace c then EmptyString else String c EmptyString
      | t => String c t
      end
  end.

Definition Trim (s : string) : string := TrimEnd (TrimStart s).

Definition IsNullOrEmpty (s : string) : bool := String.eqb s "".

Definition ParseSolution (solutionString : string) : list string :=
  if IsNullOrWhiteSpace solutionString then []
  else
    filter (fun m => negb (IsNullOrEmpty m))
      (Trim <$> filter (fun m => negb (IsNullOrEmpty m)) (Split " "%char solutionString)).

Definition GetErrorMessage (errorCode : string) : string :=
  if String.eqb errorCode "Error 1" then
    "Invalid cube: Not exactly one facelet of each color"
  else if String.eqb errorCode "Error 2" then
    "Invalid cube: Not all 12 edges exist exactly once"
  else if String.eqb errorCode "Error 3" then
    "Invalid cube: One edge has to be flipped"
  else if String.eqb errorCode "Error 4" then
    "Invalid cube: Not all 8 corners exist exactly once"
  else if String.eqb errorCode "Error 5" then
    "Invalid cube: One corner has to be twisted"
  else if String.eqb errorCode "Error 6" then
    "Invalid cube: Two corners or two edges have to be exchanged (parity error)"
  else if String.eqb errorCode "Error 7" then
    "No solution found within max depth"
  else if String.eqb errorCode "Error 8" then
    "Timeout - no solution found within time limit"
  else errorCode.

(** The collaborators [Solve] calls out to, as far as the properties below
    tell them apart. *)
Inductive Call : Type :=
| CallToKociembaString
| CallSolution (facelets : string) (maxDepth timeOut : Z)
               (useSeparator buildTables : bool).

(** What a statement of [Solve] can touch: the [response] object being
    filled in, and the log of collaborator calls made so far. *)
Record World : Type := mkWorld {
  response : SolveResponse;
  calls : list Call
}.

(** A statement: it updates the world and completes or throws.  The world
    survives a throw, as the fields of [response] do in the source. *)
Definition Action (A : Type) : Type := World -> World * Result A.

#[global] Instance Action_ret : MRet Action := fun A a w => (w, Ok a).
#[global] Instance Action_bind : MBind Action := fun A B f m w =>
  match m w with
  | (w', Ok a) => f a w'
  | (w', Throw ex) => (w', Throw ex)
  end.

(** A pure, possibly throwing, expression used as a statement. *)
Definition eval {A : Type} (r : Result A) : Action A := fun w => (w, r).

(** A call to a collaborator: logged, then evaluated. *)
Definition call {A : Type} (c : Call) (r : Result A) : Action A :=
  fun w => (mkWorld (response w) (calls w ++ [c]), r).

Definition set_Solution (v : list string) : Action unit := fun w =>
  let r := response w in
  (mkWorld (mkSolveResponse v (MoveCount r) (SolveTimeMs r) (Error r)) (calls w), Ok tt).

Definition set_MoveCount (v : Z) : Action unit := fun w =>
  let r := response w in
  (mkWorld (mkSolveResponse (Solution r) v (SolveTimeMs r) (Error r)) (calls w), Ok tt).

Definition set_SolveTimeMs (v : Z) : Action unit := fun w =>
  let r := response w in
  (mkWorld (mkSolveResponse (Solution r) (MoveCount r) v (Error r)) (calls w), Ok tt).

Definition set_Error (v : option string) : Action unit := fun w =>
  let r := response w in
  (mkWorld (mkSolveResponse (Solution r) (MoveCount r) (SolveTimeMs r) v) (calls w), Ok tt).

(** [try { body } catch (Exception ex) { handler(ex) }]. *)
Definition try_catch {A : Type} (body : Action A) (handler : Exception -> Action A)
  : Action A := fun w =>
  match body w with
  | (w', Ok a) => (w', Ok a)
  | (w', Throw ex) => handler ex w'
  end.

(** [return response;] *)
Definition return_response : Action SolveResponse := fun w => (w, Ok (response w)).

Definition solved_string : string :=
  "UUUUUUUUURRRRRRRRRFFFFFFFFFDDDDDDDDDLLLLLLLLLBBBBBBBBB".

Section CubeSolver.

(** [string.CompareTo] (see [Models.ValidateState]). *)
Variable compareTo : string -> string -> comparison.

(** [string.StartsWith(string)], which also follows the current culture. *)
Variable StartsWith : string -> string -> bool.

(** [SearchRunTime.solution(facelets, out info, maxDepth, timeOut,
    useSeparator, buildTables)]: the two-phase search engine, which lives
    outside these sources.  It returns a [string] (possibly null) or throws. *)
Variable solution : string -> Z -> Z -> bool -> bool -> Result (option string).

(** The reading of [sw.ElapsedMilliseconds] when the response is stamped. *)
Variable ElapsedMilliseconds : Z.

(** The statements inside [try { ... }].  Each [return response;] of the
    source leaves the block for the final [return response;], so the
    early returns are the branches that end here. *)
Definition Solve_try (state : CubeState) : Action unit :=
  validationResult ← eval (ValidateState compareTo state);
  match validationResult with
  | Some v =>
      set_Error (Some ("Invalid cube: " +:+ GetDetailedMessage v));;
      set_SolveTimeMs ElapsedMilliseconds
  | None =>
      kociembaString ← call CallToKociembaString (ToKociembaString state);
      if String.eqb kociembaString solved_string then
        set_Solution [];;
        set_MoveCount 0;;
        set_SolveTimeMs ElapsedMilliseconds
      else
        solutionString ←
          call (CallSolution kociembaString 22 10000 false false)
               (solution kociembaString 22 10000 false false);
        match solutionString with
        | None => eval (Throw NullReferenceException)
        | Some solutionString =>
            if StartsWith solutionString "Error" then
              set_Error (Some (GetErrorMessage solutionString));;
              set_SolveTimeMs ElapsedMilliseconds
            else
              let moves := ParseSolution solutionString in
              set_Solution moves;;
              set_MoveCount (Z.of_nat (length moves));;
              set_SolveTimeMs ElapsedMilliseconds
        end
  end.

Definition Solve_catch (ex : Exception) : Action unit :=
  set_Error (Some (Message ex));;
  set_SolveTimeMs ElapsedMilliseconds.

(** [Solve(state)], run from a fresh response and an empty call log: the
    final world and the returned response, or the exception that escapes. *)
Definition Solve (state : CubeState) : World * Result SolveResponse :=
  (try_catch (Solve_try state) Solve_catch;; return_response)
    (mkWorld new_SolveResponse []).

(** The response of a failed call: no moves, the time, one message. *)
Definition failure (msg : string) : SolveResponse :=
  mkSolveResponse [] 0 ElapsedMilliseconds (Some msg).

(** The two calls of a run that reaches the search engine. *)
Definition search_calls (k : string) : list Call :=
  [CallToKociembaString; CallSolution k 22 10000 false false].

(** What [Solve] is expected to make of the engine's answer. *)
Definition after_search (answer : Result (option string)) : SolveResponse :=
  match answer with
  | Throw ex => failure (Message ex)
  | Ok None => failure (Message NullReferenceException)
  | Ok (Some solutionString) =>
      if StartsWith solutionString "Error"
      then failure (GetErrorMessage solutionString)
      else mkSolveResponse (ParseSolution solutionString)
                           (Z.of_nat (length (ParseSolution solutionString)))
                           ElapsedMilliseconds None
  end.

End CubeSolver.

End Services.

(** ** Kociemba.Tools *)

Module Kociemba.

(** Modelled from the spec: the [CubeColor] enumeration, declared outside
    these sources; its members are the six faces in the fixed order
    U, R, F, D, L, B, numbered from 0. *)
Module CubeColor.

Inductive t : Type := U | R | F | D | L | B.

(** The member names [Enum.Parse] accepts. *)
Definition names : list (ascii * t) :=
  [("U"%char, U); ("R"%char, R); ("F"%char, F);
   ("D"%char, D); ("L"%char, L); ("B"%char, B)].

(** [(int)color]. *)
Definition to_int (c : t) : Z :=
  match c with U => 0 | R => 1 | F => 2 | D => 3 | L => 4 | B => 5 end.

End CubeColor.

(** [(int)(CubeColor)Enum.Parse(typeof(CubeColor), c.ToString())] for one
    character [c]: a member name gives that member; a decimal digit gives
    the value with that number, member or not; anything else throws. *)
Definition Enum_Parse (c : ascii) : Result Z :=
  match list_find (fun p => p.1 = c) CubeColor.names with
  | Some (_, (_, color)) => Ok (CubeColor.to_int color)
  | None =>
      let n := nat_of_ascii c in
      if ((48 <=? n) && (n <=? 57))%nat then Ok (Z.of_nat (n - 48))
      else Throw (ArgumentException "Requested value was not found.")
  end.

(** [s[i]] on a string. *)
Definition Chars (s : string) (i : nat) : Result ascii :=
  match String.get i s with
  | Some c => Ok c
  | None => Throw IndexOutOfRangeException
  end.

(** [count[k]++] on an [int[]]. *)
Definition increment (count : list Z) (k : Z) : Result (list Z) :=
  if ((0 <=? k) && (k <? Z.of_nat (length count)))%Z
  then Ok (alter Z.succ (Z.to_nat k) count)
  else Throw IndexOutOfRangeException.

(** The counting loop inside [try { ... }]. *)
Definition count_colors (s : string) : Result (list Z) :=
  foreach (fun count i => c ← Chars s i; k ← Enum_Parse c; increment count k)
          (seq 0 54) (replicate 6 0%Z).

Section Verify.

(** [new FaceCube(s).toCubieCube().verify()]: the cubie-level check, which
    lives outside these sources. *)
Variable cubie_verify : string -> Z.

Definition verify (s : string) : Z :=
  match count_colors s with
  | Throw _ => -1
  | Ok count =>
      if forallb (fun n => (n =? 9)%Z) count then cubie_verify s else -1
  end.

End Verify.

(** The codes [verify] documents. *)
Definition verify_codes : list Z := [0; -1; -2; -3; -4; -5; -6]%Z.

(** The codes the cubie-level check documents: all but -1. *)
Definition cubie_codes : list Z := [0; -2; -3; -4; -5; -6]%Z.

(** The string parses, character by character, into the colors [cs]. *)
Definition parses_to (s : string) (cs : list CubeColor.t) : Prop :=
  Forall2 (fun ch c => Enum_Parse ch = Ok (CubeColor.to_int c))
          (String.list_ascii_of_string s) cs.

#[global] Instance CubeColor_eq_dec : EqDecision CubeColor.t.
Proof. solve_decision. Defined.

(** How often the color [c] occurs in [cs]. *)
Definition occ (c : CubeColor.t) (cs : list CubeColor.t) : nat :=
  length (filter (fun c' => c' = c) cs).

(** The string parses into the six colors with nine facelets of each. *)
Definition nine_of_each (s : string) : Prop :=
  ∃ cs, parses_to s cs ∧ ∀ c, occ c cs = 9%nat.

(** The slot of a color in the [count] array. *)
Definition slot (c : CubeColor.t) : nat := Z.to_nat (CubeColor.to_int c).

(** One pass of the counting loop on a character. *)
Definition count_char (count : list Z) (ch : ascii) : Result (list Z) :=
  k ← Enum_Parse ch; increment count k.

(** A solved cube written with member names, and with member numbers. *)
Definition solved_names : string :=
  "UUUUUUUUURRRRRRRRRFFFFFFFFFDDDDDDDDDLLLLLLLLLBBBBBBBBB".

Definition solved_numbers : string :=
  "000000000111111111222222222333333333444444444555555555".

(** A stand-in for the cubie-level check that accepts every cube. *)
Definition accepting_check (s : string) : Z := 0.

(** Modelled from the spec: the part of the [CubieCube] class that
    [randomCube] uses; the class itself lives outside these sources.  The
    two sums are the observations in which the spec states the orientation
    invariants of a legal cube. *)
Class CubieCubeOps (CubieCube : Type) : Type := {
  new_CubieCube : CubieCube;
  setFlip : Z -> CubieCube -> CubieCube;
  setTwist : Z -> CubieCube -> CubieCube;
  setURFtoDLB : Z -> CubieCube -> CubieCube;
  setURtoBR : Z -> CubieCube -> CubieCube;
  edgeParity : CubieCube -> Z;
  cornerParity : CubieCube -> Z;
  (** [cc.toFaceCube().to_fc_String()] *)
  to_fc_String : CubieCube -> string;
  edgeOrientationSum : CubieCube -> Z;
  cornerOrientationSum : CubieCube -> Z
}.

(** Modelled from the spec: the invariants of a reachable (legal) cube. *)
Definition legal `{CubieCubeOps CubieCube} (cc : CubieCube) : Prop :=
  cornerParity cc = edgeParity cc ∧
  (cornerOrientationSum cc mod 3 = 0)%Z ∧
  (edgeOrientationSum cc mod 2 = 0)%Z.

(** Modelled from the spec: what makes the four setters coordinate
    setters.  The orientation coordinates range over orientations that
    already satisfy the sum invariants, and a permutation coordinate
    leaves the orientations alone. *)
Class CubieCubeLaws (CubieCube : Type) `{CubieCubeOps CubieCube} : Prop := {
  setFlip_sum : forall f cc, (edgeOrientationSum (setFlip f cc) mod 2 = 0)%Z;
  setTwist_sum : forall t cc, (cornerOrientationSum (setTwist t cc) mod 3 = 0)%Z;
  setTwist_edges : forall t cc,
    edgeOrientationSum (setTwist t cc) = edgeOrientationSum cc;
  setURFtoDLB_edges : forall i cc,
    edgeOrientationSum (setURFtoDLB i cc) = edgeOrientationSum cc;
  setURFtoDLB_corners : forall i cc,
    cornerOrientationSum (setURFtoDLB i cc) = cornerOrientationSum cc;
  setURtoBR_edges : forall i cc,
    edgeOrientationSum (setURtoBR i cc) = edgeOrientationSum cc;
  setURtoBR_corners : forall i cc,
    cornerOrientationSum (setURtoBR i cc) = cornerOrientationSum cc
}.

(** [(short)n]. *)
Definition to_short (n : Z) : Z := ((n + 32768) mod 65536 - 32768)%Z.

Section RandomCube.

Context `{CubieCubeOps CubieCube}.

(** The [do { ... } while (...)] loop.  [draws] holds the values the
    coming calls of [gen.Next] return; the loop gives up ([None]) when
    they run out before the parities agree. *)
Fixpoint resample (draws : list Z) (cc : CubieCube) : option CubieCube :=
  match draws with
  | a :: b :: draws' =>
      let cc := setURFtoDLB a cc in
      let cc := setURtoBR b cc in
      if (Z.lxor (edgeParity cc) (cornerParity cc) =? 0)%Z
      then Some cc
      else resample draws' cc
  | _ => None
  end.

(** The cubie cube [randomCube] builds before rendering it. *)
Definition randomCube_cubie (draws : list Z) : option CubieCube :=
  match draws with
  | f :: t :: draws' =>
      let cc := new_CubieCube in
      let cc := setFlip (to_short f) cc in
      let cc := setTwist (to_short t) cc in
      resample draws' cc
  | _ => None
  end.

Definition randomCube (draws : list Z) : option string :=
  to_fc_String <$> randomCube_cubie draws.

End RandomCube.

(** Modelled from the spec: one cubie cube behind the interface, kept to
    what the spec says of it.  A cube is a permutation of the 8 corner
    pieces with orientations in {0,1,2} and a permutation of the 12 edge
    pieces with orientations in {0,1}.  The flip coordinate has 2048 = 2^11
    values and the twist coordinate 2187 = 3^7: each fixes all orientations
    but the last, which the sum invariant determines.  A permutation
    coordinate picks the pieces slot by slot (factorial-base digits), the
    parity of a permutation is that of its number of inversions, and the
    facelet string follows the two tables of the converter: the three
    facelets of each corner slot in rotational order, the two facelets of
    each edge slot. *)
Module CubieModel.

Record t : Type := mk {
  cp : list nat;
  co : list Z;
  ep : list nat;
  eo : list Z
}.

Definition identity : t :=
  mk (seq 0 8) (replicate 8 0%Z) (seq 0 12) (replicate 12 0%Z).

Definition sumZ (l : list Z) : Z := foldr Z.add 0%Z l.

(** The [n] lowest digits of [x] in the given base. *)
Fixpoint digits (base : Z) (n : nat) (x : Z) : list Z :=
  match n with
  | O => []
  | S n' => (x mod base)%Z :: digits base n' (x / base)%Z
  end.

(** [n] free orientations and the one that makes the sum a multiple of
    the base. *)
Definition orientations (base : Z) (n : nat) (x : Z) : list Z :=
  let ds := digits base n x in ds ++ [((- sumZ ds) mod base)%Z].

(** The arrangement of [pool] numbered [idx]. *)
Fixpoint arrangement (fuel : nat) (idx : Z) (pool : list nat) : list nat :=
  match fuel with
  | O => []
  | S fuel' =>
      let m := Z.of_nat (length pool) in
      let i := Z.to_nat (idx mod m) in
      match pool !! i with
      | Some x => x :: arrangement fuel' (idx / m)%Z (delete i pool)
      | None => []
      end
  end.

Fixpoint inversions (l : list nat) : nat :=
  match l with
  | [] => 0
  | x :: l' => length (filter (fun y => (y < x)%nat) l') + inversions l'
  end.

Definition parity (l : list nat) : Z := Z.of_nat (inversions l mod 2).

(** Facelets are numbered 0 to 53, face by face in the order U, R, F, D,
    L, B.  Corner slots: URF, UFL, ULB, UBR, DFR, DLF, DBL, DRB. *)
Definition cornerFacelet : list (list nat) :=
  [[8; 9; 20]; [6; 18; 38]; [0; 36; 47]; [2; 45; 11];
   [29; 26; 15]; [27; 44; 24]; [33; 53; 42]; [35; 17; 51]]%nat.

(** Edge slots: UR, UF, UL, UB, DR, DF, DL, DB, FR, FL, BL, BR. *)
Definition edgeFacelet : list (list nat) :=
  [[5; 10]; [7; 19]; [3; 37]; [1; 46]; [32; 16]; [28; 25];
   [30; 43]; [34; 52]; [23; 12]; [21; 41]; [50; 39]; [48; 14]]%nat.

(** The face a facelet belongs to. *)
Definition face_letter (facelet : nat) : ascii :=
  default "U"%char
    (["U"; "R"; "F"; "D"; "L"; "B"]%char !! (facelet / 9)%nat).

(** Writes the piece [piece] with orientation [ori] into slot [slot]. *)
Definition place (table : list (list nat)) (f : list ascii)
    (slot piece : nat) (ori : Z) : list ascii :=
  let here := default [] (table !! slot) in
  let home := default [] (table !! piece) in
  let k := length here in
  foldl (fun f n =>
           match here !! ((n + Z.to_nat ori) mod k)%nat, home !! n with
           | Some target, Some source => <[target := face_letter source]> f
           | _, _ => f
           end)
        f (seq 0 k).

Definition place_all (table : list (list nat)) (perm : list nat) (ori : list Z)
    (f : list ascii) : list ascii :=
  foldl (fun f slot =>
           place table f slot (default 0%nat (perm !! slot))
                 (default 0%Z (ori !! slot)))
        f (seq 0 (length table)).

(** [toFaceCube().to_fc_String()]. *)
Definition render (cc : t) : string :=
  String.string_of_list_ascii
    (place_all edgeFacelet (ep cc) (eo cc)
       (place_all cornerFacelet (cp cc) (co cc) (face_letter <$> seq 0 54))).

#[global] Instance ops : CubieCubeOps t := {|
  new_CubieCube := identity;
  setFlip f cc := mk (cp cc) (co cc) (ep cc) (orientations 2 11 f);
  setTwist t cc := mk (cp cc) (orientations 3 7 t) (ep cc) (eo cc);
  setURFtoDLB i cc := mk (arrangement 8 i (seq 0 8)) (co cc) (ep cc) (eo cc);
  setURtoBR i cc := mk (cp cc) (co cc) (arrangement 12 i (seq 0 12)) (eo cc);
  edgeParity cc := parity (ep cc);
  cornerParity cc := parity (cp cc);
  to_fc_String := render;
  edgeOrientationSum cc := sumZ (eo cc);
  cornerOrientationSum cc := sumZ (co cc)
|}.

(** The values [gen.Next] returns in one run: flip, twist, a first pair of
    permutation coordinates with different parities, a second pair with
    equal ones. *)
Definition sample_draws : list Z := [1234; 567; 1; 0; 4711; 20231103]%Z.

End CubieModel.

End Kociemba.

(** ** Vocabulary of the specification *)

Module Layout.
Import Models.

(** The six sticker colors and their tokens. *)
Inductive Color : Type := White | Yellow | Green | Blue | Red | Orange.

Definition token (c : Color) : string :=
  match c with
  | White => "W" | Yellow => "Y" | Green => "G"
  | Blue => "B" | Red => "R" | Orange => "O"
  end.

Definition colors : list Color := [White; Yellow; Green; Blue; Red; Orange].

#[global] Instance Color_eq_dec : EqDecision Color.
Proof. solve_decision. Defined.

(** The sticker showing color [c]. *)
Definition paint (c : Color) : nstring := Some (token c).

Definition recognized (c : nstring) : Prop := ∃ col, c = paint col.

#[global] Instance recognized_dec c : Decision (recognized c).
Proof.
  refine (cast_if (decide (c ∈ paint <$> colors))).
  - abstract (apply list_elem_of_fmap in e as (col & -> & _); by exists col).
  - abstract (intros [col ->]; apply n, list_elem_of_fmap; exists col;
              split; [done|]; destruct col; by apply (bool_decide_unpack _)).
Defined.

(** On the six tokens the culture's order is the alphabetical one,
    B < G < O < R < W < Y, which is also the ordinal order. *)
Definition alphabetical (compareTo : string -> string -> comparison) : Prop :=
  ∀ a b : Color, compareTo (token a) (token b) = String.compare (token a) (token b).

(** A face holding exactly nine stickers. *)
Definition nine (a : array) : bool :=
  match a with
  | Some l => (length l =? 9)%nat
  | None => false
  end.

(** A 54-sticker layout: six faces of nine stickers. *)
Definition well_formed (s : CubeState) : bool :=
  nine (U s) && nine (D s) && nine (F s) && nine (B s) && nine (R s) && nine (L s).

(** The face names [GetFace] knows. *)
Definition faces : list string := ["U"; "D"; "F"; "B"; "R"; "L"].

(** The sticker at a facelet, [null] where there is none. *)
Definition facelet (s : CubeState) (face : string) (idx : nat) : nstring :=
  match sticker s face idx with
  | Ok c => c
  | Throw _ => None
  end.

(** The stickers found at a physical edge position, with its name. *)
Definition edge_item (s : CubeState) (e : string * nat * string * nat * string)
  : list nstring * string :=
  let '(face1, idx1, face2, idx2, pos) := e in
  ([facelet s face1 idx1; facelet s face2 idx2], pos).

Definition edge_stickers (s : CubeState) : list (list nstring * string) :=
  edge_item s <$> edgePositions.

(** The stickers found at a physical corner position, with its name. *)
Definition corner_item (s : CubeState)
    (c : string * nat * string * nat * string * nat * string)
  : list nstring * string :=
  let '(face1, idx1, face2, idx2, face3, idx3, pos) := c in
  ([facelet s face1 idx1; facelet s face2 idx2; facelet s face3 idx3], pos).

Definition corner_stickers (s : CubeState) : list (list nstring * string) :=
  corner_item s <$> cornerPositions.

(** Every edge and corner facelet shows one of the six colors. *)
Definition cubies_recognized (s : CubeState) : Prop :=
  Forall (fun x => Forall recognized x.1) (edge_stickers s ++ corner_stickers s).

(** The 12 edge pieces and 8 corner pieces of a real cube, each as its
    color combination. *)
Definition canonical_edges : list (list Color) :=
  [[Green; White]; [Red; White]; [Blue; White]; [Orange; White];
   [Green; Yellow]; [Red; Yellow]; [Blue; Yellow]; [Orange; Yellow];
   [Green; Red]; [Green; Orange]; [Blue; Red]; [Blue; Orange]].

Definition canonical_corners : list (list Color) :=
  [[Green; Red; White]; [Green; Orange; White];
   [Blue; Red; White]; [Blue; Orange; White];
   [Green; Red; Yellow]; [Green; Orange; Yellow];
   [Blue; Red; Yellow]; [Blue; Orange; Yellow]].

(** A piece occurs at a position when the position's stickers are the
    piece's colors, in any order. *)
Definition occurs (piece : list Color) (stickers : list nstring) : Prop :=
  stickers ≡ₚ paint <$> piece.

#[global] Instance occurs_dec piece stickers : Decision (occurs piece stickers).
Proof. unfold occurs, nstring. apply _. Defined.

(** The names of the positions at which a piece occurs. *)
Definition places (piece : list Color) (l : list (list nstring * string))
  : list string :=
  snd <$> filter (fun x => occurs piece x.1) l.

Definition occurrences (piece : list Color) (l : list (list nstring * string))
  : nat :=
  length (places piece l).

(** The stickers are those of some piece of the given kind. *)
Definition is_piece (pieces : list (list Color)) (stickers : list nstring) : Prop :=
  Exists (fun piece => occurs piece stickers) pieces.

#[global] Instance is_piece_dec pieces stickers : Decision (is_piece pieces stickers).
Proof. unfold is_piece. apply _. Defined.

(** How the report writes a piece and a sticker combination. *)
Definition piece_name (piece : list Color) : string :=
  Join "-" (token <$> piece).

Definition stickers_name (stickers : list nstring) : string :=
  Join "-" (str <$> stickers).

(** The sorted combination of a piece: its tokens in alphabetical order. *)
Definition piece_key (piece : list Color) : string :=
  String.concat "" (token <$> piece).

(** The report in terms of pieces: the pieces that occur nowhere, the
    pieces that occur more than once with all their places, and the
    positions whose stickers are no piece. *)
Definition missing_pieces (pieces : list (list Color))
    (l : list (list nstring * string)) : list string :=
  piece_name <$> filter (fun p => occurrences p l = 0%nat) pieces.

Definition duplicate_pieces (pieces : list (list Color))
    (l : list (list nstring * string)) : list string :=
  (fun p => piece_name p +:+ " at " +:+ Join ", " (places p l))
  <$> filter (fun p => (1 < occurrences p l)%nat) pieces.

Definition invalid_positions (pieces : list (list Color))
    (l : list (list nstring * string)) : list string :=
  (fun x => stickers_name x.1 +:+ " at " +:+ x.2)
  <$> filter (fun x => ¬ is_piece pieces x.1) l.

Definition piece_report (s : CubeState) : ValidationResult :=
  mkValidationResult
    (missing_pieces canonical_edges (edge_stickers s))
    (duplicate_pieces canonical_edges (edge_stickers s))
    (invalid_positions canonical_edges (edge_stickers s))
    (missing_pieces canonical_corners (corner_stickers s))
    (duplicate_pieces canonical_corners (corner_stickers s))
    (invalid_positions canonical_corners (corner_stickers s)).

(** Two layouts that differ at most in the center sticker (index 4) of
    each face. *)
Definition face_same_off_center (a a' : array) : Prop :=
  match a, a' with
  | None, None => True
  | Some l, Some l' =>
      length l = length l' ∧ ∀ i : nat, i ≠ 4%nat → l !! i = l' !! i
  | _, _ => False
  end.

Definition same_off_center (s s' : CubeState) : Prop :=
  face_same_off_center (U s) (U s') ∧ face_same_off_center (D s) (D s') ∧
  face_same_off_center (F s) (F s') ∧ face_same_off_center (B s) (B s') ∧
  face_same_off_center (R s) (R s') ∧ face_same_off_center (L s) (L s').

(** [s] with its six center stickers replaced. *)
Definition with_centers (u d f b r l : nstring) (s : CubeState) : CubeState :=
  let put (c : nstring) (a : array) : array := (fun x => <[4%nat := c]> x) <$> a in
  mkCubeState (put u (U s)) (put d (D s)) (put f (F s))
              (put b (B s)) (put r (R s)) (put l (L s)).

(** The canonical solved layout: nine stickers of each face's home color. *)
Definition solved_layout : CubeState :=
  let face (c : Color) : array := Some (replicate 9 (paint c)) in
  mkCubeState (face White) (face Yellow) (face Green)
              (face Blue) (face Red) (face Orange).

(** The solved layout after exchanging the stickers F[1] and R[3]: nine
    stickers of every color, but the edges UF and FR are no real pieces. *)
Definition exchanged_layout : CubeState :=
  let face (c : Color) : array := Some (replicate 9 (paint c)) in
  mkCubeState (face White) (face Yellow)
    (Some (<[1%nat := paint Red]> (replicate 9 (paint Green))))
    (face Blue)
    (Some (<[3%nat := paint Green]> (replicate 9 (paint Red))))
    (face Orange).

(** The solved layout with a token no color has on the Up center and a
    null reference on the Right center. *)
Definition odd_centers_layout : CubeState :=
  with_centers (Some "purple") (paint Yellow) (paint Green) (paint Blue) None
               (paint Orange) solved_layout.

(** A state whose Up array was replaced by an empty one. *)
Definition short_state : CubeState :=
  mkCubeState (Some []) (D fresh_fields) (F fresh_fields)
              (B fresh_fields) (R fresh_fields) (L fresh_fields).

(** What [Reset] makes of [short_state]. *)
Definition short_state_reset : CubeState :=
  let face (c : Color) : array := Some (replicate 9 (paint c)) in
  mkCubeState (Some []) (face Yellow) (face Green)
              (face Blue) (face Red) (face Orange).

(** The solved layout with a white sticker on the Right center: ten white
    stickers and eight red ones. *)
Definition white_center_layout : CubeState :=
  with_centers (paint White) (paint Yellow) (paint Green) (paint Blue)
               (paint White) (paint Orange) solved_layout.

(** The solved layout after a clockwise quarter turn of the Up face. *)
Definition up_turned_layout : CubeState :=
  let face (top rest : Color) : array :=
    Some (replicate 3 (paint top) ++ replicate 6 (paint rest)) in
  mkCubeState (face White White) (face Yellow Yellow) (face Red Green)
              (face Orange Blue) (face Blue Red) (face Green Orange).

(** [s.StartsWith(prefix)] by ordinal comparison. *)
Definition ordinal_StartsWith (s prefix : string) : bool := String.prefix prefix s.

(** The report [ValidateState] gives for [exchanged_layout]. *)
Definition exchanged_report : ValidationResult :=
  mkValidationResult ["G-W"; "G-R"] ["R-W at UF, UR"] ["G-G at FR"] [] [] [].

(** Three stand-ins for the search engine: one that runs out of time, one
    that finds the color counts wrong, one that fails. *)
Definition timing_out_engine (facelets : string) (maxDepth timeOut : Z)
    (useSeparator buildTables : bool) : Result (option string) :=
  Ok (Some "Error 8").

Definition counting_engine (facelets : string) (maxDepth timeOut : Z)
    (useSeparator buildTables : bool) : Result (option string) :=
  Ok (Some "Error 1").

Definition failing_engine (facelets : string) (maxDepth timeOut : Z)
    (useSeparator buildTables : bool) : Result (option string) :=
  Throw (OtherException "tables unavailable").



(** All the stickers of a layout, face by face. *)
Definition stickers_of (s : CubeState) : list nstring :=
  concat (default [] <$> [U s; R s; F s; D s; L s; B s]).

(** [needle] occurs somewhere inside [hay]. *)
Fixpoint contains (needle hay : string) : bool :=
  String.prefix needle hay ||
  match hay with
  | EmptyString => false
  | String _ hay' => contains needle hay'
  end.

Definition position_names : list string :=
  ((fun e => e.2) <$> edgePositions) ++ ((fun c => c.2) <$> cornerPositions).

Section KeyLevel.

Variable compareTo : string -> string -> comparison.

(** The sorted combination [ValidateState] files a position under. *)
Definition key (x : list nstring * string) : string :=
  sorted_concat compareTo x.1.

Definition positions_of (k : string) (l : list (list nstring * string))
  : list string :=
  snd <$> filter (fun x => key x = k) l.

(** A valid combination written with dashes: ["GW"] as ["G-W"]. *)
Definition dashed (k : string) : string :=
  Join "-" ((fun c => String c EmptyString) <$> String.list_ascii_of_string k).

Definition missing_of (valid : list string) (l : list (list nstring * string))
  : list string :=
  dashed <$> filter (fun k => length (positions_of k l) = 0%nat) valid.

Definition duplicate_of (valid : list string) (l : list (list nstring * string))
  : list string :=
  (fun k => dashed k +:+ " at " +:+ Join ", " (positions_of k l))
  <$> filter (fun k => (1 < length (positions_of k l))%nat) valid.

Definition invalid_of (valid : list string) (l : list (list nstring * string))
  : list string :=
  (fun x => stickers_name x.1 +:+ " at " +:+ x.2)
  <$> filter (fun x => key x ∉ valid) l.

(** The report [ValidateState] builds, written as comprehensions. *)
Definition report (s : CubeState) : ValidationResult :=
  mkValidationResult
    (missing_of validEdges (edge_stickers s))
    (duplicate_of validEdges (edge_stickers s))
    (invalid_of validEdges (edge_stickers s))
    (missing_of validCorners (corner_stickers s))
    (duplicate_of validCorners (corner_stickers s))
    (invalid_of validCorners (corner_stickers s)).

(** One pass of a counting loop, on the stickers already read. *)
Definition tally (valid : list string) (st : Counts * list string)
    (x : list nstring * string) : Counts * list string :=
  (record_position st.1 (key x) x.2,
   if bool_decide (key x ∈ valid) then st.2
   else st.2 ++ [stickers_name x.1 +:+ " at " +:+ x.2]).

End KeyLevel.

End Layout.

(** ** Rubiksolver.Controllers *)

Module Controllers.
Import Models Services.

(** The two action results [CubeController.Solve] produces. *)
Inductive ActionResult : Type :=
| BadRequest (body : SolveResponse)
| OkResult (body : SolveResponse).

Section CubeController.

Variable compareTo : string -> string -> comparison.
Variable StartsWith : string -> string -> bool.
Variable solution : string -> Z -> Z -> bool -> bool -> Result (option string).
Variable ElapsedMilliseconds : Z.

(** [CubeController.Solve(request)]; [None] is a request whose [State] is
    null. *)
Definition Solve_action (State : option CubeState) : Result ActionResult :=
  match State with
  | None =>
      Ok (BadRequest (mkSolveResponse [] 0 0 (Some "State is required")))
  | Some state =>
      match (Solve compareTo StartsWith solution ElapsedMilliseconds state).2 with
      | Ok response => Ok (OkResult response)
      | Throw ex => Throw ex
      end
  end.

End CubeController.

End Controllers.

(** ** Scripts/rubiksCube.ts: the sticker state of the page *)

Module RubiksCube.

(** A JavaScript array of stickers.  [None] is [undefined], which is also
    what reading a hole or an index past the end gives. *)
Abbreviation stickers := (list nstring).

(** [a[i]]. *)
Definition read (a : stickers) (i : nat) : nstring := mjoin (a !! i).

(** [a[i] = v]: a write past the end grows the array. *)
Definition write (a : stickers) (i : nat) (v : nstring) : stickers :=
  if (i <? length a)%nat then <[i := v]> a
  else a ++ replicate (i - length a) None ++ [v].

(** The TypeScript [CubeState]: six sticker arrays. *)
Record CubeState : Type := mkState {
  U : stickers;
  D : stickers;
  F : stickers;
  B : stickers;
  R : stickers;
  L : stickers
}.

Definition createInitialState : CubeState :=
  mkState (replicate 9 (Some "W")) (replicate 9 (Some "Y"))
          (replicate 9 (Some "G")) (replicate 9 (Some "B"))
          (replicate 9 (Some "R")) (replicate 9 (Some "O")).

(** [state[face]]; [None] when [face] names no sticker array, where the
    source goes on to throw a [TypeError]. *)
Definition get_face (state : CubeState) (face : string) : option stickers :=
  if String.eqb face "U" then Some (U state)
  else if String.eqb face "D" then Some (D state)
  else if String.eqb face "F" then Some (F state)
  else if String.eqb face "B" then Some (B state)
  else if String.eqb face "R" then Some (R state)
  else if String.eqb face "L" then Some (L state)
  else None.

(** [state[face] = a] for one of the six face names. *)
Definition set_face (state : CubeState) (face : string) (a : stickers) : CubeState :=
  if String.eqb face "U" then mkState a (D state) (F state) (B state) (R state) (L state)
  else if String.eqb face "D" then mkState (U state) a (F state) (B state) (R state) (L state)
  else if String.eqb face "F" then mkState (U state) (D state) a (B state) (R state) (L state)
  else if String.eqb face "B" then mkState (U state) (D state) (F state) a (R state) (L state)
  else if String.eqb face "R" then mkState (U state) (D state) (F state) (B state) a (L state)
  else if String.eqb face "L" then mkState (U state) (D state) (F state) (B state) (R state) a
  else state.

(** [[state.X[i], state.X[j], state.X[k]]] as a value. *)
Definition strip (state : CubeState) (face : string) (idx : nat * nat * nat)
  : list nstring :=
  let a := default [] (get_face state face) in
  let '(i, j, k) := idx in [read a i; read a j; read a k].

(** [[state.X[i], state.X[j], state.X[k]] = values]: three writes, in
    this order. *)
Definition put (state : CubeState) (face : string) (idx : nat * nat * nat)
    (values : list nstring) : CubeState :=
  let a := default [] (get_face state face) in
  let '(i, j, k) := idx in
  set_face state face
    (write (write (write a i (read values 0)) j (read values 1)) k (read values 2)).

(** [temp = a; a = b; b = c; c = d; d = temp] on four strips of three
    stickers. *)
Definition cycle (state : CubeState)
    (a b c d : string * (nat * nat * nat)) : CubeState :=
  let temp := strip state a.1 a.2 in
  let state := put state a.1 a.2 (strip state b.1 b.2) in
  let state := put state b.1 b.2 (strip state c.1 c.2) in
  let state := put state c.1 c.2 (strip state d.1 d.2) in
  put state d.1 d.2 temp.

(** The "adjacent sticker cycles" of [rotateFace]: the [switch]. *)
Definition adjacent_cycle (face : string) (counterClockwise : bool)
    (state : CubeState) : CubeState :=
  if String.eqb face "U" then
    if counterClockwise
    then cycle state ("F", (0, 1, 2)) ("L", (0, 1, 2)) ("B", (0, 1, 2)) ("R", (0, 1, 2))
    else cycle state ("F", (0, 1, 2)) ("R", (0, 1, 2)) ("B", (0, 1, 2)) ("L", (0, 1, 2))
  else if String.eqb face "D" then
    if counterClockwise
    then cycle state ("F", (6, 7, 8)) ("R", (6, 7, 8)) ("B", (6, 7, 8)) ("L", (6, 7, 8))
    else cycle state ("F", (6, 7, 8)) ("L", (6, 7, 8)) ("B", (6, 7, 8)) ("R", (6, 7, 8))
  else if String.eqb face "F" then
    if counterClockwise
    then cycle state ("U", (6, 7, 8)) ("R", (0, 3, 6)) ("D", (2, 1, 0)) ("L", (8, 5, 2))
    else cycle state ("U", (6, 7, 8)) ("L", (8, 5, 2)) ("D", (2, 1, 0)) ("R", (0, 3, 6))
  else if String.eqb face "B" then
    if counterClockwise
    then cycle state ("U", (2, 1, 0)) ("L", (0, 3, 6)) ("D", (6, 7, 8)) ("R", (8, 5, 2))
    else cycle state ("U", (2, 1, 0)) ("R", (8, 5, 2)) ("D", (6, 7, 8)) ("L", (0, 3, 6))
  else if String.eqb face "R" then
    if counterClockwise
    then cycle state ("U", (2, 5, 8)) ("B", (6, 3, 0)) ("D", (2, 5, 8)) ("F", (2, 5, 8))
    else cycle state ("U", (2, 5, 8)) ("F", (2, 5, 8)) ("D", (2, 5, 8)) ("B", (6, 3, 0))
  else if String.eqb face "L" then
    if counterClockwise
    then cycle state ("U", (0, 3, 6)) ("F", (0, 3, 6)) ("D", (0, 3, 6)) ("B", (8, 5, 2))
    else cycle state ("U", (0, 3, 6)) ("B", (8, 5, 2)) ("D", (0, 3, 6)) ("F", (0, 3, 6))
  else state.

(** [rotateFace(face, counterClockwise)]; [None] is the [TypeError] of
    [state[face].slice()] for a [face] that names no array, thrown before
    anything is changed. *)
Definition rotateFace (face : string) (counterClockwise : bool)
    (state : CubeState) : option CubeState :=
  f ← get_face state face;
  let turned :=
    if counterClockwise
    then [read f 2; read f 5; read f 8; read f 1; read f 4; read f 7;
          read f 0; read f 3; read f 6]
    else [read f 6; read f 3; read f 0; read f 7; read f 4; read f 1;
          read f 8; read f 5; read f 2] in
  Some (adjacent_cycle face counterClockwise (set_face state face turned)).

(** [s.replace(c, "")] for a one-character pattern: the first occurrence
    goes. *)
Fixpoint remove_first (c : ascii) (s : string) : string :=
  match s with
  | EmptyString => EmptyString
  | String x s' => if Ascii.eqb x c then s' else String x (remove_first c s')
  end.

(** [s.includes(c)] for a one-character pattern. *)
Fixpoint includes (c : ascii) (s : string) : bool :=
  match s with
  | EmptyString => false
  | String x s' => Ascii.eqb x c || includes c s'
  end.

(** [updateState(move)]. *)
Definition updateState (move : string) (state : CubeState) : option CubeState :=
  let face := remove_first "2" (remove_first "'" move) in
  let counterClockwise := includes "'" move in
  let double := includes "2" move in
  state ← rotateFace face counterClockwise state;
  if double then rotateFace face counterClockwise state else Some state.

(** [isSolved()]: every sticker of a face equals the face's center. *)
Definition isSolved (state : CubeState) : bool :=
  forallb (fun a => forallb (fun sticker => bool_decide (sticker = read a 4)) a)
          [U state; D state; F state; B state; R state; L state].

(** The [inverseMoves] table. *)
Definition inverseMoves : list (string * string) :=
  [("U", "U'"); ("U'", "U"); ("U2", "U2");
   ("D", "D'"); ("D'", "D"); ("D2", "D2");
   ("R", "R'"); ("R'", "R"); ("R2", "R2");
   ("L", "L'"); ("L'", "L"); ("L2", "L2");
   ("F", "F'"); ("F'", "F"); ("F2", "F2");
   ("B", "B'"); ("B'", "B"); ("B2", "B2")].

(** A sequence of [rotate] calls, as far as the sticker state goes. *)
Fixpoint updateStates (moves : list string) (state : CubeState) : option CubeState :=
  match moves with
  | [] => Some state
  | move :: moves' => state' ← updateState move state; updateStates moves' state'
  end.

(** The state as the server receives it: [JSON.stringify] writes the six
    arrays, [undefined] entries as [null], and the request's [State] is
    read back from them. *)
Definition wire (state : CubeState) : Models.CubeState :=
  Models.mkCubeState (Some (U state)) (Some (D state)) (Some (F state))
                     (Some (B state)) (Some (R state)) (Some (L state)).

(** Every face has nine stickers. *)
Definition nine_each (state : CubeState) : Prop :=
  length (U state) = 9%nat ∧ length (D state) = 9%nat ∧ length (F state) = 9%nat ∧
  length (B state) = 9%nat ∧ length (R state) = 9%nat ∧ length (L state) = 9%nat.

(** The six center stickers. *)
Definition centers (state : CubeState) : list nstring :=
  [read (U state) 4; read (D state) 4; read (F state) 4;
   read (B state) 4; read (R state) 4; read (L state) 4].

(** The scramble of the page.  [random n] is the value of the [n]-th
    [Math.floor(Math.random() * length)] of the run, taken below [length]. *)
Section Scramble.

Variable random : nat -> nat.

Definition faces : list string := ["U"; "D"; "L"; "R"; "F"; "B"].
Definition modifiers : list string := [""; "'"; "2"].

Definition oppositeFaces (face : string) : option string :=
  if String.eqb face "U" then Some "D"
  else if String.eqb face "D" then Some "U"
  else if String.eqb face "R" then Some "L"
  else if String.eqb face "L" then Some "R"
  else if String.eqb face "F" then Some "B"
  else if String.eqb face "B" then Some "F"
  else None.

(** [list[Math.floor(Math.random() * list.length)]], rendered as in
    [face + modifier]. *)
Definition pick (n : nat) (l : list string) : string :=
  default "undefined" (l !! (random n mod length l)%nat).

(** The faces the [i]-th move may turn. *)
Definition availableFaces (lastFace secondLastFace : option string) : list string :=
  let available := filter (fun f => Some f ≠ lastFace) faces in
  match lastFace, secondLastFace with
  | Some last, Some _ =>
      if bool_decide (oppositeFaces last = secondLastFace)
      then filter (fun f => Some f ≠ oppositeFaces last) available
      else available
  | _, _ => available
  end.

(** [count] more passes of the loop from pass [i]: the faces drawn, each
    with its move. *)
Fixpoint scramble_from (count i : nat) (lastFace secondLastFace : option string)
  : list (string * string) :=
  match count with
  | O => []
  | S count' =>
      let face := pick (2 * i) (availableFaces lastFace secondLastFace) in
      let modifier := pick (2 * i + 1) modifiers in
      (face, face +:+ modifier)
      :: scramble_from count' (S i) (Some face) lastFace
  end.

Definition scrambleMoves : list (string * string) := scramble_from 20 0 None None.

End Scramble.

End RubiksCube.

(** ** Scripts: the page's export of its state *)

Module App.

(** The [colorToFace] record of [exportState]: its own properties. *)
Definition colorToFace : list (string * string) :=
  [("W", "U"); ("R", "R"); ("G", "F"); ("Y", "D"); ("O", "L"); ("B", "B")].

Section ExportState.

(** What [join] writes for [colorToFace[key]] when [key] is none of the
    six own properties: the empty string where the lookup gives
    [undefined], the text of an inherited member otherwise. *)
Variable inherited : string → string.

(** The sticker as [getState] returns it, used as a property key:
    [JSON.stringify] turns [undefined] into [null]. *)
Definition key_of (c : nstring) : string := default "null" c.

(** One entry of [state.X.map(c => colorToFace[c])], as [join] writes
    it. *)
Definition face_of (c : nstring) : string :=
  match list_find (fun p => p.1 = key_of c) colorToFace with
  | Some (_, (_, face)) => face
  | None => inherited (key_of c)
  end.

(** The [kociembaString] of [exportState]. *)
Definition kociembaString (state : RubiksCube.CubeState) : string :=
  String.concat ""
    (face_of <$> (RubiksCube.U state ++ RubiksCube.R state ++ RubiksCube.F state ++
                  RubiksCube.D state ++ RubiksCube.L state ++ RubiksCube.B state)).

End ExportState.

End App.

(** ** More vocabulary *)

Module Lettering.
Import Models Layout Kociemba.

(** The face letter [ToKociembaString] writes for a color. *)
Definition letter_of (c : Color) : ascii :=
  match c with
  | White => "U" | Red => "R" | Green => "F"
  | Yellow => "D" | Orange => "L" | Blue => "B"
  end%char.

(** The member of [CubeColor] that letter names. *)
Definition cube_color (c : Color) : CubeColor.t :=
  match c with
  | White => CubeColor.U | Red => CubeColor.R | Green => CubeColor.F
  | Yellow => CubeColor.D | Orange => CubeColor.L | Blue => CubeColor.B
  end.

(** The faces in the order [ToKociembaString] walks them. *)
Definition all_faces (s : CubeState) : list array :=
  [U s; R s; F s; D s; L s; B s].

(** The six center stickers of a layout. *)
Definition centers (s : CubeState) : list nstring :=
  (fun face => facelet s face 4) <$> faces.

(** How many stickers of a list show the color [c]. *)
Definition count_color (c : Color) (l : list nstring) : nat :=
  length (filter (fun x => x = paint c) l).

(** Two lists of sticker combinations hold the same pieces: each
    combination of the first is, up to the order of its stickers, a
    combination of the second, one for one. *)
Inductive same_pieces : list (list nstring) -> list (list nstring) -> Prop :=
| same_pieces_nil : same_pieces [] []
| same_pieces_cons (x y : list nstring) (l l2 : list (list nstring)) (n : nat) :
    l2 !! n = Some y → x ≡ₚ y → same_pieces l (delete n l2) →
    same_pieces (x :: l) l2.

(** The solved layout with the edge at UF flipped. *)
Definition flipped_edge_layout : CubeState :=
  mkCubeState (Some (<[7%nat := paint Green]> (replicate 9 (paint White))))
              (Some (replicate 9 (paint Yellow)))
              (Some (<[1%nat := paint White]> (replicate 9 (paint Green))))
              (Some (replicate 9 (paint Blue)))
              (Some (replicate 9 (paint Red)))
              (Some (replicate 9 (paint Orange))).

(** The letters of a list of colors, as a string. *)
Definition letters (cs : list Color) : string :=
  String.string_of_list_ascii (letter_of <$> cs).

(** The face letters. *)
Definition face_letters : list ascii := ["U"; "R"; "F"; "D"; "L"; "B"]%char.

(** A layout of six faces of colors. *)
Definition painted (cu cr cf cd cl cb : list Color) : CubeState :=
  mkCubeState (Some (paint <$> cu)) (Some (paint <$> cd)) (Some (paint <$> cf))
              (Some (paint <$> cb)) (Some (paint <$> cr)) (Some (paint <$> cl)).

(** A layout whose every face is filled with its home color. *)
Definition filled (nu nd nf nb nr nl : nat) : CubeState :=
  mkCubeState (Some (replicate nu (paint White))) (Some (replicate nd (paint Yellow)))
              (Some (replicate nf (paint Green))) (Some (replicate nb (paint Blue)))
              (Some (replicate nr (paint Red))) (Some (replicate nl (paint Orange))).

(** The character a color's token consists of. *)
Definition initial (c : Color) : ascii :=
  match c with
  | White => "W" | Yellow => "Y" | Green => "G"
  | Blue => "B" | Red => "R" | Orange => "O"
  end%char.

(** The tokens of a list of colors, written one after the other. *)
Definition initials (cs : list Color) : string :=
  String.string_of_list_ascii (initial <$> cs).

(** The layout cut down to the first nine stickers of every face. *)
Definition first_nine (s : CubeState) : CubeState :=
  mkCubeState (take 9 <$> U s) (take 9 <$> D s) (take 9 <$> F s)
              (take 9 <$> B s) (take 9 <$> R s) (take 9 <$> L s).

(** A list of pieces no two of which have the same colors. *)
Fixpoint distinct_pieces (pieces : list (list Color)) : Prop :=
  match pieces with
  | [] => True
  | q :: pieces' => Forall (fun p => ¬ p ≡ₚ q) pieces' ∧ distinct_pieces pieces'
  end.

(** The codes [GetErrorMessage] has a message for. *)
Definition error_codes : list string :=
  ["Error 1"; "Error 2"; "Error 3"; "Error 4";
   "Error 5"; "Error 6"; "Error 7"; "Error 8"].

(** A move token as [ParseSolution] leaves it: not empty, free of
    spaces, and with no white space at either end. *)
Definition clean (m : string) : Prop :=
  m ≠ "" ∧ Forall (fun c => c ≠ " "%char) (String.list_ascii_of_string m) ∧
  Services.Trim m = m.

(** Nothing to trim in front. *)
Definition solid_start (s : string) : Prop :=
  match s with
  | EmptyString => True
  | String c _ => Services.IsWhiteSpace c = false
  end.

(** One of the six parts of the message. *)
Definition message_part (label sep : string) (items : list string) : list string :=
  if (0 <? length items)%nat then [label +:+ Join sep items] else [].

(** A list of faces in which each face differs from the one before it,
    and from the one before that when these two are opposite; [last] and
    [second] are the two faces before the list. *)
Fixpoint well_spaced (last second : option string) (fs : list string) : Prop :=
  match fs with
  | [] => True
  | f :: fs' =>
      f ∈ RubiksCube.faces ∧ Some f ≠ last ∧
      (∀ l, last = Some l → is_Some second →
            RubiksCube.oppositeFaces l = second → Some f ≠ second) ∧
      well_spaced (Some f) last fs'
  end.

(** Three moves, and the state of the page after playing them from the
    initial state. *)
Definition sample_moves : list string := ["R"; "U'"; "F2"].

Definition sample_state : RubiksCube.CubeState :=
  Eval vm_compute in
    default RubiksCube.createInitialState
      (RubiksCube.updateStates sample_moves RubiksCube.createInitialState).

(** The state of the page after a clockwise quarter turn of the Up face
    from the initial state. *)
Definition up_turned_state : RubiksCube.CubeState :=
  Eval vm_compute in
    default RubiksCube.createInitialState
      (RubiksCube.updateState "U" RubiksCube.createInitialState).

(** The Kociemba string of [up_turned_layout]. *)
Definition up_turned_string : string :=
  "UUUUUUUUUBBBRRRRRRRRRFFFFFFDDDDDDDDDFFFLLLLLLLLLBBBBBB".

(** An [inherited] lookup for a page whose [colorToFace] inherits
    nothing that [join] would write. *)
Definition nothing_inherited (key : string) : string := "".

End Lettering.

(** ** The search engine, as the specification describes it *)

Module SearchRunTime.
Import Lettering.

(** Modelled from the spec: the outcomes of a search.  The engine
    itself lives outside these sources.  A search either finds a move
    list, or reports DepthExceeded, or reports TimedOut. *)
Inductive Outcome : Type :=
| Found (moves : list string)
| DepthExceeded
| TimedOut.

(** Modelled from the spec: the 18 face turns a solution is written in. *)
Definition face_turns : list string :=
  ["U"; "U2"; "U'"; "R"; "R2"; "R'"; "F"; "F2"; "F'";
   "D"; "D2"; "D'"; "L"; "L2"; "L'"; "B"; "B2"; "B'"].

(** Modelled from the spec: how the engine hands an outcome to [Solve].
    A move list is written with single spaces; DepthExceeded and TimedOut
    are the codes that [GetErrorMessage] reads as "no solution within max
    depth" and "timeout". *)
Definition write (o : Outcome) : string :=
  match o with
  | Found moves => Join " " moves
  | DepthExceeded => "Error 7"
  | TimedOut => "Error 8"
  end.

(** Modelled from the spec: a search engine.  [solves facelets moves]
    says that the moves, replayed on the cube, give the solved cube;
    [duration facelets maxDepth] is the time in milliseconds the search
    takes to come to its end when nothing stops it. *)
Record Engine : Type := mkEngine {
  solves : string → list string → Prop;
  duration : string → Z → Z;
  search : string → Z → Z → Outcome
}.

(** Modelled from the spec: a solution of at most [maxDepth] moves
    exists. *)
Definition within (E : Engine) (facelets : string) (maxDepth : Z) : Prop :=
  ∃ moves, solves E facelets moves ∧ (Z.of_nat (length moves) ≤ maxDepth)%Z.

(** Modelled from the spec: the termination contract.  [maxDepth] is a
    hard cap on the moves of a solution; the search reports TimedOut when
    the time budget runs out before it ends, DepthExceeded when it ends
    and no solution exists within [maxDepth], and a solution
    otherwise. *)
Record Contract (E : Engine) : Prop := mkContract {
  timed_out : ∀ facelets maxDepth timeOut,
    (timeOut < duration E facelets maxDepth)%Z →
    search E facelets maxDepth timeOut = TimedOut;
  depth_exceeded : ∀ facelets maxDepth timeOut,
    (duration E facelets maxDepth ≤ timeOut)%Z →
    ¬ within E facelets maxDepth →
    search E facelets maxDepth timeOut = DepthExceeded;
  found : ∀ facelets maxDepth timeOut,
    (duration E facelets maxDepth ≤ timeOut)%Z →
    within E facelets maxDepth →
    ∃ moves, search E facelets maxDepth timeOut = Found moves;
  capped : ∀ facelets maxDepth timeOut moves,
    search E facelets maxDepth timeOut = Found moves →
    solves E facelets moves ∧ (Z.of_nat (length moves) ≤ maxDepth)%Z ∧
    Forall (fun move => move ∈ face_turns) moves
}.

(** Modelled from the spec: the call [SearchRunTime.solution] on an
    engine that gets as far as the search; it returns what the search
    wrote. *)
Definition solution (E : Engine) (facelets : string) (maxDepth timeOut : Z)
    (useSeparator buildTables : bool) : Result (option string) :=
  Ok (Some (write (search E facelets maxDepth timeOut))).

(** A stand-in engine.  It knows one cube, a clockwise quarter turn of
    the Up face away from solved, and its solution; on one cube it needs
    20 seconds, on every other cube 5 milliseconds. *)
Definition slow_facelets : string :=
  "FFFUUUBDDLFDLRRBRRDFFDFFLLLUUUDDBDDBUBRLLRLLFRRRUBBUBB".

Definition sample_duration (facelets : string) : Z :=
  if String.eqb facelets slow_facelets then 20000%Z else 5%Z.

Definition sample : Engine :=
  mkEngine
    (fun facelets moves => facelets = up_turned_string ∧ moves = ["U'"])
    (fun facelets maxDepth => sample_duration facelets)
    (fun facelets maxDepth timeOut =>
       if (timeOut <? sample_duration facelets)%Z then TimedOut
       else if String.eqb facelets up_turned_string && (1 <=? maxDepth)%Z
            then Found ["U'"]
            else DepthExceeded).

(** What [Solve] makes of each outcome of the search. *)
Definition response_to (ElapsedMilliseconds : Z) (o : Outcome) : Models.SolveResponse :=
  match o with
  | Found moves =>
      Models.mkSolveResponse moves (Z.of_nat (length moves)) ElapsedMilliseconds None
  | DepthExceeded =>
      Services.failure ElapsedMilliseconds "No solution found within max depth"
  | TimedOut =>
      Services.failure ElapsedMilliseconds "Timeout - no solution found within time limit"
  end.

End SearchRunTime.

(** * Properties *)

Import Models Services Layout.

(** ** Loops that cannot throw *)

Lemma foreach_pure {A S : Type} (body : S -> A -> Result S) (step : S -> A -> S)
    (l : list A) :
  (∀ a st, a ∈ l → body st a = Ok (step st a)) →
  ∀ st, foreach body l st = Ok (foldl step st l).
Proof.
  induction l as [|a l IH]; intros Hbody st; simpl; [done|].
  rewrite Hbody by apply list_elem_of_here. simpl.
  apply IH. intros a' st' Ha'. apply Hbody. by apply list_elem_of_further.
Qed.

Lemma foreach_ext {A S : Type} (body body' : S -> A -> Result S) (l : list A) :
  (∀ a st, a ∈ l → body st a = body' st a) →
  ∀ st, foreach body l st = foreach body' l st.
Proof.
  induction l as [|a l IH]; intros Hbody st; simpl; [done|].
  rewrite Hbody by apply list_elem_of_here.
  destruct (body' st a) as [st'|ex]; simpl; [|done].
  apply IH. intros a' st'' Ha'. apply Hbody. by apply list_elem_of_further.
Qed.

Lemma append_assoc (a b c : string) : (a +:+ b) +:+ c = a +:+ (b +:+ c).
Proof.
  induction a as [|x a IH]; [done|].
  change (String x ((a +:+ b) +:+ c) = String x (a +:+ (b +:+ c))).
  by rewrite IH.
Qed.

(** ** Reading a well-formed layout *)

Lemma nine_lookup (a : array) (idx : nat) :
  nine a = true → (idx < 9)%nat → ∃ c, index a idx = Ok c.
Proof.
  destruct a as [l|]; simpl; [|done].
  intros Hlen%Nat.eqb_eq Hidx.
  destruct (lookup_lt_is_Some_2 l idx) as [c Hc]; [lia|].
  exists c. by rewrite Hc.
Qed.

Lemma sticker_facelet (s : CubeState) (face : string) (idx : nat) :
  well_formed s = true → face ∈ faces → (idx < 9)%nat →
  sticker s face idx = Ok (facelet s face idx).
Proof.
  intros Hwf Hface Hidx. unfold facelet.
  cut (∃ c, sticker s face idx = Ok c); [by intros [c ->]|].
  unfold well_formed in Hwf. repeat (apply andb_prop in Hwf as [Hwf ?]).
  unfold faces in Hface. unfold sticker.
  repeat (apply elem_of_cons in Hface as [->|Hface]; [simpl; by apply nine_lookup|]).
  by apply elem_of_nil in Hface.
Qed.

Lemma edgePositions_in_range :
  Forall (fun e : string * nat * string * nat * string =>
            let '(face1, idx1, face2, idx2, _) := e in
            face1 ∈ faces ∧ (idx1 < 9)%nat ∧ face2 ∈ faces ∧ (idx2 < 9)%nat)
         edgePositions.
Proof. by apply (bool_decide_unpack _). Qed.

Lemma cornerPositions_in_range :
  Forall (fun c : string * nat * string * nat * string * nat * string =>
            let '(face1, idx1, face2, idx2, face3, idx3, _) := c in
            face1 ∈ faces ∧ (idx1 < 9)%nat ∧ face2 ∈ faces ∧ (idx2 < 9)%nat ∧
            face3 ∈ faces ∧ (idx3 < 9)%nat)
         cornerPositions.
Proof. by apply (bool_decide_unpack _). Qed.

Section Counting.

Variable compareTo : string -> string -> comparison.

Lemma count_edge_tally (s : CubeState) st e :
  well_formed s = true → e ∈ edgePositions →
  count_edge compareTo s st e = Ok (tally compareTo validEdges st (edge_item s e)).
Proof.
  intros Hwf He.
  pose proof edgePositions_in_range as Hrange.
  rewrite Forall_forall in Hrange. specialize (Hrange e He).
  destruct e as [[[[face1 idx1] face2] idx2] pos], st as [counts invalid].
  destruct Hrange as (Hf1 & Hi1 & Hf2 & Hi2).
  unfold count_edge, tally, key, stickers_name, edge_item.
  rewrite !sticker_facelet by done. simpl.
  rewrite !append_assoc.
  by destruct (bool_decide _).
Qed.

Lemma count_corner_tally (s : CubeState) st c :
  well_formed s = true → c ∈ cornerPositions →
  count_corner compareTo s st c =
  Ok (tally compareTo validCorners st (corner_item s c)).
Proof.
  intros Hwf Hc.
  pose proof cornerPositions_in_range as Hrange.
  rewrite Forall_forall in Hrange. specialize (Hrange c Hc).
  destruct c as [[[[[[face1 idx1] face2] idx2] face3] idx3] pos],
    st as [counts invalid].
  destruct Hrange as (Hf1 & Hi1 & Hf2 & Hi2 & Hf3 & Hi3).
  unfold count_corner, tally, key, stickers_name, corner_item.
  rewrite !sticker_facelet by done. simpl.
  rewrite !append_assoc.
  by destruct (bool_decide _).
Qed.

Lemma record_position_lookup (counts : Counts) (sorted pos k : string) :
  default [] (record_position counts sorted pos !! k) =
  default [] (counts !! k) ++ (if decide (sorted = k) then [pos] else []).
Proof.
  unfold record_position. rewrite lookup_alter.
  destruct (decide (sorted = k)) as [->|Hne].
  - destruct (counts !! k) as [positions|] eqn:Hk; simpl.
    + by rewrite Hk.
    + by rewrite lookup_insert_eq.
  - destruct (counts !! sorted); [|rewrite lookup_insert_ne by done];
      by rewrite app_nil_r.
Qed.

Lemma positions_of_cons k x l :
  positions_of compareTo k (x :: l) =
  (if decide (key compareTo x = k) then [x.2] else []) ++ positions_of compareTo k l.
Proof.
  unfold positions_of. rewrite filter_cons.
  by destruct (decide (key compareTo x = k)).
Qed.

Lemma invalid_of_cons valid x l :
  invalid_of compareTo valid (x :: l) =
  (if bool_decide (key compareTo x ∈ valid) then []
   else [stickers_name x.1 +:+ " at " +:+ x.2]) ++ invalid_of compareTo valid l.
Proof.
  unfold invalid_of. rewrite filter_cons.
  destruct (decide (key compareTo x ∉ valid)) as [Hx|Hx].
  - by rewrite bool_decide_eq_false_2.
  - rewrite bool_decide_eq_true_2; [done|]. by apply dec_stable.
Qed.

(** A counting loop files every position under its sorted combination and
    collects the labels of the combinations that are not valid. *)
Lemma foldl_tally valid l st :
  (∀ k, default [] ((foldl (tally compareTo valid) st l).1 !! k) =
        default [] (st.1 !! k) ++ positions_of compareTo k l) ∧
  (foldl (tally compareTo valid) st l).2 = st.2 ++ invalid_of compareTo valid l.
Proof.
  revert st. induction l as [|x l IH]; intros st; simpl.
  - split; [intros k|]; by rewrite app_nil_r.
  - destruct (IH (tally compareTo valid st x)) as [IHcounts IHinvalid]. split.
    + intros k. rewrite IHcounts, positions_of_cons. simpl.
      by rewrite record_position_lookup, <-(assoc_L (++)).
    + rewrite IHinvalid, invalid_of_cons. simpl.
      destruct (bool_decide _); [done|]. by rewrite <-(assoc_L (++)).
Qed.

(** The code's way of writing a valid combination agrees with [dashed]. *)
Lemma charAt_dashed2 (k : string) :
  String.length k = 2%nat →
  ∃ a b, charAt k 0 = Ok a ∧ charAt k 1 = Ok b ∧ a +:+ "-" +:+ b = dashed k.
Proof.
  destruct k as [|a [|b [|? ?]]]; try done. intros _.
  by exists (String a ""), (String b "").
Qed.

Lemma charAt_dashed3 (k : string) :
  String.length k = 3%nat →
  ∃ a b c, charAt k 0 = Ok a ∧ charAt k 1 = Ok b ∧ charAt k 2 = Ok c ∧
           a +:+ "-" +:+ b +:+ "-" +:+ c = dashed k.
Proof.
  destruct k as [|a [|b [|c [|? ?]]]]; try done. intros _.
  by exists (String a ""), (String b ""), (String c "").
Qed.

Lemma check_edge_step (counts : Counts) (k : string) st :
  String.length k = 2%nat →
  check_edge counts st k =
  Ok (st.1 ++ (dashed <$>
                 filter (fun k => length (default [] (counts !! k)) = 0%nat) [k]),
      st.2 ++ ((fun k => dashed k +:+ " at " +:+ Join ", " (default [] (counts !! k)))
               <$> filter (fun k => (1 < length (default [] (counts !! k)))%nat) [k])).
Proof.
  intros Hk. destruct st as [missing duplicate].
  destruct (charAt_dashed2 k Hk) as (a & b & Ha & Hb & Hab).
  unfold check_edge. rewrite Ha, Hb, !filter_cons, !filter_nil. simpl.
  destruct (Nat.eqb_spec (length (default [] (counts !! k))) 0) as [H0|H0];
    [|destruct (Nat.ltb_spec 1 (length (default [] (counts !! k)))) as [H1|H1]].
  - rewrite decide_True, decide_False by lia. simpl. by rewrite Hab, app_nil_r.
  - rewrite decide_False, decide_True by lia. simpl.
    by rewrite <-Hab, !append_assoc, app_nil_r.
  - rewrite !decide_False by lia. simpl. by rewrite !app_nil_r.
Qed.

Lemma check_corner_step (counts : Counts) (k : string) st :
  String.length k = 3%nat →
  check_corner counts st k =
  Ok (st.1 ++ (dashed <$>
                 filter (fun k => length (default [] (counts !! k)) = 0%nat) [k]),
      st.2 ++ ((fun k => dashed k +:+ " at " +:+ Join ", " (default [] (counts !! k)))
               <$> filter (fun k => (1 < length (default [] (counts !! k)))%nat) [k])).
Proof.
  intros Hk. destruct st as [missing duplicate].
  destruct (charAt_dashed3 k Hk) as (a & b & c & Ha & Hb & Hc & Habc).
  unfold check_corner. rewrite Ha, Hb, Hc, !filter_cons, !filter_nil. simpl.
  destruct (Nat.eqb_spec (length (default [] (counts !! k))) 0) as [H0|H0];
    [|destruct (Nat.ltb_spec 1 (length (default [] (counts !! k)))) as [H1|H1]].
  - rewrite decide_True, decide_False by lia. simpl. by rewrite Habc, app_nil_r.
  - rewrite decide_False, decide_True by lia. simpl.
    by rewrite <-Habc, !append_assoc, app_nil_r.
  - rewrite !decide_False by lia. simpl. by rewrite !app_nil_r.
Qed.

(** A checking loop whose steps behave like [step_spec] collects the
    missing and the duplicate combinations of the whole list. *)
Lemma check_loop (body : list string * list string -> string ->
                         Result (list string * list string))
    (counts : Counts) (valid : list string) st :
  (∀ k st, k ∈ valid →
     body st k =
     Ok (st.1 ++ (dashed <$>
                    filter (fun k => length (default [] (counts !! k)) = 0%nat) [k]),
         st.2 ++ ((fun k => dashed k +:+ " at " +:+
                            Join ", " (default [] (counts !! k)))
                  <$> filter (fun k => (1 < length (default [] (counts !! k)))%nat)
                        [k]))) →
  foreach body valid st =
  Ok (st.1 ++ (dashed <$>
                 filter (fun k => length (default [] (counts !! k)) = 0%nat) valid),
      st.2 ++ ((fun k => dashed k +:+ " at " +:+ Join ", " (default [] (counts !! k)))
               <$> filter (fun k => (1 < length (default [] (counts !! k)))%nat)
                     valid)).
Proof.
  revert st. induction valid as [|k valid IH]; intros st Hbody; simpl.
  - destruct st. by rewrite !app_nil_r.
  - rewrite Hbody by apply list_elem_of_here. simpl.
    rewrite IH by (intros; apply Hbody; by apply list_elem_of_further). simpl.
    change (k :: valid) with ([k] ++ valid).
    by rewrite !filter_app, !fmap_app, !(assoc_L (++)).
Qed.

(** After a counting loop started from an empty dictionary, the checking
    loop yields the missing and duplicate comprehensions. *)
Lemma check_after_count
    (body : Counts -> list string * list string -> string ->
            Result (list string * list string))
    (valid : list string) (l : list (list nstring * string)) :
  (∀ counts k st, k ∈ valid →
     body counts st k =
     Ok (st.1 ++ (dashed <$>
                    filter (fun k => length (default [] (counts !! k)) = 0%nat) [k]),
         st.2 ++ ((fun k => dashed k +:+ " at " +:+
                            Join ", " (default [] (counts !! k)))
                  <$> filter (fun k => (1 < length (default [] (counts !! k)))%nat)
                        [k]))) →
  foreach (body (foldl (tally compareTo valid) (∅, []) l).1) valid ([], []) =
  Ok (missing_of compareTo valid l, duplicate_of compareTo valid l).
Proof.
  intros Hbody.
  destruct (foldl_tally valid l (∅, [])) as [Hcounts _].
  set (counts := (foldl (tally compareTo valid) (∅, []) l).1) in *.
  assert (∀ k, default [] (counts !! k) = positions_of compareTo k l) as Hk.
  { intros k. rewrite Hcounts. simpl. by rewrite lookup_empty. }
  rewrite (check_loop (body counts) counts) by (intros; by apply Hbody).
  simpl. unfold missing_of, duplicate_of. do 2 f_equal.
  - f_equal. apply list_filter_iff. intros k. by rewrite Hk.
  - rewrite (list_filter_iff _ (fun k => (1 < length (positions_of compareTo k l))%nat))
      by (intros k; by rewrite Hk).
    apply list_fmap_ext. intros _ k _. by rewrite Hk.
Qed.

Lemma validEdges_length : Forall (fun k => String.length k = 2%nat) validEdges.
Proof. by apply (bool_decide_unpack _). Qed.

Lemma validCorners_length : Forall (fun k => String.length k = 3%nat) validCorners.
Proof. by apply (bool_decide_unpack _). Qed.

(** On a well-formed layout [ValidateState] does not throw, and its result
    is the report written as comprehensions. *)
Lemma ValidateState_report (s : CubeState) :
  well_formed s = true →
  ValidateState compareTo s =
  Ok (if HasIssues (report compareTo s) then Some (report compareTo s) else None).
Proof.
  intros Hwf. unfold ValidateState.
  rewrite (foreach_pure (count_edge compareTo s)
             (fun st e => tally compareTo validEdges st (edge_item s e))
             edgePositions)
    by (intros; by apply count_edge_tally).
  rewrite <-(foldl_fmap (tally compareTo validEdges)).
  fold (edge_stickers s).
  pose proof (foldl_tally validEdges (edge_stickers s) (∅, [])) as [_ Hinv_e].
  pose proof (check_after_count check_edge validEdges (edge_stickers s)) as Hchk_e.
  destruct (foldl (tally compareTo validEdges) (∅, []) (edge_stickers s))
    as [edgeCounts invalidEdges].
  cbn [fst snd] in Hinv_e, Hchk_e. cbn [mbind Result_bind].
  rewrite Hchk_e; clear Hchk_e.
  2:{ intros counts k st Hk. apply check_edge_step.
      pose proof validEdges_length as Hlen.
      rewrite Forall_forall in Hlen. by apply Hlen. }
  cbn [mbind Result_bind].
  rewrite (foreach_pure (count_corner compareTo s)
             (fun st c => tally compareTo validCorners st (corner_item s c))
             cornerPositions)
    by (intros; by apply count_corner_tally).
  rewrite <-(foldl_fmap (tally compareTo validCorners)).
  fold (corner_stickers s).
  pose proof (foldl_tally validCorners (corner_stickers s) (∅, [])) as [_ Hinv_c].
  pose proof (check_after_count check_corner validCorners (corner_stickers s))
    as Hchk_c.
  destruct (foldl (tally compareTo validCorners) (∅, []) (corner_stickers s))
    as [cornerCounts invalidCorners].
  cbn [fst snd] in Hinv_c, Hchk_c. cbn [mbind Result_bind].
  rewrite Hchk_c; clear Hchk_c.
  2:{ intros counts k st Hk. apply check_corner_step.
      pose proof validCorners_length as Hlen.
      rewrite Forall_forall in Hlen. by apply Hlen. }
  cbn [mbind Result_bind]. rewrite Hinv_e, Hinv_c. simpl. done.
Qed.

(** ** When the report is empty *)

Lemma HasIssues_false (r : ValidationResult) :
  HasIssues r = false ↔
  MissingEdges r = [] ∧ DuplicateEdges r = [] ∧ InvalidEdges r = [] ∧
  MissingCorners r = [] ∧ DuplicateCorners r = [] ∧ InvalidCorners r = [].
Proof.
  unfold HasIssues. destruct r as [[|? ?] [|? ?] [|? ?] [|? ?] [|? ?] [|? ?]];
    simpl; split; try done; intros (?&?&?&?&?&?); done.
Qed.

Lemma missing_of_nil valid l :
  missing_of compareTo valid l = [] ↔
  ∀ k, k ∈ valid → length (positions_of compareTo k l) ≠ 0%nat.
Proof.
  unfold missing_of. split.
  - intros Hnil%fmap_nil_inv k Hk Hlen.
    by apply (filter_nil_not_elem_of _ _ k Hnil Hlen).
  - intros Hall. induction valid as [|k valid IH]; [done|].
    rewrite filter_cons, decide_False by (apply Hall, list_elem_of_here).
    apply IH. intros k' Hk'. by apply Hall, list_elem_of_further.
Qed.

Lemma duplicate_of_nil valid l :
  duplicate_of compareTo valid l = [] ↔
  ∀ k, k ∈ valid → (length (positions_of compareTo k l) ≤ 1)%nat.
Proof.
  unfold duplicate_of. split.
  - intros Hnil%fmap_nil_inv k Hk.
    destruct (decide (1 < length (positions_of compareTo k l))%nat) as [Hlen|]; [|lia].
    by destruct (filter_nil_not_elem_of _ _ k Hnil Hlen).
  - intros Hall. induction valid as [|k valid IH]; [done|].
    rewrite filter_cons, decide_False.
    + apply IH. intros k' Hk'. by apply Hall, list_elem_of_further.
    + pose proof (Hall k (list_elem_of_here _ _)). lia.
Qed.

Lemma invalid_of_nil valid l :
  invalid_of compareTo valid l = [] ↔ ∀ x, x ∈ l → key compareTo x ∈ valid.
Proof.
  unfold invalid_of. split.
  - intros Hnil%fmap_nil_inv x Hx.
    destruct (decide (key compareTo x ∈ valid)) as [|Hout]; [done|].
    by destruct (filter_nil_not_elem_of _ _ x Hnil Hout).
  - intros Hall. induction l as [|x l IH]; [done|].
    rewrite filter_cons, decide_False.
    + apply IH. intros x' Hx'. by apply Hall, list_elem_of_further.
    + intros Hout. apply Hout, Hall, list_elem_of_here.
Qed.

Lemma length_positions_of k l :
  length (positions_of compareTo k l) =
  length (filter (fun x => key compareTo x = k) l).
Proof. unfold positions_of. by rewrite length_fmap. Qed.

(** Positions filed under one of several distinct keys are counted once. *)
Lemma length_filter_valid valid l :
  NoDup valid →
  length (filter (fun x => key compareTo x ∈ valid) l) =
  sum_list ((fun k => length (positions_of compareTo k l)) <$> valid).
Proof.
  induction 1 as [|k valid Hk _ IH].
  - induction l as [|x l IHl]; [done|].
    rewrite filter_cons, decide_False; [done|]. apply not_elem_of_nil.
  - rewrite fmap_cons.
    change (sum_list (?n :: ?ns)) with (n + sum_list ns)%nat.
    rewrite <-IH, length_positions_of. clear IH.
    induction l as [|x l IHl]; [done|].
    rewrite !filter_cons.
    destruct (decide (key compareTo x = k)) as [Hx|Hx].
    + rewrite decide_True by (rewrite Hx; apply list_elem_of_here).
      rewrite decide_False by (by rewrite Hx). simpl. by rewrite IHl.
    + destruct (decide (key compareTo x ∈ valid)) as [Hin|Hout].
      * rewrite decide_True by (by apply list_elem_of_further).
        simpl. rewrite IHl. lia.
      * rewrite decide_False; [done|].
        by intros [?|?]%elem_of_cons.
Qed.

(** With as many positions as valid combinations, each valid combination
    filed exactly once leaves no position for anything else. *)
Lemma all_once_all_valid valid l :
  NoDup valid → length valid = length l →
  (∀ k, k ∈ valid → length (positions_of compareTo k l) = 1%nat) →
  ∀ x, x ∈ l → key compareTo x ∈ valid.
Proof.
  intros Hnodup Hlen Honce x Hx.
  destruct (decide (key compareTo x ∈ valid)) as [|Hout]; [done|].
  pose proof (length_filter_lt (fun x => key compareTo x ∈ valid) l x Hx Hout) as Hlt.
  rewrite (length_filter_valid valid l Hnodup) in Hlt.
  rewrite (sum_list_fmap_same 1) in Hlt; [lia|].
  by apply Forall_forall.
Qed.

Lemma report_clean valid l missing duplicate invalid :
  NoDup valid → length valid = length l →
  missing = missing_of compareTo valid l →
  duplicate = duplicate_of compareTo valid l →
  invalid = invalid_of compareTo valid l →
  missing = [] ∧ duplicate = [] ∧ invalid = [] ↔
  ∀ k, k ∈ valid → length (positions_of compareTo k l) = 1%nat.
Proof.
  intros Hnodup Hlen -> -> ->.
  rewrite missing_of_nil, duplicate_of_nil, invalid_of_nil. split.
  - intros (Hmissing & Hduplicate & _) k Hk.
    specialize (Hmissing k Hk). specialize (Hduplicate k Hk). lia.
  - intros Honce. split_and!.
    + intros k Hk. rewrite (Honce k Hk). lia.
    + intros k Hk. rewrite (Honce k Hk). lia.
    + by apply all_once_all_valid.
Qed.

Lemma validEdges_NoDup : NoDup validEdges.
Proof. by apply (bool_decide_unpack _). Qed.

Lemma validCorners_NoDup : NoDup validCorners.
Proof. by apply (bool_decide_unpack _). Qed.

(** [ValidateState] accepts a well-formed layout exactly when every valid
    edge combination and every valid corner combination is filed once. *)
Lemma ValidateState_null (s : CubeState) :
  well_formed s = true →
  ValidateState compareTo s = Ok None ↔
  (∀ k, k ∈ validEdges →
        length (positions_of compareTo k (edge_stickers s)) = 1%nat) ∧
  (∀ k, k ∈ validCorners →
        length (positions_of compareTo k (corner_stickers s)) = 1%nat).
Proof.
  intros Hwf. rewrite (ValidateState_report s Hwf).
  rewrite <-(report_clean validEdges (edge_stickers s) _ _ _
               validEdges_NoDup eq_refl eq_refl eq_refl eq_refl).
  rewrite <-(report_clean validCorners (corner_stickers s) _ _ _
               validCorners_NoDup eq_refl eq_refl eq_refl eq_refl).
  destruct (HasIssues (report compareTo s)) eqn:Hissues.
  - split; [done|]. intros [(?&?&?) (?&?&?)].
    assert (HasIssues (report compareTo s) = false) as Hclean; [|congruence].
    by apply HasIssues_false.
  - split; [intros _|done].
    apply HasIssues_false in Hissues as (?&?&?&?&?&?). done.
Qed.

End Counting.

(** ** From sorted combinations to pieces *)

Section Pieces.

Variable compareTo : string -> string -> comparison.
Hypothesis compareTo_colors : alphabetical compareTo.

Lemma Compare_recognized (x y : nstring) :
  recognized x → recognized y →
  Compare compareTo x y = Compare String.compare x y.
Proof. intros [a ->] [b ->]. simpl. apply compareTo_colors. Qed.

Lemma insert_sorted_ext (cmp cmp' : string -> string -> comparison) x l :
  (∀ y, y ∈ l → Compare cmp x y = Compare cmp' x y) →
  insert_sorted cmp x l = insert_sorted cmp' x l.
Proof.
  induction l as [|y l IH]; intros Hcmp; simpl; [done|].
  rewrite (Hcmp y) by apply list_elem_of_here.
  destruct (Compare cmp' x y); try done.
  f_equal. apply IH. intros y' Hy'. by apply Hcmp, list_elem_of_further.
Qed.

Lemma insert_sorted_elem_of (cmp : string -> string -> comparison) x l z :
  z ∈ insert_sorted cmp x l → z = x ∨ z ∈ l.
Proof.
  induction l as [|y l IH]; simpl.
  - intros ->%list_elem_of_singleton. by left.
  - destruct (Compare cmp x y).
    + intros [->|?]%elem_of_cons; [by left|by right].
    + intros [->|?]%elem_of_cons; [by left|by right].
    + intros [->|Hz]%elem_of_cons; [right; apply list_elem_of_here|].
      destruct (IH Hz) as [->|?]; [by left|right; by apply list_elem_of_further].
Qed.

Lemma OrderBy_elem_of (cmp : string -> string -> comparison) l z :
  z ∈ OrderBy cmp l → z ∈ l.
Proof.
  induction l as [|x l IH]; simpl; [done|].
  intros [->|Hz]%insert_sorted_elem_of; [apply list_elem_of_here|].
  by apply list_elem_of_further, IH.
Qed.

(** The sort only ever compares the stickers it is given. *)
Lemma OrderBy_recognized (l : list nstring) :
  Forall recognized l → OrderBy compareTo l = OrderBy String.compare l.
Proof.
  induction 1 as [|x l Hx Hl IH]; simpl; [done|].
  rewrite IH. apply insert_sorted_ext. intros y Hy%OrderBy_elem_of.
  apply Compare_recognized; [done|].
  rewrite Forall_forall in Hl. by apply Hl.
Qed.

Lemma sorted_concat_recognized (l : list nstring) :
  Forall recognized l →
  sorted_concat compareTo l = sorted_concat String.compare l.
Proof. intros Hl. unfold sorted_concat. by rewrite OrderBy_recognized. Qed.

End Pieces.

Lemma elem_of_colors (c : Color) : c ∈ colors.
Proof. destruct c; by apply (bool_decide_unpack _). Qed.

(** Two stickers sort to a piece's combination exactly when they show the
    piece's two colors. *)
Lemma edge_key_occurs (a b : Color) (p : list Color) :
  p ∈ canonical_edges →
  sorted_concat String.compare [paint a; paint b] = piece_key p ↔
  occurs p [paint a; paint b].
Proof.
  intros Hp.
  assert (forallb (fun a => forallb (fun b => forallb (fun p =>
            Bool.eqb
              (bool_decide
                 (sorted_concat String.compare [paint a; paint b] = piece_key p))
              (bool_decide (occurs p [paint a; paint b])))
            canonical_edges) colors) colors = true) as Hall
    by (vm_compute; reflexivity).
  rewrite forallb_forall in Hall.
  specialize (Hall a (proj1 (list_elem_of_In _ _) (elem_of_colors a))).
  rewrite forallb_forall in Hall.
  specialize (Hall b (proj1 (list_elem_of_In _ _) (elem_of_colors b))).
  rewrite forallb_forall in Hall.
  specialize (Hall p (proj1 (list_elem_of_In _ _) Hp)).
  apply Bool.eqb_prop in Hall.
  by rewrite <-(bool_decide_spec (sorted_concat _ _ = _)), Hall, bool_decide_spec.
Qed.

Lemma corner_key_occurs (a b c : Color) (p : list Color) :
  p ∈ canonical_corners →
  sorted_concat String.compare [paint a; paint b; paint c] = piece_key p ↔
  occurs p [paint a; paint b; paint c].
Proof.
  intros Hp.
  assert (forallb (fun a => forallb (fun b => forallb (fun c => forallb (fun p =>
            Bool.eqb
              (bool_decide
                 (sorted_concat String.compare [paint a; paint b; paint c] =
                  piece_key p))
              (bool_decide (occurs p [paint a; paint b; paint c])))
            canonical_corners) colors) colors) colors = true) as Hall
    by (vm_compute; reflexivity).
  rewrite forallb_forall in Hall.
  specialize (Hall a (proj1 (list_elem_of_In _ _) (elem_of_colors a))).
  rewrite forallb_forall in Hall.
  specialize (Hall b (proj1 (list_elem_of_In _ _) (elem_of_colors b))).
  rewrite forallb_forall in Hall.
  specialize (Hall c (proj1 (list_elem_of_In _ _) (elem_of_colors c))).
  rewrite forallb_forall in Hall.
  specialize (Hall p (proj1 (list_elem_of_In _ _) Hp)).
  apply Bool.eqb_prop in Hall.
  by rewrite <-(bool_decide_spec (sorted_concat _ _ = _)), Hall, bool_decide_spec.
Qed.

Lemma filter_ext_elem_of {A : Type} (P Q : A → Prop)
    `{!∀ x, Decision (P x)} `{!∀ x, Decision (Q x)} (l : list A) :
  (∀ x, x ∈ l → P x ↔ Q x) → filter P l = filter Q l.
Proof.
  induction l as [|x l IH]; intros HPQ; [done|].
  rewrite !filter_cons.
  rewrite IH by (intros; by apply HPQ, list_elem_of_further).
  pose proof (HPQ x (list_elem_of_here _ _)) as Hx.
  destruct (decide (P x)), (decide (Q x)); tauto.
Qed.

Lemma filter_fmap {A B : Type} (f : A → B) (P : B → Prop)
    `{!∀ y, Decision (P y)} (l : list A) :
  filter P (f <$> l) = f <$> filter (fun x => P (f x)) l.
Proof.
  induction l as [|x l IH]; [done|].
  rewrite fmap_cons, !filter_cons, IH. by destruct (decide (P (f x))).
Qed.

Lemma validEdges_pieces : validEdges = piece_key <$> canonical_edges.
Proof. reflexivity. Qed.

Lemma validCorners_pieces : validCorners = piece_key <$> canonical_corners.
Proof. reflexivity. Qed.

Lemma dashed_piece_key (p : list Color) :
  p ∈ canonical_edges ++ canonical_corners → dashed (piece_key p) = piece_name p.
Proof.
  intros Hp.
  assert (Forall (fun p => dashed (piece_key p) = piece_name p)
                 (canonical_edges ++ canonical_corners)) as Hall
    by (by apply (bool_decide_unpack _)).
  rewrite Forall_forall in Hall. by apply Hall.
Qed.

Section Recognized.

Variable compareTo : string -> string -> comparison.
Hypothesis compareTo_colors : alphabetical compareTo.

Variable s : CubeState.
Hypothesis s_recognized : cubies_recognized s.

Lemma edge_stickers_recognized x :
  x ∈ edge_stickers s → ∃ a b, x.1 = [paint a; paint b].
Proof.
  intros Hx. unfold cubies_recognized in s_recognized.
  rewrite Forall_forall in s_recognized.
  pose proof (s_recognized x ltac:(apply elem_of_app; by left)) as Hrec.
  apply list_elem_of_fmap in Hx as ([[[[face1 idx1] face2] idx2] pos] & -> & _).
  simpl in *.
  apply Forall_cons in Hrec as [[a ->] Hrec].
  apply Forall_cons in Hrec as [[b ->] _].
  by exists a, b.
Qed.

Lemma corner_stickers_recognized x :
  x ∈ corner_stickers s → ∃ a b c, x.1 = [paint a; paint b; paint c].
Proof.
  intros Hx. unfold cubies_recognized in s_recognized.
  rewrite Forall_forall in s_recognized.
  pose proof (s_recognized x ltac:(apply elem_of_app; by right)) as Hrec.
  apply list_elem_of_fmap in Hx
      as ([[[[[[face1 idx1] face2] idx2] face3] idx3] pos] & -> & _).
  simpl in *.
  apply Forall_cons in Hrec as [[a ->] Hrec].
  apply Forall_cons in Hrec as [[b ->] Hrec].
  apply Forall_cons in Hrec as [[c ->] _].
  by exists a, b, c.
Qed.

Lemma paint_recognized (cs : list Color) : Forall recognized (paint <$> cs).
Proof. apply Forall_fmap, Forall_forall. intros c _. by exists c. Qed.

Lemma edge_key_piece x p :
  x ∈ edge_stickers s → p ∈ canonical_edges →
  key compareTo x = piece_key p ↔ occurs p x.1.
Proof.
  intros (a & b & Hx)%edge_stickers_recognized Hp. unfold key. rewrite Hx.
  rewrite (sorted_concat_recognized compareTo compareTo_colors)
    by apply (paint_recognized [a; b]).
  by apply edge_key_occurs.
Qed.

Lemma corner_key_piece x p :
  x ∈ corner_stickers s → p ∈ canonical_corners →
  key compareTo x = piece_key p ↔ occurs p x.1.
Proof.
  intros (a & b & c & Hx)%corner_stickers_recognized Hp. unfold key. rewrite Hx.
  rewrite (sorted_concat_recognized compareTo compareTo_colors)
    by apply (paint_recognized [a; b; c]).
  by apply corner_key_occurs.
Qed.

(** What holds of edges and of corners alike. *)
Section Kind.

Variables (valid : list string) (pieces : list (list Color))
          (l : list (list nstring * string)).
Hypothesis valid_pieces : valid = piece_key <$> pieces.
Hypothesis pieces_canonical : pieces ⊆ canonical_edges ++ canonical_corners.
Hypothesis key_piece : ∀ x p, x ∈ l → p ∈ pieces →
  key compareTo x = piece_key p ↔ occurs p x.1.

Lemma positions_of_places p :
  p ∈ pieces → positions_of compareTo (piece_key p) l = places p l.
Proof.
  intros Hp. unfold positions_of, places. f_equal.
  apply filter_ext_elem_of. intros x Hx. by apply key_piece.
Qed.

Lemma key_valid_is_piece x :
  x ∈ l → key compareTo x ∈ valid ↔ is_piece pieces x.1.
Proof.
  intros Hx. unfold is_piece. rewrite valid_pieces, list_elem_of_fmap, Exists_exists.
  split; intros (p & Hkey & Hp); exists p.
  - split; [done|]. by apply key_piece.
  - split; [|done]. by apply key_piece.
Qed.

Lemma missing_of_pieces :
  missing_of compareTo valid l =
  piece_name <$> filter (fun p => occurrences p l = 0%nat) pieces.
Proof.
  unfold missing_of. rewrite valid_pieces, filter_fmap, <-list_fmap_compose.
  rewrite (filter_ext_elem_of _ (fun p => occurrences p l = 0%nat)).
  - apply list_fmap_ext. intros _ p [_ Hp]%list_elem_of_lookup_2%list_elem_of_filter.
    simpl. by apply dashed_piece_key, pieces_canonical.
  - intros p Hp. unfold occurrences. by rewrite positions_of_places.
Qed.

Lemma duplicate_of_pieces :
  duplicate_of compareTo valid l =
  (fun p => piece_name p +:+ " at " +:+ Join ", " (places p l))
  <$> filter (fun p => (1 < occurrences p l)%nat) pieces.
Proof.
  unfold duplicate_of. rewrite valid_pieces, filter_fmap, <-list_fmap_compose.
  rewrite (filter_ext_elem_of _ (fun p => (1 < occurrences p l)%nat)).
  - apply list_fmap_ext. intros _ p [_ Hp]%list_elem_of_lookup_2%list_elem_of_filter.
    simpl. rewrite positions_of_places by done.
    by rewrite dashed_piece_key by by apply pieces_canonical.
  - intros p Hp. unfold occurrences. by rewrite positions_of_places.
Qed.

Lemma invalid_of_pieces :
  invalid_of compareTo valid l =
  (fun x => stickers_name x.1 +:+ " at " +:+ x.2)
  <$> filter (fun x => ¬ is_piece pieces x.1) l.
Proof.
  unfold invalid_of. f_equal. apply filter_ext_elem_of. intros x Hx.
  by rewrite key_valid_is_piece.
Qed.

Lemma once_pieces :
  (∀ k, k ∈ valid → length (positions_of compareTo k l) = 1%nat) ↔
  (∀ p, p ∈ pieces → occurrences p l = 1%nat).
Proof.
  rewrite valid_pieces. split.
  - intros Hvalid p Hp. unfold occurrences. rewrite <-positions_of_places by done.
    apply Hvalid, list_elem_of_fmap. by exists p.
  - intros Hpieces k (p & -> & Hp)%list_elem_of_fmap.
    rewrite positions_of_places by done. by apply Hpieces.
Qed.

End Kind.

End Recognized.

Lemma report_pieces compareTo (s : CubeState) :
  alphabetical compareTo → cubies_recognized s →
  report compareTo s = piece_report s.
Proof.
  intros Hcmp Hrec. unfold report, piece_report.
  pose proof (edge_key_piece compareTo Hcmp s Hrec) as Hedge.
  pose proof (corner_key_piece compareTo Hcmp s Hrec) as Hcorner.
  assert (canonical_edges ⊆ canonical_edges ++ canonical_corners) as Hsub_e
    by (intros p Hp; apply elem_of_app; by left).
  assert (canonical_corners ⊆ canonical_edges ++ canonical_corners) as Hsub_c
    by (intros p Hp; apply elem_of_app; by right).
  f_equal.
  - by apply missing_of_pieces.
  - by apply duplicate_of_pieces.
  - by apply invalid_of_pieces.
  - by apply missing_of_pieces.
  - by apply duplicate_of_pieces.
  - by apply invalid_of_pieces.
Qed.

(** ** The validator on layouts of the six colors *)

(** C1 (as amended).  For a layout of six nine-sticker faces whose edge and
    corner stickers are color tokens, [ValidateState] returns [null]
    exactly when each of the 12 canonical edge pieces occurs at exactly
    one edge position and each of the 8 canonical corner pieces at exactly
    one corner position.  Otherwise it returns the report whose six lists
    are, independently: the pieces that occur nowhere, written by their
    colors alone; the pieces that occur more than once, with the names of
    all positions where they occur; and the positions whose stickers are
    no real piece, with their position name. *)
Theorem ValidateState_pieces compareTo (s : CubeState) :
  alphabetical compareTo → well_formed s = true → cubies_recognized s →
  (ValidateState compareTo s = Ok None ↔
     (∀ p, p ∈ canonical_edges → occurrences p (edge_stickers s) = 1%nat) ∧
     (∀ p, p ∈ canonical_corners → occurrences p (corner_stickers s) = 1%nat)) ∧
  (ValidateState compareTo s ≠ Ok None →
     ValidateState compareTo s = Ok (Some (piece_report s))).
Proof.
  intros Hcmp Hwf Hrec. split.
  - rewrite (ValidateState_null compareTo s Hwf).
    rewrite (once_pieces compareTo validEdges canonical_edges (edge_stickers s)
               validEdges_pieces (edge_key_piece compareTo Hcmp s Hrec)).
    by rewrite (once_pieces compareTo validCorners canonical_corners
                  (corner_stickers s) validCorners_pieces
                  (corner_key_piece compareTo Hcmp s Hrec)).
  - rewrite (ValidateState_report compareTo s Hwf).
    rewrite (report_pieces compareTo s Hcmp Hrec).
    by destruct (HasIssues (piece_report s)).
Qed.

Lemma ordinal_alphabetical : alphabetical String.compare.
Proof. by intros a b. Qed.

Lemma ValidateState_pieces_witness :
  (ValidateState String.compare exchanged_layout = Ok None ↔
     (∀ p, p ∈ canonical_edges →
           occurrences p (edge_stickers exchanged_layout) = 1%nat) ∧
     (∀ p, p ∈ canonical_corners →
           occurrences p (corner_stickers exchanged_layout) = 1%nat)) ∧
  (ValidateState String.compare exchanged_layout ≠ Ok None →
     ValidateState String.compare exchanged_layout =
     Ok (Some (piece_report exchanged_layout))).
Proof.
  apply (ValidateState_pieces String.compare exchanged_layout).
  - exact ordinal_alphabetical.
  - reflexivity.
  - apply (bool_decide_unpack _). vm_compute. reflexivity.
Defined.

(** C1 (as stated) fails on the tags: with the stickers F[1] and R[3] of the
    solved cube exchanged, the report lists the missing edge ["G-W"], and
    no position name occurs in that item. *)
Lemma missing_edge_without_position_name :
  well_formed exchanged_layout = true ∧
  ValidateState String.compare exchanged_layout = Ok (Some exchanged_report) ∧
  MissingEdges exchanged_report = ["G-W"; "G-R"] ∧
  existsb (fun pos => contains pos "G-W") position_names = false.
Proof. by vm_compute. Qed.

(** ** The centers *)

Lemma index_off_center (a a' : array) (idx : nat) :
  face_same_off_center a a' → idx ≠ 4%nat → index a idx = index a' idx.
Proof.
  destruct a as [l|], a' as [l'|]; simpl; try done.
  intros [_ Hsame] Hidx. by rewrite Hsame.
Qed.

Lemma sticker_off_center (s s' : CubeState) (face : string) (idx : nat) :
  same_off_center s s' → idx ≠ 4%nat → sticker s face idx = sticker s' face idx.
Proof.
  intros (HU & HD & HF & HB & HR & HL) Hidx. unfold sticker, GetFace.
  repeat (destruct (String.eqb face _); [simpl; by apply index_off_center|]).
  done.
Qed.

Lemma edgePositions_off_center :
  Forall (fun e : string * nat * string * nat * string =>
            let '(_, idx1, _, idx2, _) := e in idx1 ≠ 4%nat ∧ idx2 ≠ 4%nat)
         edgePositions.
Proof. by apply (bool_decide_unpack _). Qed.

Lemma cornerPositions_off_center :
  Forall (fun c : string * nat * string * nat * string * nat * string =>
            let '(_, idx1, _, idx2, _, idx3, _) := c in
            idx1 ≠ 4%nat ∧ idx2 ≠ 4%nat ∧ idx3 ≠ 4%nat)
         cornerPositions.
Proof. by apply (bool_decide_unpack _). Qed.

Lemma with_centers_same_off_center u d f b r l (s : CubeState) :
  same_off_center s (with_centers u d f b r l s).
Proof.
  assert (∀ (c : nstring) (a : array),
            face_same_off_center a ((fun x => <[4%nat := c]> x) <$> a)) as Hput.
  { intros c [x|]; simpl; [|done]. split; [by rewrite length_insert|].
    intros i Hi. by rewrite list_lookup_insert_ne. }
  unfold same_off_center, with_centers. simpl. split_and!; apply Hput.
Qed.

Lemma ValidateState_off_center compareTo (s s' : CubeState) :
  same_off_center s s' → ValidateState compareTo s = ValidateState compareTo s'.
Proof.
  intros Hsame. unfold ValidateState.
  rewrite (foreach_ext (count_edge compareTo s) (count_edge compareTo s')
             edgePositions).
  2:{ intros e st He. pose proof edgePositions_off_center as Hoff.
      rewrite Forall_forall in Hoff. specialize (Hoff e He).
      destruct e as [[[[face1 idx1] face2] idx2] pos], st as [counts invalid].
      destruct Hoff as [Hidx1 Hidx2]. unfold count_edge.
      by rewrite (sticker_off_center s s' face1 idx1),
                 (sticker_off_center s s' face2 idx2). }
  rewrite (foreach_ext (count_corner compareTo s) (count_corner compareTo s')
             cornerPositions); [done|].
  intros c st Hc. pose proof cornerPositions_off_center as Hoff.
  rewrite Forall_forall in Hoff. specialize (Hoff c Hc).
  destruct c as [[[[[[face1 idx1] face2] idx2] face3] idx3] pos],
    st as [counts invalid].
  destruct Hoff as (Hidx1 & Hidx2 & Hidx3). unfold count_corner.
  by rewrite (sticker_off_center s s' face1 idx1),
             (sticker_off_center s s' face2 idx2),
             (sticker_off_center s s' face3 idx3).
Qed.

(** C9.  [ValidateState] never looks at a center sticker: two layouts that
    differ only at index 4 of their faces get the same result, thrown
    exceptions included, so replacing the six centers of a layout by any
    tokens at all, unrecognized ones and null references included, leaves
    the result as it was. *)
Theorem ValidateState_ignores_centers compareTo (s s' : CubeState) :
  same_off_center s s' →
  ValidateState compareTo s = ValidateState compareTo s' ∧
  ∀ u d f b r l : nstring,
    ValidateState compareTo (with_centers u d f b r l s) = ValidateState compareTo s.
Proof.
  intros Hsame. split; [by apply ValidateState_off_center|].
  intros u d f b r l. symmetry.
  apply ValidateState_off_center, with_centers_same_off_center.
Qed.

Lemma ValidateState_ignores_centers_witness :
  ValidateState String.compare solved_layout =
  ValidateState String.compare odd_centers_layout ∧
  ∀ u d f b r l : nstring,
    ValidateState String.compare (with_centers u d f b r l solved_layout) =
    ValidateState String.compare solved_layout.
Proof.
  apply (ValidateState_ignores_centers String.compare solved_layout
           odd_centers_layout).
  apply with_centers_same_off_center.
Defined.

(** ** The solved state *)

Lemma ValidateState_ordinal compareTo (s : CubeState) :
  alphabetical compareTo → well_formed s = true → cubies_recognized s →
  ValidateState compareTo s = ValidateState String.compare s.
Proof.
  intros Hcmp Hwf Hrec.
  rewrite !ValidateState_report by done.
  by rewrite !report_pieces by (done || by intros a b).
Qed.

Lemma solved_layout_recognized : cubies_recognized solved_layout.
Proof. apply (bool_decide_unpack _). vm_compute. reflexivity. Qed.

Lemma ValidateState_solved compareTo :
  alphabetical compareTo → ValidateState compareTo solved_layout = Ok None.
Proof.
  intros Hcmp.
  rewrite (ValidateState_ordinal compareTo solved_layout Hcmp eq_refl
             solved_layout_recognized).
  vm_compute. reflexivity.
Qed.

Lemma Array_Fill_nine (a : array) (value : string) :
  nine a = true → Array_Fill a value = Ok (Some (replicate 9 (Some value))).
Proof.
  destruct a as [l|]; simpl; [|done]. by intros ->%Nat.eqb_eq.
Qed.

(** C10 (as amended).  A freshly constructed [CubeState], and any state of
    six nine-sticker faces after [Reset], is the canonical solved layout;
    on it [IsSolved] returns true, [ValidateState] returns [null] and
    [ToKociembaString] returns the canonical solved string. *)
Theorem Reset_solved compareTo (s : CubeState) :
  alphabetical compareTo → well_formed s = true →
  new_CubeState = Ok solved_layout ∧
  Reset s = Ok solved_layout ∧
  IsSolved solved_layout = Ok true ∧
  ValidateState compareTo solved_layout = Ok None ∧
  ToKociembaString solved_layout = Ok solved_string.
Proof.
  intros Hcmp Hwf.
  split_and!; [by vm_compute| |by vm_compute|by apply ValidateState_solved
              |by vm_compute].
  unfold well_formed in Hwf. repeat (apply andb_prop in Hwf as [Hwf ?]).
  unfold Reset. by rewrite !Array_Fill_nine by done.
Qed.

Lemma Reset_solved_witness :
  new_CubeState = Ok solved_layout ∧
  Reset exchanged_layout = Ok solved_layout ∧
  IsSolved solved_layout = Ok true ∧
  ValidateState String.compare solved_layout = Ok None ∧
  ToKociembaString solved_layout = Ok solved_string.
Proof.
  apply (Reset_solved String.compare exchanged_layout).
  - exact ordinal_alphabetical.
  - reflexivity.
Defined.

(** C10 (as stated) fails for a state whose Up array is not nine long:
    [Reset] fills the arrays it finds, so after it [IsSolved] holds while
    [ValidateState] throws and [ToKociembaString] is 45 characters long. *)
Lemma Reset_short_state_not_solved :
  Reset short_state = Ok short_state_reset ∧
  IsSolved short_state_reset = Ok true ∧
  ValidateState String.compare short_state_reset = Throw IndexOutOfRangeException ∧
  ToKociembaString short_state_reset =
  Ok "RRRRRRRRRFFFFFFFFFDDDDDDDDDLLLLLLLLLBBBBBBBBB".
Proof. by vm_compute. Qed.

(** ** Solve *)

Section SolveProperties.

Variable compareTo : string -> string -> comparison.
Variable StartsWith : string -> string -> bool.
Variable solution : string -> Z -> Z -> bool -> bool -> Result (option string).
Variable ElapsedMilliseconds : Z.

Local Abbreviation Solve :=
  (Services.Solve compareTo StartsWith solution ElapsedMilliseconds).
Local Abbreviation failure := (Services.failure ElapsedMilliseconds).
Local Abbreviation after_search :=
  (Services.after_search StartsWith ElapsedMilliseconds).

Lemma Solve_invalid (state : CubeState) (v : ValidationResult) :
  ValidateState compareTo state = Ok (Some v) →
  Solve state =
  (mkWorld (failure ("Invalid cube: " +:+ GetDetailedMessage v)) [],
   Ok (failure ("Invalid cube: " +:+ GetDetailedMessage v))).
Proof.
  intros Hv. unfold Services.Solve, Solve_try, try_catch, eval.
  cbn [mbind Action_bind]. by rewrite Hv.
Qed.

Lemma Solve_validation_throws (state : CubeState) (ex : Exception) :
  ValidateState compareTo state = Throw ex →
  Solve state = (mkWorld (failure (Message ex)) [], Ok (failure (Message ex))).
Proof.
  intros Hv. unfold Services.Solve, Solve_try, try_catch, eval.
  cbn [mbind Action_bind]. by rewrite Hv.
Qed.

Lemma Solve_conversion_throws (state : CubeState) (ex : Exception) :
  ValidateState compareTo state = Ok None →
  ToKociembaString state = Throw ex →
  Solve state =
  (mkWorld (failure (Message ex)) [CallToKociembaString],
   Ok (failure (Message ex))).
Proof.
  intros Hv Hk. unfold Services.Solve, Solve_try, try_catch, eval, call.
  cbn [mbind Action_bind]. by rewrite Hv, Hk.
Qed.

Lemma Solve_already_solved (state : CubeState) :
  ValidateState compareTo state = Ok None →
  ToKociembaString state = Ok solved_string →
  Solve state =
  (mkWorld (mkSolveResponse [] 0 ElapsedMilliseconds None) [CallToKociembaString],
   Ok (mkSolveResponse [] 0 ElapsedMilliseconds None)).
Proof.
  intros Hv Hk. unfold Services.Solve, Solve_try, try_catch, eval, call.
  cbn [mbind Action_bind]. by rewrite Hv, Hk.
Qed.

Lemma Solve_searches (state : CubeState) (k : string) :
  ValidateState compareTo state = Ok None →
  ToKociembaString state = Ok k →
  k ≠ solved_string →
  Solve state =
  (mkWorld (after_search (solution k 22 10000 false false)) (search_calls k),
   Ok (after_search (solution k 22 10000 false false))).
Proof.
  intros Hv Hk Hne%String.eqb_neq.
  unfold Services.Solve, Solve_try, try_catch, eval, call, Services.after_search.
  rewrite Hv, Hk. cbv beta iota delta [mbind Action_bind]. rewrite Hne.
  cbv beta iota delta [response calls app].
  destruct (solution k 22 10000 false false) as [[solutionString|]|ex];
    [|done..].
  by destruct (StartsWith solutionString "Error").
Qed.

(** The four ways a call of [Solve] can go. *)
Lemma Solve_cases (state : CubeState) :
  (∃ v, ValidateState compareTo state = Ok (Some v) ∧
        Solve state =
        (mkWorld (failure ("Invalid cube: " +:+ GetDetailedMessage v)) [],
         Ok (failure ("Invalid cube: " +:+ GetDetailedMessage v)))) ∨
  (∃ ex calls, calls ⊆ [CallToKociembaString] ∧
        Solve state = (mkWorld (failure (Message ex)) calls,
                       Ok (failure (Message ex)))) ∨
  (ToKociembaString state = Ok solved_string ∧
   Solve state =
   (mkWorld (mkSolveResponse [] 0 ElapsedMilliseconds None) [CallToKociembaString],
    Ok (mkSolveResponse [] 0 ElapsedMilliseconds None))) ∨
  (∃ k, ValidateState compareTo state = Ok None ∧
        ToKociembaString state = Ok k ∧ k ≠ solved_string ∧
        Solve state =
        (mkWorld (after_search (solution k 22 10000 false false)) (search_calls k),
         Ok (after_search (solution k 22 10000 false false)))).
Proof.
  destruct (ValidateState compareTo state) as [[v|]|ex] eqn:Hv.
  - left. exists v. split; [done|]. by apply Solve_invalid.
  - destruct (ToKociembaString state) as [k|ex] eqn:Hk.
    + destruct (decide (k = solved_string)) as [->|Hne].
      * right; right; left. split; [done|]. by apply Solve_already_solved.
      * right; right; right. exists k. split_and!; try done.
        by apply Solve_searches.
    + right; left. exists ex, [CallToKociembaString]. split; [done|].
      by apply Solve_conversion_throws.
  - right; left. exists ex, []. split; [apply list_subseteq_nil|].
    by apply Solve_validation_throws.
Qed.

Lemma colorToFace_item_Ok (c : nstring) (f : ascii) :
  colorToFace_item c = Ok f → recognized c.
Proof.
  destruct c as [x|]; simpl; [|done].
  destruct (colorToFace !! x) as [f'|] eqn:Hx; [intros _|done].
  unfold colorToFace in Hx.
  repeat (apply lookup_insert_Some in Hx as [[<- _]|[_ Hx]];
          [first [by exists White | by exists Yellow | by exists Green
                 | by exists Blue | by exists Red | by exists Orange]|]).
  by rewrite lookup_empty in Hx.
Qed.

Lemma append_face_Ok (sb sb' : string) (face : array) :
  append_face sb face = Ok sb' → ∀ c, c ∈ default [] face → recognized c.
Proof.
  destruct face as [l|]; simpl; [|done].
  revert sb. induction l as [|x l IH]; intros sb Hok c Hc; simpl in *.
  - by apply elem_of_nil in Hc.
  - destruct (colorToFace_item x) as [f|] eqn:Hx; simpl in Hok; [|done].
    apply elem_of_cons in Hc as [->|Hc].
    + by apply (colorToFace_item_Ok _ f).
    + by apply (IH _ Hok).
Qed.

(** [ToKociembaString] completes only on recognized stickers. *)
Lemma ToKociembaString_Ok (state : CubeState) (k : string) :
  ToKociembaString state = Ok k → ∀ c, c ∈ stickers_of state → recognized c.
Proof.
  unfold ToKociembaString, stickers_of. intros Hk c Hc.
  destruct (append_face "" (U state)) as [sb1|] eqn:H1; simpl in Hk; [|done].
  destruct (append_face sb1 (R state)) as [sb2|] eqn:H2; simpl in Hk; [|done].
  destruct (append_face sb2 (F state)) as [sb3|] eqn:H3; simpl in Hk; [|done].
  destruct (append_face sb3 (Models.D state)) as [sb4|] eqn:H4; simpl in Hk; [|done].
  destruct (append_face sb4 (L state)) as [sb5|] eqn:H5; simpl in Hk; [|done].
  simpl in Hc. rewrite app_nil_r in Hc.
  apply elem_of_app in Hc as [Hc|Hc]; [by apply (append_face_Ok _ _ _ H1)|].
  apply elem_of_app in Hc as [Hc|Hc]; [by apply (append_face_Ok _ _ _ H2)|].
  apply elem_of_app in Hc as [Hc|Hc]; [by apply (append_face_Ok _ _ _ H3)|].
  apply elem_of_app in Hc as [Hc|Hc]; [by apply (append_face_Ok _ _ _ H4)|].
  apply elem_of_app in Hc as [Hc|Hc]; [by apply (append_face_Ok _ _ _ H5)|].
  by apply (append_face_Ok _ _ _ Hk).
Qed.

(** C3.  When validation reports an issue, [Solve] returns the failure
    response carrying the validation report's message, with no move, and
    calls neither [ToKociembaString] nor the search engine (inside which
    the facelet-to-cubie converter runs); and whatever its input, [Solve]
    returns a response rather than throwing. *)
Theorem Solve_rejects_invalid (state : CubeState) (v : ValidationResult) :
  ValidateState compareTo state = Ok (Some v) →
  Solve state =
  (mkWorld (failure ("Invalid cube: " +:+ GetDetailedMessage v)) [],
   Ok (failure ("Invalid cube: " +:+ GetDetailedMessage v))) ∧
  ∀ state', ∃ w r, Solve state' = (w, Ok r).
Proof.
  intros Hv. split; [by apply Solve_invalid|].
  intros state'.
  destruct (Solve_cases state')
    as [(? & _ & ->)|[(? & ? & _ & ->)|[(_ & ->)|(? & _ & _ & _ & ->)]]]; eauto.
Qed.

(** C4.  On the canonical solved layout [Solve] returns the response with
    an empty move list, move count 0 and no error, and its only call is
    [ToKociembaString]: the search engine is not invoked. *)
Theorem Solve_solved_layout :
  alphabetical compareTo →
  Solve solved_layout =
  (mkWorld (mkSolveResponse [] 0 ElapsedMilliseconds None) [CallToKociembaString],
   Ok (mkSolveResponse [] 0 ElapsedMilliseconds None)).
Proof.
  intros Hcmp. apply Solve_already_solved.
  - by apply ValidateState_solved.
  - by vm_compute.
Qed.


(** C2 (as amended).  [ValidateState] has neither a token check nor a color
    count check.  A layout with a sticker that is not one of the six color
    tokens is still turned down before the search engine runs: [Solve]
    returns a failure response and has called at most [ToKociembaString].
    A layout that passes the edge and corner checks and converts to a
    string other than the solved one is handed to the search engine,
    whatever its color counts. *)
Theorem Solve_unrecognized_or_miscounted (state : CubeState) :
  (∀ c, c ∈ stickers_of state → ¬ recognized c →
     ∃ msg calls, calls ⊆ [CallToKociembaString] ∧
       Solve state = (mkWorld (failure msg) calls, Ok (failure msg))) ∧
  (∀ k, ValidateState compareTo state = Ok None →
        ToKociembaString state = Ok k → k ≠ solved_string →
        Solve state =
        (mkWorld (after_search (solution k 22 10000 false false)) (search_calls k),
         Ok (after_search (solution k 22 10000 false false)))).
Proof.
  split; [|intros k; apply Solve_searches].
  intros c Hc Hunrec.
  destruct (Solve_cases state)
    as [(v & _ & ->)|[(ex & cs & Hcs & ->)|[(Hk & _)|(k & _ & Hk & _)]]].
  - do 2 eexists. split; [|reflexivity]. apply list_subseteq_nil.
  - by do 2 eexists.
  - destruct Hunrec. by apply (ToKociembaString_Ok state solved_string).
  - destruct Hunrec. by apply (ToKociembaString_Ok state k).
Qed.

End SolveProperties.

Lemma Solve_rejects_invalid_witness :
  Solve String.compare ordinal_StartsWith failing_engine 3 exchanged_layout =
  (mkWorld (failure 3 ("Invalid cube: " +:+ GetDetailedMessage exchanged_report)) [],
   Ok (failure 3 ("Invalid cube: " +:+ GetDetailedMessage exchanged_report))) ∧
  ∀ state', ∃ w r,
    Solve String.compare ordinal_StartsWith failing_engine 3 state' = (w, Ok r).
Proof.
  apply (Solve_rejects_invalid String.compare ordinal_StartsWith failing_engine 3
           exchanged_layout exchanged_report).
  vm_compute. reflexivity.
Defined.

Lemma Solve_solved_layout_witness :
  Solve String.compare ordinal_StartsWith failing_engine 3 solved_layout =
  (mkWorld (mkSolveResponse [] 0 3 None) [CallToKociembaString],
   Ok (mkSolveResponse [] 0 3 None)).
Proof.
  apply (Solve_solved_layout String.compare ordinal_StartsWith failing_engine 3).
  exact ordinal_alphabetical.
Defined.


Lemma Solve_unrecognized_or_miscounted_witness :
  (∃ msg calls, calls ⊆ [CallToKociembaString] ∧
     Solve String.compare ordinal_StartsWith counting_engine 3 odd_centers_layout =
     (mkWorld (failure 3 msg) calls, Ok (failure 3 msg))) ∧
  Solve String.compare ordinal_StartsWith counting_engine 3 white_center_layout =
  (mkWorld (failure 3 "Invalid cube: Not exactly one facelet of each color")
           (search_calls "UUUUUUUUURRRRURRRRFFFFFFFFFDDDDDDDDDLLLLLLLLLBBBBBBBBB"),
   Ok (failure 3 "Invalid cube: Not exactly one facelet of each color")).
Proof.
  split.
  - apply (proj1 (Solve_unrecognized_or_miscounted String.compare ordinal_StartsWith
                    counting_engine 3 odd_centers_layout) (Some "purple")).
    + apply (bool_decide_unpack _). vm_compute. reflexivity.
    + apply (bool_decide_unpack _). vm_compute. reflexivity.
  - apply (proj2 (Solve_unrecognized_or_miscounted String.compare ordinal_StartsWith
                    counting_engine 3 white_center_layout)
             "UUUUUUUUURRRRURRRRFFFFFFFFFDDDDDDDDDLLLLLLLLLBBBBBBBBB").
    + vm_compute. reflexivity.
    + vm_compute. reflexivity.
    + discriminate.
Defined.

(** C2 (as stated) fails.  The validator accepts a layout with a token
    that no color has.  And the solved layout with a white sticker on the
    Right center has ten white stickers and eight red ones, yet
    [ValidateState] accepts it and [Solve] passes it on to the search
    engine. *)
Lemma miscounted_layout_reaches_search :
  Some "purple" ∈ stickers_of odd_centers_layout ∧
  ValidateState String.compare odd_centers_layout = Ok None ∧
  well_formed white_center_layout = true ∧
  length (filter (fun c => c = paint White) (stickers_of white_center_layout)) = 10%nat ∧
  length (filter (fun c => c = paint Red) (stickers_of white_center_layout)) = 8%nat ∧
  ValidateState String.compare white_center_layout = Ok None ∧
  Solve String.compare ordinal_StartsWith counting_engine 3 white_center_layout =
  (mkWorld (failure 3 "Invalid cube: Not exactly one facelet of each color")
           [CallToKociembaString;
            CallSolution "UUUUUUUUURRRRURRRRFFFFFFFFFDDDDDDDDDLLLLLLLLLBBBBBBBBB"
                         22 10000 false false],
   Ok (failure 3 "Invalid cube: Not exactly one facelet of each color")).
Proof.
  split; [apply (bool_decide_unpack _); by vm_compute|by vm_compute].
Qed.

(** ** Kociemba.Tools.verify *)

Import Kociemba.

Lemma foreach_fmap {A B S : Type} (body : S -> B -> Result S) (g : A -> B)
    (l : list A) (st : S) :
  foreach body (g <$> l) st = foreach (fun st a => body st (g a)) l st.
Proof.
  revert st. induction l as [|a l IH]; intros st; simpl; [done|].
  destruct (body st (g a)); simpl; [apply IH|done].
Qed.

(** Walking the indices of a string is walking its characters. *)
Lemma foreach_Chars {S : Type} (body : S -> ascii -> Result S) (s : string) (st : S) :
  foreach (fun st i => c ← Chars s i; body st c) (seq 0 (String.length s)) st =
  foreach body (String.list_ascii_of_string s) st.
Proof.
  revert st. induction s as [|a s IH]; intros st; [done|].
  cbn [String.length String.list_ascii_of_string seq foreach].
  change (Chars (String a s) 0) with (Ok (A:=ascii) a).
  cbn [mbind Result_bind]. destruct (body st a) as [st'|ex]; [|done].
  cbn [mbind Result_bind]. rewrite <-fmap_S_seq, foreach_fmap. apply IH.
Qed.

Lemma count_colors_chars (s : string) :
  String.length s = 54%nat →
  count_colors s = foreach count_char (String.list_ascii_of_string s) (replicate 6 0%Z).
Proof.
  intros Hlen. unfold count_colors.
  change 54%nat with (54%nat : nat). rewrite <-Hlen.
  apply (foreach_Chars count_char).
Qed.

Lemma to_int_inj (c c' : CubeColor.t) :
  CubeColor.to_int c = CubeColor.to_int c' → c = c'.
Proof. by destruct c, c'. Qed.

Lemma Enum_Parse_nonneg (ch : ascii) (k : Z) : Enum_Parse ch = Ok k → (0 ≤ k)%Z.
Proof.
  unfold Enum_Parse.
  destruct (list_find _ _) as [[? [? color]]|].
  - intros [= <-]. by destruct color.
  - destruct (_ && _); [|done]. intros [= <-]. lia.
Qed.

Lemma small_is_color (k : Z) : (0 ≤ k < 6)%Z → ∃ c, k = CubeColor.to_int c.
Proof.
  intros Hk.
  assert (k = 0 ∨ k = 1 ∨ k = 2 ∨ k = 3 ∨ k = 4 ∨ k = 5)%Z
    as [->|[->|[->|[->|[->| ->]]]]] by lia.
  - by exists CubeColor.U.
  - by exists CubeColor.R.
  - by exists CubeColor.F.
  - by exists CubeColor.D.
  - by exists CubeColor.L.
  - by exists CubeColor.B.
Qed.

(** A pass of the loop succeeds exactly on the characters that parse to
    one of the six colors, and then bumps that color's slot. *)
Lemma count_char_color (count : list Z) (ch : ascii) (c : CubeColor.t) :
  length count = 6%nat → Enum_Parse ch = Ok (CubeColor.to_int c) →
  count_char count ch = Ok (alter Z.succ (slot c) count).
Proof.
  intros Hlen Hch. unfold count_char, increment. rewrite Hch, Hlen. simpl.
  by destruct c.
Qed.

Lemma count_char_Ok (count count' : list Z) (ch : ascii) :
  length count = 6%nat → count_char count ch = Ok count' →
  ∃ c, Enum_Parse ch = Ok (CubeColor.to_int c).
Proof.
  intros Hlen. unfold count_char, increment.
  destruct (Enum_Parse ch) as [k|] eqn:Hch; simpl; [|done].
  rewrite Hlen.
  destruct ((0 <=? k)%Z && (k <? Z.of_nat 6)%Z) eqn:Hk; [intros _|done].
  apply andb_prop in Hk as [_ Hk%Z.ltb_lt].
  destruct (small_is_color k) as [c ->]; [|by exists c].
  split; [by apply (Enum_Parse_nonneg ch)|done].
Qed.

(** The array after counting the colors [cs]. *)
Lemma count_colors_parsed (chars : list ascii) (cs : list CubeColor.t)
    (count : list Z) :
  length count = 6%nat →
  Forall2 (fun ch c => Enum_Parse ch = Ok (CubeColor.to_int c)) chars cs →
  ∃ count', foreach count_char chars count = Ok count' ∧
            length count' = 6%nat ∧
            ∀ c, count' !! slot c =
                 (fun n => (n + Z.of_nat (occ c cs))%Z) <$> count !! slot c.
Proof.
  intros Hlen Hparse. revert count Hlen.
  induction Hparse as [|ch c chars cs Hch _ IH]; intros count Hlen.
  - exists count. split_and!; [done..|]. intros c.
    destruct (count !! slot c); simpl; [f_equal; unfold occ; simpl; lia|done].
  - cbn [foreach]. rewrite (count_char_color count ch c Hlen Hch).
    cbn [mbind Result_bind].
    destruct (IH (alter Z.succ (slot c) count)) as (count' & -> & Hlen' & Hcount');
      [by rewrite length_alter|].
    exists count'. split_and!; [done..|]. intros c'.
    rewrite Hcount', list_lookup_alter. unfold occ. rewrite filter_cons.
    destruct (decide (slot c = slot c')) as [Heq|Hne].
    + assert (c = c') as -> by (by destruct c, c').
      rewrite decide_True by done.
      destruct (count !! slot c'); simpl; [f_equal; lia|done].
    + rewrite decide_False by (by intros ->).
      done.
Qed.

(** The loop completes only on strings that parse. *)
Lemma count_colors_Ok (chars : list ascii) (count count' : list Z) :
  length count = 6%nat → foreach count_char chars count = Ok count' →
  ∃ cs, Forall2 (fun ch c => Enum_Parse ch = Ok (CubeColor.to_int c)) chars cs.
Proof.
  revert count. induction chars as [|ch chars IH]; intros count Hlen Hok.
  - by exists [].
  - cbn [foreach] in Hok.
    destruct (count_char count ch) as [count1|] eqn:Hch; [|done].
    cbn [mbind Result_bind] in Hok.
    destruct (count_char_Ok count count1 ch Hlen Hch) as [c Hc].
    rewrite (count_char_color count ch c Hlen Hc) in Hch.
    injection Hch as <-.
    destruct (IH _ ltac:(by rewrite length_alter) Hok) as [cs Hcs].
    exists (c :: cs). by constructor.
Qed.

Lemma parses_to_unique (s : string) (cs cs' : list CubeColor.t) :
  parses_to s cs → parses_to s cs' → cs = cs'.
Proof.
  unfold parses_to. generalize (String.list_ascii_of_string s) as chars.
  intros chars Hcs. revert cs'.
  induction Hcs as [|ch c chars cs Hc _ IH]; intros cs' Hcs'.
  - by apply Forall2_nil_inv_l in Hcs'.
  - apply Forall2_cons_inv_l in Hcs' as (c' & cs'' & Hc' & Hcs'' & ->).
    rewrite Hc in Hc'. injection Hc' as Hcc'%to_int_inj. subst c'.
    f_equal. by apply IH.
Qed.

Lemma all_nine_slots (count : list Z) :
  length count = 6%nat →
  forallb (fun n => (n =? 9)%Z) count = true ↔ ∀ c, count !! slot c = Some 9%Z.
Proof.
  intros Hlen.
  destruct count as [|n0 [|n1 [|n2 [|n3 [|n4 [|n5 [|? ?]]]]]]]; try done.
  simpl. rewrite !andb_true_iff, !Z.eqb_eq. split.
  - intros (-> & -> & -> & -> & -> & -> & _). by intros [].
  - intros Hall.
    pose proof (Hall CubeColor.U). pose proof (Hall CubeColor.R).
    pose proof (Hall CubeColor.F). pose proof (Hall CubeColor.D).
    pose proof (Hall CubeColor.L). pose proof (Hall CubeColor.B).
    simplify_eq/=. done.
Qed.

(** C7.  On a 54-character string [verify] returns one of the seven
    documented codes, 0 or -1 to -6, which are pairwise different, and it
    returns -1 exactly when the string does not parse into the six colors
    with nine facelets of each.  The cubie-level check, which lives outside
    these sources, is taken with the codes that [verify]'s own
    documentation lists for it. *)
Theorem verify_outcomes (cubie_verify : string -> Z) (s : string) :
  (∀ s', cubie_verify s' ∈ cubie_codes) →
  String.length s = 54%nat →
  verify cubie_verify s ∈ verify_codes ∧
  NoDup verify_codes ∧
  (verify cubie_verify s = (-1)%Z ↔ ¬ nine_of_each s).
Proof.
  intros Hcodes Hlen.
  assert (∀ s', cubie_verify s' ∈ verify_codes ∧ cubie_verify s' ≠ (-1)%Z)
    as Hcubie.
  { intros s'. specialize (Hcodes s'). unfold cubie_codes in Hcodes.
    repeat (apply elem_of_cons in Hcodes as [->|Hcodes];
            [split; [by apply (bool_decide_unpack _)|done]|]).
    by apply elem_of_nil in Hcodes. }
  assert ((-1)%Z ∈ verify_codes) as Hminus by (by apply (bool_decide_unpack _)).
  split_and!; [| by apply (bool_decide_unpack _) |].
  - unfold verify. destruct (count_colors s); [|done].
    destruct (forallb _ _); [apply Hcubie|done].
  - unfold verify. rewrite (count_colors_chars s Hlen).
    destruct (foreach count_char _ _) as [count|ex] eqn:Hloop.
    + destruct (count_colors_Ok _ (replicate 6 0%Z) count eq_refl Hloop) as [cs Hcs].
      destruct (count_colors_parsed _ cs (replicate 6 0%Z) eq_refl Hcs)
        as (count' & Hloop' & Hlen' & Hslots).
      rewrite Hloop in Hloop'. injection Hloop' as <-.
      assert (∀ c, count !! slot c = Some (Z.of_nat (occ c cs))) as Hocc.
      { intros c. rewrite Hslots. by destruct c. }
      destruct (forallb _ count) eqn:Hnine.
      * split; [by intros ?%Hcubie|]. intros Hnot. destruct Hnot.
        exists cs. split; [done|]. intros c.
        apply (all_nine_slots count Hlen') with (c := c) in Hnine.
        rewrite Hocc in Hnine. injection Hnine. lia.
      * split; [intros _|done]. intros (cs' & Hcs' & Hnine').
        rewrite (parses_to_unique s cs' cs Hcs' Hcs) in Hnine'.
        assert (forallb (fun n => (n =? 9)%Z) count = true); [|congruence].
        apply (all_nine_slots count Hlen'). intros c.
        by rewrite Hocc, Hnine'.
    + split; [intros _|done]. intros (cs & Hcs & _).
      destruct (count_colors_parsed _ cs (replicate 6 0%Z) eq_refl Hcs)
        as (count' & Hloop' & _).
      congruence.
Qed.

Lemma verify_outcomes_witness :
  verify accepting_check solved_numbers ∈ verify_codes ∧
  NoDup verify_codes ∧
  (verify accepting_check solved_numbers = (-1)%Z ↔ ¬ nine_of_each solved_numbers).
Proof.
  apply (verify_outcomes accepting_check solved_numbers).
  - intros s'. apply list_elem_of_here.
  - reflexivity.
Defined.

(** ** Kociemba.Tools.randomCube *)

Section RandomCubeProperties.

Context `{CubieCubeLaws CubieCube}.

(** The loop leaves only with agreeing parities, and never touches the
    orientations it was given. *)
Lemma resample_Some (draws : list Z) (cc cc' : CubieCube) :
  resample draws cc = Some cc' →
  cornerParity cc' = edgeParity cc' ∧
  edgeOrientationSum cc' = edgeOrientationSum cc ∧
  cornerOrientationSum cc' = cornerOrientationSum cc.
Proof.
  remember (length draws) as n eqn:Hn.
  revert draws cc Hn.
  induction n as [n IH] using lt_wf_ind; intros draws cc -> Hloop.
  destruct draws as [|a [|b draws]]; [done..|].
  cbn [resample] in Hloop.
  destruct (Z.lxor _ _ =? 0)%Z eqn:Hxor.
  - injection Hloop as <-. apply Z.eqb_eq, Z.lxor_eq in Hxor.
    by rewrite setURtoBR_edges, setURFtoDLB_edges, setURtoBR_corners,
               setURFtoDLB_corners.
  - destruct (IH (length draws) ltac:(simpl; lia) draws _ eq_refl Hloop)
      as (Hparity & Hedges & Hcorners).
    by rewrite Hedges, Hcorners, setURtoBR_edges, setURFtoDLB_edges,
               setURtoBR_corners, setURFtoDLB_corners.
Qed.

(** A pair of draws with agreeing parities ends the loop; any other pair
    is thrown away and the loop draws again. *)
Lemma resample_step (a b : Z) (draws : list Z) (cc : CubieCube) :
  resample (a :: b :: draws) cc =
  if decide (edgeParity (setURtoBR b (setURFtoDLB a cc)) =
             cornerParity (setURtoBR b (setURFtoDLB a cc)))
  then Some (setURtoBR b (setURFtoDLB a cc))
  else resample draws (setURtoBR b (setURFtoDLB a cc)).
Proof.
  cbn [resample]. destruct (decide _) as [Heq|Hne].
  - by rewrite Heq, Z.lxor_nilpotent.
  - destruct (Z.eqb_spec (Z.lxor (edgeParity (setURtoBR b (setURFtoDLB a cc)))
                                 (cornerParity (setURtoBR b (setURFtoDLB a cc)))) 0)
      as [Hxor%Z.lxor_eq|]; done.
Qed.

(** C8.  Whenever [randomCube] returns a string, it is the facelet string
    of a cubie cube whose corner-permutation parity equals its
    edge-permutation parity, and that cube is legal: its orientation sums
    are multiples of 3 and of 2 as well.  The cubie cube itself lives
    outside these sources and is taken through the interface
    [CubieCubeOps] with the laws [CubieCubeLaws]. *)
Theorem randomCube_legal (draws : list Z) (str : string) :
  randomCube draws = Some str →
  ∃ cc : CubieCube,
    randomCube_cubie draws = Some cc ∧ to_fc_String cc = str ∧
    cornerParity cc = edgeParity cc ∧ legal cc.
Proof.
  unfold randomCube. destruct (randomCube_cubie draws) as [cc|] eqn:Hcc; [|done].
  intros [= <-]. exists cc. split_and!; [done..| |].
  - unfold randomCube_cubie in Hcc. destruct draws as [|f [|t draws]]; [done..|].
    by apply resample_Some in Hcc as [? _].
  - unfold randomCube_cubie in Hcc. destruct draws as [|f [|t draws]]; [done..|].
    apply resample_Some in Hcc as (Hparity & Hedges & Hcorners).
    split_and!; [done|rewrite Hcorners|rewrite Hedges].
    + apply setTwist_sum.
    + rewrite setTwist_edges. apply setFlip_sum.
Qed.

End RandomCubeProperties.

Lemma sumZ_app (l1 l2 : list Z) :
  CubieModel.sumZ (l1 ++ l2) = (CubieModel.sumZ l1 + CubieModel.sumZ l2)%Z.
Proof.
  unfold CubieModel.sumZ. induction l1 as [|x l1 IH]; simpl; [done|].
  rewrite IH. lia.
Qed.

Lemma orientations_sum (base : Z) (n : nat) (x : Z) :
  (CubieModel.sumZ (CubieModel.orientations base n x) mod base = 0)%Z.
Proof.
  unfold CubieModel.orientations. rewrite sumZ_app. simpl.
  rewrite Z.add_0_r, Zplus_mod_idemp_r, Z.add_opp_diag_r.
  apply Zmod_0_l.
Qed.

#[global] Instance CubieModel_laws : CubieCubeLaws CubieModel.t.
Proof.
  split; try done.
  - intros f cc. apply orientations_sum.
  - intros t cc. apply orientations_sum.
Qed.

Lemma randomCube_legal_witness :
  ∃ cc : CubieModel.t,
    randomCube_cubie CubieModel.sample_draws = Some cc ∧
    to_fc_String cc = "UBDDUUURDRBLFRFFFLRBBDFDULDLURRDRUFDFLFDLRRUBBLLLBBFUB" ∧
    cornerParity cc = edgeParity cc ∧ legal cc.
Proof.
  apply (randomCube_legal (CubieCube := CubieModel.t) CubieModel.sample_draws).
  vm_compute. reflexivity.
Defined.

(** ** Worked examples *)

Example ParseSolution_moves : ParseSolution "U R2  F' " = ["U"; "R2"; "F'"].
Proof. reflexivity. Qed.

Example GetDetailedMessage_exchanged :
  GetDetailedMessage exchanged_report =
  "Invalid edges: G-G at FR. Missing edges: G-W, G-R. Duplicate edges: R-W at UF, UR".
Proof. reflexivity. Qed.

Example ValidateState_up_turned :
  ValidateState String.compare up_turned_layout = Ok None.
Proof. by vm_compute. Qed.

Example Solve_engine_fault :
  Solve String.compare ordinal_StartsWith failing_engine 7 up_turned_layout =
  (mkWorld (failure 7 "tables unavailable")
     (search_calls "UUUUUUUUUBBBRRRRRRRRRFFFFFFDDDDDDDDDFFFLLLLLLLLLBBBBBB"),
   Ok (failure 7 "tables unavailable")).
Proof. by vm_compute. Qed.

Example verify_names : verify accepting_check solved_names = 0%Z.
Proof. by vm_compute. Qed.

Example verify_numbers : verify accepting_check solved_numbers = 0%Z.
Proof. by vm_compute. Qed.

Example verify_unknown_number :
  verify accepting_check
    "600000000111111111222222222333333333444444444555555555" = (-1)%Z.
Proof. by vm_compute. Qed.

Example verify_lower_case :
  verify accepting_check
    "uUUUUUUUURRRRRRRRRFFFFFFFFFDDDDDDDDDLLLLLLLLLBBBBBBBBB" = (-1)%Z.
Proof. by vm_compute. Qed.

Example verify_miscounted :
  verify accepting_check
    "UUUUUUUUURRRRURRRRFFFFFFFFFDDDDDDDDDLLLLLLLLLBBBBBBBBB" = (-1)%Z.
Proof. by vm_compute. Qed.

Example verify_short : verify accepting_check "UUUUUUUUU" = (-1)%Z.
Proof. by vm_compute. Qed.

Example render_identity :
  to_fc_String (new_CubieCube (CubieCube := CubieModel.t)) = solved_names.
Proof. by vm_compute. Qed.

Example randomCube_sample :
  randomCube (CubieCube := CubieModel.t) CubieModel.sample_draws =
  Some "UBDDUUURDRBLFRFFFLRBBDFDULDLURRDRUFDFLFDLRRUBBLLLBBFUB".
Proof. by vm_compute. Qed.

Example randomCube_sample_counts :
  count_colors "UBDDUUURDRBLFRFFFLRBBDFDULDLURRDRUFDFLFDLRRUBBLLLBBFUB" =
  Ok [9; 9; 9; 9; 9; 9]%Z.
Proof. by vm_compute. Qed.

(** * Further properties *)

(** ** The page's sticker state under face turns *)

Import Lettering.

Lemma nine_list {A : Type} (l : list A) :
  length l = 9%nat →
  ∃ a0 a1 a2 a3 a4 a5 a6 a7 a8, l = [a0; a1; a2; a3; a4; a5; a6; a7; a8].
Proof.
  destruct l as [|a0 [|a1 [|a2 [|a3 [|a4 [|a5 [|a6 [|a7 [|a8 [|? ?]]]]]]]]]];
    try done.
  intros _. by exists a0, a1, a2, a3, a4, a5, a6, a7, a8.
Qed.

(** Names the 54 stickers of a state of nine-sticker faces. *)
Ltac open_state s Hnine :=
  destruct s as [u d f b r l];
  destruct Hnine as (Hu & Hd & Hf & Hb & Hr & Hl);
  cbn [RubiksCube.U RubiksCube.D RubiksCube.F RubiksCube.B RubiksCube.R
       RubiksCube.L] in Hu, Hd, Hf, Hb, Hr, Hl;
  apply nine_list in Hu as (u0 & u1 & u2 & u3 & u4 & u5 & u6 & u7 & u8 & ->);
  apply nine_list in Hd as (d0 & d1 & d2 & d3 & d4 & d5 & d6 & d7 & d8 & ->);
  apply nine_list in Hf as (f0 & f1 & f2 & f3 & f4 & f5 & f6 & f7 & f8 & ->);
  apply nine_list in Hb as (b0 & b1 & b2 & b3 & b4 & b5 & b6 & b7 & b8 & ->);
  apply nine_list in Hr as (r0 & r1 & r2 & r3 & r4 & r5 & r6 & r7 & r8 & ->);
  apply nine_list in Hl as (l0 & l1 & l2 & l3 & l4 & l5 & l6 & l7 & l8 & ->).

Lemma get_face_Some (state : RubiksCube.CubeState) (face : string) a :
  RubiksCube.get_face state face = Some a →
  face ∈ ["U"; "D"; "F"; "B"; "R"; "L"].
Proof.
  unfold RubiksCube.get_face.
  repeat match goal with
         | |- context [String.eqb face ?x] =>
             destruct (String.eqb_spec face x) as [->|_];
             [intros _; by apply (bool_decide_unpack _)|]
         end.
  done.
Qed.

Lemma rotateFace_Some (face : string) ccw (state state' : RubiksCube.CubeState) :
  RubiksCube.rotateFace face ccw state = Some state' →
  face ∈ ["U"; "D"; "F"; "B"; "R"; "L"].
Proof.
  unfold RubiksCube.rotateFace.
  destruct (RubiksCube.get_face state face) as [a|] eqn:Hface; [|done].
  intros _. by apply (get_face_Some state face a).
Qed.

(** Splits a goal about a face name into the six faces. *)
Ltac each_face Hface :=
  repeat (apply elem_of_cons in Hface as [->|Hface]);
  [..|by apply elem_of_nil in Hface].

(** A quarter turn keeps nine stickers on every face, and the opposite
    quarter turn undoes it. *)
Lemma rotateFace_undo (face : string) (ccw : bool)
    (state state' : RubiksCube.CubeState) :
  RubiksCube.nine_each state →
  RubiksCube.rotateFace face ccw state = Some state' →
  RubiksCube.nine_each state' ∧
  RubiksCube.rotateFace face (negb ccw) state' = Some state.
Proof.
  intros Hnine Hturn. pose proof (rotateFace_Some _ _ _ _ Hturn) as Hface.
  open_state state Hnine.
  each_face Hface; destruct ccw;
    vm_compute in Hturn; injection Hturn as <-; by vm_compute.
Qed.

(** X1.  Four equal quarter turns of a face bring every sticker of a
    state of nine-sticker faces back to where it was. *)
Theorem rotateFace_four (face : string) (ccw : bool) (state : RubiksCube.CubeState) :
  RubiksCube.nine_each state →
  face ∈ ["U"; "D"; "F"; "B"; "R"; "L"] →
  (s1 ← RubiksCube.rotateFace face ccw state;
   s2 ← RubiksCube.rotateFace face ccw s1;
   s3 ← RubiksCube.rotateFace face ccw s2;
   RubiksCube.rotateFace face ccw s3) = Some state.
Proof.
  intros Hnine Hface. open_state state Hnine.
  each_face Hface; destruct ccw; by vm_compute.
Qed.

Lemma rotateFace_four_witness :
  (s1 ← RubiksCube.rotateFace "R" false RubiksCube.createInitialState;
   s2 ← RubiksCube.rotateFace "R" false s1;
   s3 ← RubiksCube.rotateFace "R" false s2;
   RubiksCube.rotateFace "R" false s3) = Some RubiksCube.createInitialState.
Proof.
  apply (rotateFace_four "R" false RubiksCube.createInitialState).
  - by repeat split.
  - apply (bool_decide_unpack _). vm_compute. reflexivity.
Defined.

Lemma perm_at {A : Type} (n : nat) (x : A) (l l2 : list A) :
  l2 !! n = Some x → l ≡ₚ delete n l2 → x :: l ≡ₚ l2.
Proof. intros Hn Hl. rewrite Hl. symmetry. by apply delete_Permutation. Qed.

(** Proves that two lists written out in full, over distinct names, are
    permutations of each other. *)
Ltac find_at n :=
  lazymatch n with
  | 60%nat => fail
  | _ => first [ apply (perm_at n); [reflexivity | cbn [delete list_delete]]
               | find_at (S n) ]
  end.

Ltac perm_listed :=
  repeat lazymatch goal with
         | |- [] ≡ₚ [] => reflexivity
         | |- _ :: _ ≡ₚ _ => find_at 0%nat
         end.

(** A quarter turn moves the stickers around without touching a center. *)
Lemma rotateFace_permutes (face : string) (ccw : bool)
    (state state' : RubiksCube.CubeState) :
  RubiksCube.nine_each state →
  RubiksCube.rotateFace face ccw state = Some state' →
  RubiksCube.centers state' = RubiksCube.centers state ∧
  stickers_of (RubiksCube.wire state') ≡ₚ stickers_of (RubiksCube.wire state).
Proof.
  intros Hnine Hturn. pose proof (rotateFace_Some _ _ _ _ Hturn) as Hface.
  open_state state Hnine.
  each_face Hface; destruct ccw;
    vm_compute in Hturn; injection Hturn as <-;
    (split; [reflexivity|]); vm_compute; perm_listed.
Qed.

(** ** What the validator can see *)

Lemma occurs_Permutation (p : list Color) (x y : list nstring) :
  x ≡ₚ y → occurs p x ↔ occurs p y.
Proof. unfold occurs. by intros ->. Qed.

Lemma length_filter_delete {A : Type} (P : A → Prop) `{!∀ x, Decision (P x)}
    (l : list A) (n : nat) (y : A) :
  l !! n = Some y →
  length (filter P l) =
  ((if decide (P y) then 1 else 0) + length (filter P (delete n l)))%nat.
Proof.
  intros Hn. rewrite (delete_Permutation l n y Hn) at 1.
  rewrite filter_cons. by destruct (decide (P y)).
Qed.

Lemma same_pieces_count (p : list Color) (l1 l2 : list (list nstring)) :
  same_pieces l1 l2 →
  length (filter (occurs p) l1) = length (filter (occurs p) l2).
Proof.
  induction 1 as [|x y l l2 n Hn Hxy _ IH]; [done|].
  rewrite (length_filter_delete _ l2 n y Hn), <-IH, filter_cons.
  pose proof (occurs_Permutation p x y Hxy) as Hiff.
  destruct (decide (occurs p x)) as [Hx|Hx], (decide (occurs p y)) as [Hy|Hy];
    try done; tauto.
Qed.

Lemma same_pieces_recognized (l1 l2 : list (list nstring)) :
  same_pieces l1 l2 →
  Forall (Forall recognized) l2 → Forall (Forall recognized) l1.
Proof.
  induction 1 as [|x y l l2 n Hn Hxy _ IH]; intros Hl2; [done|].
  constructor.
  - rewrite Hxy. rewrite Forall_forall in Hl2.
    by apply Hl2, (list_elem_of_lookup_2 _ n).
  - apply IH. rewrite (delete_Permutation l2 n y Hn) in Hl2.
    by apply Forall_cons in Hl2 as [_ ?].
Qed.

Lemma occurrences_fst (p : list Color) (l : list (list nstring * string)) :
  occurrences p l = length (filter (occurs p) (l.*1)).
Proof. unfold occurrences, places. by rewrite filter_fmap, !length_fmap. Qed.

Lemma cubies_recognized_fst (s : CubeState) :
  cubies_recognized s ↔
  Forall (Forall recognized) (edge_stickers s).*1 ∧
  Forall (Forall recognized) (corner_stickers s).*1.
Proof.
  unfold cubies_recognized. by rewrite Forall_app, !Forall_fmap.
Qed.

(** The validator's verdict in terms of pieces (the first half of C1). *)
Lemma ValidateState_null_pieces compareTo (s : CubeState) :
  alphabetical compareTo → well_formed s = true → cubies_recognized s →
  ValidateState compareTo s = Ok None ↔
  (∀ p, p ∈ canonical_edges → occurrences p (edge_stickers s) = 1%nat) ∧
  (∀ p, p ∈ canonical_corners → occurrences p (corner_stickers s) = 1%nat).
Proof.
  intros Hcmp Hwf Hrec.
  rewrite (ValidateState_null compareTo s Hwf).
  rewrite (once_pieces compareTo validEdges canonical_edges (edge_stickers s)
             validEdges_pieces (edge_key_piece compareTo Hcmp s Hrec)).
  by rewrite (once_pieces compareTo validCorners canonical_corners
                (corner_stickers s) validCorners_pieces
                (corner_key_piece compareTo Hcmp s Hrec)).
Qed.

(** Layouts in which every piece occurs equally often get the same
    verdict. *)
Lemma same_occurrences_verdict compareTo (s s' : CubeState) :
  alphabetical compareTo →
  well_formed s = true → well_formed s' = true →
  cubies_recognized s → cubies_recognized s' →
  (∀ p, occurrences p (edge_stickers s') = occurrences p (edge_stickers s)) →
  (∀ p, occurrences p (corner_stickers s') = occurrences p (corner_stickers s)) →
  ValidateState compareTo s' = Ok None ↔ ValidateState compareTo s = Ok None.
Proof.
  intros Hcmp Hwf Hwf' Hrec Hrec' He Hc.
  rewrite !ValidateState_null_pieces by done.
  split; intros [Hedge Hcorner]; split; intros p Hp.
  - rewrite <-He. by apply Hedge.
  - rewrite <-Hc. by apply Hcorner.
  - rewrite He. by apply Hedge.
  - rewrite Hc. by apply Hcorner.
Qed.

Lemma same_pieces_cubies_recognized (s s' : CubeState) :
  cubies_recognized s →
  same_pieces (edge_stickers s').*1 (edge_stickers s).*1 →
  same_pieces (corner_stickers s').*1 (corner_stickers s).*1 →
  cubies_recognized s'.
Proof.
  intros Hrec Hedges Hcorners.
  apply cubies_recognized_fst. apply cubies_recognized_fst in Hrec as [? ?].
  split; by eapply same_pieces_recognized.
Qed.

(** X2.  The validator sees only which pieces a layout holds, not where
    they sit nor how they are turned: two layouts of the six colors whose
    edge positions hold the same sticker combinations up to order, and
    whose corner positions do, are both accepted or both turned down.  So
    a cube with one flipped edge or one twisted corner, which no sequence
    of turns solves, passes validation. *)
Theorem ValidateState_same_pieces compareTo (s s' : CubeState) :
  alphabetical compareTo →
  well_formed s = true → well_formed s' = true → cubies_recognized s →
  same_pieces (edge_stickers s').*1 (edge_stickers s).*1 →
  same_pieces (corner_stickers s').*1 (corner_stickers s).*1 →
  ValidateState compareTo s' = Ok None ↔ ValidateState compareTo s = Ok None.
Proof.
  intros Hcmp Hwf Hwf' Hrec Hedges Hcorners.
  apply same_occurrences_verdict; try done.
  - by apply (same_pieces_cubies_recognized s s').
  - intros p. rewrite !occurrences_fst. by apply same_pieces_count.
  - intros p. rewrite !occurrences_fst. by apply same_pieces_count.
Qed.

Lemma perm3_132 {A : Type} (a b c : A) : [a; b; c] ≡ₚ [a; c; b].
Proof. apply perm_skip, perm_swap. Qed.

Lemma perm3_213 {A : Type} (a b c : A) : [a; b; c] ≡ₚ [b; a; c].
Proof. apply perm_swap. Qed.

Lemma perm3_231 {A : Type} (a b c : A) : [a; b; c] ≡ₚ [b; c; a].
Proof. apply (Permutation_cons_append [b; c] a). Qed.

Lemma perm3_312 {A : Type} (a b c : A) : [a; b; c] ≡ₚ [c; a; b].
Proof. symmetry. apply (Permutation_cons_append [a; b] c). Qed.

Lemma perm3_321 {A : Type} (a b c : A) : [a; b; c] ≡ₚ [c; b; a].
Proof. rewrite perm3_231. apply perm_swap. Qed.

(** Two or three named stickers against the same stickers in some order. *)
Ltac perm_small :=
  solve [ reflexivity | apply perm_swap | apply perm3_132 | apply perm3_213
        | apply perm3_231 | apply perm3_312 | apply perm3_321 ].

Ltac piece_at n :=
  lazymatch n with
  | 12%nat => fail
  | _ => first [ eapply (same_pieces_cons _ _ _ _ n);
                 [reflexivity | perm_small | cbn [delete list_delete]]
               | piece_at (S n) ]
  end.

(** Proves [same_pieces] of two lists written out in full, over distinct
    names. *)
Ltac same_pieces_listed :=
  repeat lazymatch goal with
         | |- same_pieces [] [] => constructor
         | |- same_pieces (_ :: _) _ => piece_at 0%nat
         end.

Lemma ValidateState_same_pieces_witness :
  ValidateState String.compare flipped_edge_layout = Ok None ↔
  ValidateState String.compare solved_layout = Ok None.
Proof.
  apply (ValidateState_same_pieces String.compare solved_layout flipped_edge_layout).
  - exact ordinal_alphabetical.
  - reflexivity.
  - reflexivity.
  - apply (bool_decide_unpack _). vm_compute. reflexivity.
  - vm_compute. same_pieces_listed.
  - vm_compute. same_pieces_listed.
Defined.

(** ** From the page to the server *)

(** A quarter turn carries whole pieces from position to position. *)
Lemma rotateFace_same_pieces (face : string) (ccw : bool)
    (state state' : RubiksCube.CubeState) :
  RubiksCube.nine_each state →
  RubiksCube.rotateFace face ccw state = Some state' →
  same_pieces (edge_stickers (RubiksCube.wire state')).*1
              (edge_stickers (RubiksCube.wire state)).*1 ∧
  same_pieces (corner_stickers (RubiksCube.wire state')).*1
              (corner_stickers (RubiksCube.wire state)).*1.
Proof.
  intros Hnine Hturn. pose proof (rotateFace_Some _ _ _ _ Hturn) as Hface.
  open_state state Hnine.
  each_face Hface; destruct ccw;
    vm_compute in Hturn; injection Hturn as <-;
    (split; vm_compute; same_pieces_listed).
Qed.

Lemma wire_well_formed (state : RubiksCube.CubeState) :
  RubiksCube.nine_each state ↔ well_formed (RubiksCube.wire state) = true.
Proof.
  unfold RubiksCube.nine_each, well_formed, RubiksCube.wire. simpl.
  rewrite !andb_true_iff, !Nat.eqb_eq. tauto.
Qed.

Lemma nine_elem_of (a : array) (idx : nat) :
  nine a = true → (idx < 9)%nat →
  ∃ c, index a idx = Ok c ∧ c ∈ default [] a.
Proof.
  destruct a as [l|]; simpl; [|done].
  intros Hlen%Nat.eqb_eq Hidx.
  destruct (lookup_lt_is_Some_2 l idx) as [c Hc]; [lia|].
  exists c. rewrite Hc. split; [done|]. by apply (list_elem_of_lookup_2 _ idx).
Qed.

Lemma facelet_elem_of (s : CubeState) (face : string) (idx : nat) :
  well_formed s = true → face ∈ faces → (idx < 9)%nat →
  facelet s face idx ∈ stickers_of s.
Proof.
  intros Hwf Hface Hidx. unfold facelet, sticker, stickers_of.
  unfold well_formed in Hwf. repeat (apply andb_prop in Hwf as [Hwf ?]).
  simpl. rewrite app_nil_r, !elem_of_app.
  unfold faces in Hface.
  repeat (apply elem_of_cons in Hface as [->|Hface];
          [simpl;
           match goal with
           | |- context [index ?a idx] =>
               destruct (nine_elem_of a idx) as (c & -> & Hc); [done..|tauto]
           end|]).
  by apply elem_of_nil in Hface.
Qed.

(** Recognized stickers all over make recognized edges and corners. *)
Lemma stickers_cubies_recognized (s : CubeState) :
  well_formed s = true → Forall recognized (stickers_of s) → cubies_recognized s.
Proof.
  intros Hwf Hrec. rewrite Forall_forall in Hrec.
  unfold cubies_recognized. apply Forall_app. split.
  - apply Forall_fmap, Forall_forall. intros e He.
    pose proof edgePositions_in_range as Hrange.
    rewrite Forall_forall in Hrange. specialize (Hrange e He).
    destruct e as [[[[face1 idx1] face2] idx2] pos].
    destruct Hrange as (? & ? & ? & ?). simpl.
    repeat constructor; by apply Hrec, facelet_elem_of.
  - apply Forall_fmap, Forall_forall. intros c Hc.
    pose proof cornerPositions_in_range as Hrange.
    rewrite Forall_forall in Hrange. specialize (Hrange c Hc).
    destruct c as [[[[[[face1 idx1] face2] idx2] face3] idx3] pos].
    destruct Hrange as (? & ? & ? & ? & ? & ?). simpl.
    repeat constructor; by apply Hrec, facelet_elem_of.
Qed.

(** What one turn keeps: the shape, the centers, the stickers as a whole,
    and the validator's verdict. *)
Lemma rotateFace_keeps compareTo (face : string) (ccw : bool)
    (state state' : RubiksCube.CubeState) :
  alphabetical compareTo →
  RubiksCube.nine_each state →
  Forall recognized (stickers_of (RubiksCube.wire state)) →
  RubiksCube.rotateFace face ccw state = Some state' →
  RubiksCube.nine_each state' ∧
  RubiksCube.centers state' = RubiksCube.centers state ∧
  stickers_of (RubiksCube.wire state') ≡ₚ stickers_of (RubiksCube.wire state) ∧
  (ValidateState compareTo (RubiksCube.wire state') = Ok None ↔
   ValidateState compareTo (RubiksCube.wire state) = Ok None).
Proof.
  intros Hcmp Hnine Hrec Hturn.
  destruct (rotateFace_undo face ccw state state' Hnine Hturn) as [Hnine' _].
  destruct (rotateFace_permutes face ccw state state' Hnine Hturn) as [Hc Hperm].
  destruct (rotateFace_same_pieces face ccw state state' Hnine Hturn) as [He Hk].
  assert (cubies_recognized (RubiksCube.wire state)) as Hcubies.
  { apply stickers_cubies_recognized; [by apply wire_well_formed|done]. }
  split_and!; try done.
  apply same_occurrences_verdict; try done; try by apply wire_well_formed.
  - by apply (same_pieces_cubies_recognized (RubiksCube.wire state)).
  - intros p. rewrite !occurrences_fst. by apply same_pieces_count.
  - intros p. rewrite !occurrences_fst. by apply same_pieces_count.
Qed.

Lemma updateState_turns (move : string) (state state' : RubiksCube.CubeState) :
  RubiksCube.updateState move state = Some state' →
  ∃ face ccw,
    RubiksCube.rotateFace face ccw state = Some state' ∨
    ∃ state1, RubiksCube.rotateFace face ccw state = Some state1 ∧
              RubiksCube.rotateFace face ccw state1 = Some state'.
Proof.
  unfold RubiksCube.updateState.
  set (face := RubiksCube.remove_first _ _). set (ccw := RubiksCube.includes "'" move).
  destruct (RubiksCube.rotateFace face ccw state) as [state1|] eqn:Hfirst;
    simpl; [|done].
  destruct (RubiksCube.includes "2" move).
  - intros Hsecond. exists face, ccw. right. by exists state1.
  - intros [= <-]. exists face, ccw. by left.
Qed.

Lemma updateState_keeps compareTo (move : string)
    (state state' : RubiksCube.CubeState) :
  alphabetical compareTo →
  RubiksCube.nine_each state →
  Forall recognized (stickers_of (RubiksCube.wire state)) →
  RubiksCube.updateState move state = Some state' →
  RubiksCube.nine_each state' ∧
  RubiksCube.centers state' = RubiksCube.centers state ∧
  stickers_of (RubiksCube.wire state') ≡ₚ stickers_of (RubiksCube.wire state) ∧
  (ValidateState compareTo (RubiksCube.wire state') = Ok None ↔
   ValidateState compareTo (RubiksCube.wire state) = Ok None).
Proof.
  intros Hcmp Hnine Hrec Hmove.
  apply updateState_turns in Hmove as (face & ccw & [Hone|(state1 & Hone & Htwo)]).
  - by apply (rotateFace_keeps compareTo face ccw).
  - destruct (rotateFace_keeps compareTo face ccw state state1)
      as (Hnine1 & Hc1 & Hperm1 & Hv1); [done..|].
    destruct (rotateFace_keeps compareTo face ccw state1 state')
      as (Hnine2 & Hc2 & Hperm2 & Hv2); [done|done| |done|]; [by rewrite Hperm1|].
    split_and!; [done|congruence|by rewrite Hperm2|by rewrite Hv2].
Qed.

(** What a sequence of moves keeps. *)
Lemma updateStates_keeps compareTo (moves : list string)
    (state state' : RubiksCube.CubeState) :
  alphabetical compareTo →
  RubiksCube.nine_each state →
  Forall recognized (stickers_of (RubiksCube.wire state)) →
  RubiksCube.updateStates moves state = Some state' →
  RubiksCube.nine_each state' ∧
  RubiksCube.centers state' = RubiksCube.centers state ∧
  stickers_of (RubiksCube.wire state') ≡ₚ stickers_of (RubiksCube.wire state) ∧
  (ValidateState compareTo (RubiksCube.wire state') = Ok None ↔
   ValidateState compareTo (RubiksCube.wire state) = Ok None).
Proof.
  intros Hcmp. revert state.
  induction moves as [|move moves IH]; intros state Hnine Hrec Hrun.
  - by injection Hrun as <-.
  - cbn [RubiksCube.updateStates] in Hrun.
    destruct (RubiksCube.updateState move state) as [state1|] eqn:Hmove;
      simpl in Hrun; [|done].
    destruct (updateState_keeps compareTo move state state1)
      as (Hnine1 & Hc1 & Hperm1 & Hv1); [done..|].
    destruct (IH state1) as (Hnine' & Hc' & Hperm' & Hv'); [done|by rewrite Hperm1|done|].
    split_and!; [done|congruence|by rewrite Hperm'|by rewrite Hv'].
Qed.


Lemma updateState_shape (move : string) (state state' : RubiksCube.CubeState) :
  RubiksCube.nine_each state →
  RubiksCube.updateState move state = Some state' →
  RubiksCube.nine_each state' ∧
  RubiksCube.centers state' = RubiksCube.centers state ∧
  stickers_of (RubiksCube.wire state') ≡ₚ stickers_of (RubiksCube.wire state).
Proof.
  intros Hnine Hmove.
  apply updateState_turns in Hmove as (face & ccw & [Hone|(state1 & Hone & Htwo)]).
  - destruct (rotateFace_undo face ccw state state' Hnine Hone) as [Hnine' _].
    by destruct (rotateFace_permutes face ccw state state' Hnine Hone).
  - destruct (rotateFace_undo face ccw state state1 Hnine Hone) as [Hnine1 _].
    destruct (rotateFace_permutes face ccw state state1 Hnine Hone) as [Hc1 Hperm1].
    destruct (rotateFace_undo face ccw state1 state' Hnine1 Htwo) as [Hnine' _].
    destruct (rotateFace_permutes face ccw state1 state' Hnine1 Htwo) as [Hc2 Hperm2].
    split_and!; [done|congruence|by rewrite Hperm2].
Qed.

(** X3.  Whatever moves the page plays on a state of nine-sticker faces,
    as long as none of them throws, every face keeps nine stickers, the six
    center stickers stay where they are, and the 54 stickers are only
    rearranged, so the number of stickers of each color never changes. *)
Theorem updateStates_rearranges (moves : list string)
    (state state' : RubiksCube.CubeState) :
  RubiksCube.nine_each state →
  RubiksCube.updateStates moves state = Some state' →
  RubiksCube.nine_each state' ∧
  RubiksCube.centers state' = RubiksCube.centers state ∧
  stickers_of (RubiksCube.wire state') ≡ₚ stickers_of (RubiksCube.wire state).
Proof.
  revert state. induction moves as [|move moves IH]; intros state Hnine Hrun.
  - by injection Hrun as <-.
  - cbn [RubiksCube.updateStates] in Hrun.
    destruct (RubiksCube.updateState move state) as [state1|] eqn:Hmove;
      simpl in Hrun; [|done].
    destruct (updateState_shape move state state1 Hnine Hmove)
      as (Hnine1 & Hc1 & Hperm1).
    destruct (IH state1 Hnine1 Hrun) as (Hnine' & Hc' & Hperm').
    split_and!; [done|congruence|by rewrite Hperm'].
Qed.

Lemma updateStates_rearranges_witness :
  RubiksCube.nine_each sample_state ∧
  RubiksCube.centers sample_state =
  RubiksCube.centers RubiksCube.createInitialState ∧
  stickers_of (RubiksCube.wire sample_state) ≡ₚ
  stickers_of (RubiksCube.wire RubiksCube.createInitialState).
Proof.
  apply (updateStates_rearranges sample_moves RubiksCube.createInitialState
           sample_state).
  - by repeat split.
  - vm_compute. reflexivity.
Defined.

(** X4.  Playing moves on the page never changes what the server's
    validator says of the state: the state after the moves is accepted
    exactly when the state before them was. *)
Theorem updateStates_same_verdict compareTo (moves : list string)
    (state state' : RubiksCube.CubeState) :
  alphabetical compareTo →
  RubiksCube.nine_each state →
  Forall recognized (stickers_of (RubiksCube.wire state)) →
  RubiksCube.updateStates moves state = Some state' →
  ValidateState compareTo (RubiksCube.wire state') = Ok None ↔
  ValidateState compareTo (RubiksCube.wire state) = Ok None.
Proof.
  intros Hcmp Hnine Hrec Hrun.
  by destruct (updateStates_keeps compareTo moves state state' Hcmp Hnine Hrec Hrun)
    as (_ & _ & _ & ?).
Qed.

Lemma updateStates_same_verdict_witness :
  ValidateState String.compare (RubiksCube.wire sample_state) = Ok None ↔
  ValidateState String.compare (RubiksCube.wire RubiksCube.createInitialState) =
  Ok None.
Proof.
  apply (updateStates_same_verdict String.compare sample_moves
           RubiksCube.createInitialState sample_state).
  - exact ordinal_alphabetical.
  - by repeat split.
  - apply (bool_decide_unpack _). vm_compute. reflexivity.
  - vm_compute. reflexivity.
Defined.

(** ** Moves and their inverses *)

Lemma get_face_is_Some (state : RubiksCube.CubeState) (face : string) :
  is_Some (RubiksCube.get_face state face) ↔ face ∈ ["U"; "D"; "F"; "B"; "R"; "L"].
Proof.
  split.
  - intros [a Ha]. by apply (get_face_Some state face a).
  - intros Hface. each_face Hface; by eexists.
Qed.

Lemma rotateFace_is_Some (face : string) (ccw : bool) (state : RubiksCube.CubeState) :
  is_Some (RubiksCube.rotateFace face ccw state) ↔
  face ∈ ["U"; "D"; "F"; "B"; "R"; "L"].
Proof.
  rewrite <-(get_face_is_Some state face). unfold RubiksCube.rotateFace.
  destruct (RubiksCube.get_face state face); simpl.
  - split; intros _; by eexists.
  - split; by intros [? ?].
Qed.

(** X5.  [updateState] goes through exactly when the move, with its first
    apostrophe and its first 2 taken out, is one of the six face names;
    otherwise it throws before anything is changed.  The state plays no
    part in that. *)
Theorem updateState_defined_iff (move : string) (state : RubiksCube.CubeState) :
  is_Some (RubiksCube.updateState move state) ↔
  RubiksCube.remove_first "2" (RubiksCube.remove_first "'" move)
    ∈ ["U"; "D"; "F"; "B"; "R"; "L"].
Proof.
  unfold RubiksCube.updateState.
  set (face := RubiksCube.remove_first _ _).
  set (ccw := RubiksCube.includes "'" move).
  rewrite <-(rotateFace_is_Some face ccw state).
  destruct (RubiksCube.rotateFace face ccw state) as [state1|] eqn:Hfirst; simpl.
  - destruct (RubiksCube.includes "2" move); [|done].
    split; [by eexists|intros _].
    apply rotateFace_is_Some. apply (rotateFace_is_Some face ccw state). by eexists.
  - done.
Qed.

Lemma quarter_turn (face : string) (ccw : bool) (state : RubiksCube.CubeState) :
  RubiksCube.nine_each state → face ∈ ["U"; "D"; "F"; "B"; "R"; "L"] →
  ∃ state1, RubiksCube.rotateFace face ccw state = Some state1 ∧
            RubiksCube.nine_each state1 ∧
            RubiksCube.rotateFace face (negb ccw) state1 = Some state.
Proof.
  intros Hnine Hface.
  destruct (proj2 (rotateFace_is_Some face ccw state) Hface) as [state1 Hturn].
  exists state1. split; [done|]. by apply rotateFace_undo.
Qed.

(** Two equal quarter turns are undone by two more of them. *)
Lemma half_turn_twice (face : string) (ccw : bool)
    (state state1 state2 state3 : RubiksCube.CubeState) :
  RubiksCube.nine_each state →
  RubiksCube.rotateFace face ccw state = Some state1 →
  RubiksCube.rotateFace face ccw state1 = Some state2 →
  RubiksCube.rotateFace face ccw state2 = Some state3 →
  RubiksCube.rotateFace face ccw state3 = Some state.
Proof.
  intros Hnine H1 H2 H3. pose proof (rotateFace_Some _ _ _ _ H1) as Hface.
  open_state state Hnine.
  each_face Hface; destruct ccw;
    vm_compute in H1; injection H1 as <-;
    vm_compute in H2; injection H2 as <-;
    vm_compute in H3; injection H3 as <-; by vm_compute.
Qed.

(** [updateState] on a move whose face, direction and doubling are
    known. *)
Lemma updateState_read (move face : string) (ccw double : bool)
    (state : RubiksCube.CubeState) :
  RubiksCube.remove_first "2" (RubiksCube.remove_first "'" move) = face →
  RubiksCube.includes "'" move = ccw →
  RubiksCube.includes "2" move = double →
  RubiksCube.updateState move state =
  (state1 ← RubiksCube.rotateFace face ccw state;
   if double then RubiksCube.rotateFace face ccw state1 else Some state1).
Proof. by intros <- <- <-. Qed.

Lemma updateState_quarter (move face : string) (ccw : bool)
    (state state1 : RubiksCube.CubeState) :
  RubiksCube.remove_first "2" (RubiksCube.remove_first "'" move) = face →
  RubiksCube.includes "'" move = ccw →
  RubiksCube.includes "2" move = false →
  RubiksCube.rotateFace face ccw state = Some state1 →
  RubiksCube.updateState move state = Some state1.
Proof.
  intros Hface Hccw Hdouble Hturn.
  by rewrite (updateState_read move face ccw false state Hface Hccw Hdouble), Hturn.
Qed.

Lemma updateState_half (move face : string) (ccw : bool)
    (state state1 state2 : RubiksCube.CubeState) :
  RubiksCube.remove_first "2" (RubiksCube.remove_first "'" move) = face →
  RubiksCube.includes "'" move = ccw →
  RubiksCube.includes "2" move = true →
  RubiksCube.rotateFace face ccw state = Some state1 →
  RubiksCube.rotateFace face ccw state1 = Some state2 →
  RubiksCube.updateState move state = Some state2.
Proof.
  intros Hface Hccw Hdouble Hturn1 Hturn2.
  by rewrite (updateState_read move face ccw true state Hface Hccw Hdouble), Hturn1.
Qed.

(** Plays a move written out in full, given its quarter turns. *)
Ltac play_quarter H :=
  lazymatch type of H with
  | RubiksCube.rotateFace ?face ?ccw ?s = Some ?s' =>
      lazymatch goal with
      | |- RubiksCube.updateState ?m _ = _ =>
          exact (updateState_quarter m face ccw s s' eq_refl eq_refl eq_refl H)
      end
  end.

Ltac play_half H1 H2 :=
  lazymatch type of H1 with
  | RubiksCube.rotateFace ?face ?ccw ?s = Some ?s1 =>
      lazymatch type of H2 with
      | RubiksCube.rotateFace _ _ _ = Some ?s2 =>
          lazymatch goal with
          | |- RubiksCube.updateState ?m _ = _ =>
              exact (updateState_half m face ccw s s1 s2 eq_refl eq_refl eq_refl H1 H2)
          end
      end
  end.

(** X6.  Each entry of [inverseMoves] undoes its key: on a state of
    nine-sticker faces, a move followed by the move the table gives for it
    restores every sticker.  The table is its own inverse. *)
Theorem updateState_inverse (move inverse : string) (state : RubiksCube.CubeState) :
  RubiksCube.nine_each state →
  (move, inverse) ∈ RubiksCube.inverseMoves →
  (inverse, move) ∈ RubiksCube.inverseMoves ∧
  ∃ state1, RubiksCube.updateState move state = Some state1 ∧
            RubiksCube.updateState inverse state1 = Some state.
Proof.
  intros Hnine Hin. unfold RubiksCube.inverseMoves in Hin.
  repeat (apply elem_of_cons in Hin as [[= -> ->]|Hin];
          [split; [by apply (bool_decide_unpack _)|]|]);
    [..|by apply elem_of_nil in Hin].
  all: match goal with
       | |- context [RubiksCube.updateState ?m ?s] =>
           let face :=
             eval vm_compute in
               (RubiksCube.remove_first "2" (RubiksCube.remove_first "'" m)) in
           let ccw := eval vm_compute in (RubiksCube.includes "'" m) in
           assert (face ∈ ["U"; "D"; "F"; "B"; "R"; "L"]) as Hface
             by (by apply (bool_decide_unpack _));
           destruct (quarter_turn face ccw state Hnine Hface)
             as (state1 & Hgo1 & Hnine1 & Hback1);
           destruct (quarter_turn face ccw state1 Hnine1 Hface)
             as (state2 & Hgo2 & Hnine2 & _);
           destruct (quarter_turn face ccw state2 Hnine2 Hface)
             as (state3 & Hgo3 & _ & _);
           pose proof (half_turn_twice face ccw state state1 state2 state3
                         Hnine Hgo1 Hgo2 Hgo3) as Hgo4
       end.
  all: first
         [ exists state1; split; [play_quarter Hgo1|play_quarter Hback1]
         | exists state2; split; [play_half Hgo1 Hgo2|play_half Hgo3 Hgo4] ].
Qed.

Lemma updateState_inverse_witness :
  ("R'", "R") ∈ RubiksCube.inverseMoves ∧
  ∃ state1, RubiksCube.updateState "R" RubiksCube.createInitialState = Some state1 ∧
            RubiksCube.updateState "R'" state1 = Some RubiksCube.createInitialState.
Proof.
  apply (updateState_inverse "R" "R'" RubiksCube.createInitialState).
  - by repeat split.
  - apply (bool_decide_unpack _). vm_compute. reflexivity.
Defined.

(** ** The Kociemba string and the solved check *)

Lemma colorToFace_item_paint (c : Color) :
  colorToFace_item (paint c) = Ok (letter_of c).
Proof. by destruct c; vm_compute. Qed.

Lemma letter_of_inj : Inj (=) (=) letter_of.
Proof. intros [] []; done. Qed.

Lemma paint_inj : Inj (=) (=) paint.
Proof. intros [] []; done. Qed.

Lemma recognized_paints (l : list nstring) :
  Forall recognized l ↔ ∃ cs, l = paint <$> cs.
Proof.
  split.
  - induction 1 as [|x l [c ->] _ [cs ->]]; [by exists []|by exists (c :: cs)].
  - intros [cs ->]. apply Forall_fmap, Forall_forall. intros c _. by exists c.
Qed.

Lemma letters_app (cs cs' : list Color) :
  letters (cs ++ cs') = letters cs +:+ letters cs'.
Proof.
  unfold letters. induction cs as [|c cs IH]; [done|].
  rewrite <-app_comm_cons, !fmap_cons. cbn [String.string_of_list_ascii].
  rewrite IH. done.
Qed.

Lemma append_face_paint (sb : string) (cs : list Color) :
  append_face sb (Some (paint <$> cs)) = Ok (sb +:+ letters cs).
Proof.
  unfold append_face. revert sb. induction cs as [|c cs IH]; intros sb.
  - simpl. unfold letters. simpl. f_equal.
    induction sb as [|a sb IHsb]; [done|]. change (String a sb +:+ "") with (String a (sb +:+ "")). by rewrite <-IHsb.
  - rewrite fmap_cons. cbn [foreach]. rewrite colorToFace_item_paint.
    cbn [mbind Result_bind]. rewrite IH. f_equal.
    rewrite append_assoc. done.
Qed.

Lemma append_face_inv (sb sb' : string) (face : array) :
  append_face sb face = Ok sb' →
  ∃ cs, face = Some (paint <$> cs) ∧ sb' = sb +:+ letters cs.
Proof.
  intros Hface. destruct face as [a|]; [|done].
  assert (Forall recognized a) as [cs ->]%recognized_paints.
  { apply Forall_forall. intros c Hc. by apply (append_face_Ok sb sb' (Some a)). }
  exists cs. split; [done|]. rewrite append_face_paint in Hface. congruence.
Qed.

Lemma ToKociembaString_painted (cu cr cf cd cl cb : list Color) :
  ToKociembaString (painted cu cr cf cd cl cb) =
  Ok (letters (cu ++ cr ++ cf ++ cd ++ cl ++ cb)).
Proof.
  unfold ToKociembaString, painted. cbn [U R F D L B].
  rewrite !append_face_paint. cbn [mbind Result_bind].
  rewrite !append_face_paint. cbn [mbind Result_bind].
  rewrite !append_face_paint. cbn [mbind Result_bind].
  rewrite !append_face_paint. cbn [mbind Result_bind].
  rewrite !append_face_paint. cbn [mbind Result_bind].
  rewrite !append_face_paint. f_equal.
  rewrite !letters_app, !append_assoc. done.
Qed.

Lemma ToKociembaString_inv (s : CubeState) (k : string) :
  ToKociembaString s = Ok k →
  ∃ cu cr cf cd cl cb, s = painted cu cr cf cd cl cb.
Proof.
  unfold ToKociembaString. intros Hk.
  destruct (append_face "" (U s)) as [sb1|] eqn:H1; [|done].
  cbn [mbind Result_bind] in Hk.
  destruct (append_face sb1 (R s)) as [sb2|] eqn:H2; [|done].
  cbn [mbind Result_bind] in Hk.
  destruct (append_face sb2 (F s)) as [sb3|] eqn:H3; [|done].
  cbn [mbind Result_bind] in Hk.
  destruct (append_face sb3 (D s)) as [sb4|] eqn:H4; [|done].
  cbn [mbind Result_bind] in Hk.
  destruct (append_face sb4 (L s)) as [sb5|] eqn:H5; [|done].
  cbn [mbind Result_bind] in Hk.
  apply append_face_inv in H1 as (cu & Hu & _), H2 as (cr & Hr & _),
    H3 as (cf & Hf & _), H4 as (cd & Hd & _), H5 as (cl & Hl & _),
    Hk as (cb & Hb & _).
  exists cu, cr, cf, cd, cl, cb. destruct s. unfold painted. simpl in *.
  congruence.
Qed.

Lemma painted_stickers (cu cr cf cd cl cb : list Color) :
  stickers_of (painted cu cr cf cd cl cb) =
  paint <$> (cu ++ cr ++ cf ++ cd ++ cl ++ cb).
Proof.
  unfold stickers_of, painted. simpl. by rewrite app_nil_r, !fmap_app.
Qed.

Lemma letters_length (cs : list Color) : String.length (letters cs) = length cs.
Proof.
  unfold letters. induction cs as [|c cs IH]; [done|].
  rewrite fmap_cons. cbn [String.string_of_list_ascii String.length].
  by rewrite IH.
Qed.

Lemma letters_inj : Inj (=) (=) letters.
Proof.
  intros cs cs' Heq. unfold letters in Heq.
  apply (f_equal String.list_ascii_of_string) in Heq.
  rewrite !String.list_ascii_of_string_of_list_ascii in Heq.
  by apply (list_fmap_eq_inj letter_of letter_of_inj) in Heq.
Qed.

(** X7.  [ToKociembaString] returns exactly for the layouts that have no
    null face and only stickers of the six colors, whatever the sizes of
    the faces; it then writes one face letter per sticker. *)
Theorem ToKociembaString_total_iff (s : CubeState) :
  (∃ k, ToKociembaString s = Ok k) ↔
  Forall (fun face : array => is_Some face) (all_faces s) ∧
  Forall recognized (stickers_of s).
Proof.
  split.
  - intros [k Hk]. split.
    + apply ToKociembaString_inv in Hk as (cu & cr & cf & cd & cl & cb & ->).
      unfold all_faces, painted. simpl. repeat constructor; by eexists.
    + apply Forall_forall. intros c Hc. by apply (ToKociembaString_Ok s k).
  - intros [Hfaces Hrec]. destruct s as [u d f b r l].
    unfold all_faces in Hfaces. simpl in Hfaces.
    apply Forall_cons in Hfaces as [[u' ->] Hfaces].
    apply Forall_cons in Hfaces as [[r' ->] Hfaces].
    apply Forall_cons in Hfaces as [[f' ->] Hfaces].
    apply Forall_cons in Hfaces as [[d' ->] Hfaces].
    apply Forall_cons in Hfaces as [[l' ->] Hfaces].
    apply Forall_cons in Hfaces as [[b' ->] _].
    unfold stickers_of in Hrec. simpl in Hrec. rewrite app_nil_r in Hrec.
    rewrite !Forall_app in Hrec.
    destruct Hrec as ([cu ->]%recognized_paints & [cr ->]%recognized_paints &
      [cf ->]%recognized_paints & [cd ->]%recognized_paints &
      [cl ->]%recognized_paints & [cb ->]%recognized_paints).
    eexists. apply (ToKociembaString_painted cu cr cf cd cl cb).
Qed.

Lemma painted_well_formed (cu cr cf cd cl cb : list Color) :
  well_formed (painted cu cr cf cd cl cb) = true ↔
  length cu = 9%nat ∧ length cr = 9%nat ∧ length cf = 9%nat ∧
  length cd = 9%nat ∧ length cl = 9%nat ∧ length cb = 9%nat.
Proof.
  unfold well_formed, painted. simpl.
  rewrite !andb_true_iff, !Nat.eqb_eq, !length_fmap. tauto.
Qed.

Lemma painted_letters_inj (cu cr cf cd cl cb cu' cr' cf' cd' cl' cb' : list Color) :
  well_formed (painted cu cr cf cd cl cb) = true →
  well_formed (painted cu' cr' cf' cd' cl' cb') = true →
  letters (cu ++ cr ++ cf ++ cd ++ cl ++ cb) =
  letters (cu' ++ cr' ++ cf' ++ cd' ++ cl' ++ cb') →
  painted cu cr cf cd cl cb = painted cu' cr' cf' cd' cl' cb'.
Proof.
  intros (? & ? & ? & ? & ? & ?)%painted_well_formed
         (? & ? & ? & ? & ? & ?)%painted_well_formed Heq%letters_inj.
  apply app_inj_1 in Heq as [-> Heq]; [|congruence].
  apply app_inj_1 in Heq as [-> Heq]; [|congruence].
  apply app_inj_1 in Heq as [-> Heq]; [|congruence].
  apply app_inj_1 in Heq as [-> Heq]; [|congruence].
  by apply app_inj_1 in Heq as [-> ->]; [|congruence].
Qed.

(** X8.  The string [ToKociembaString] returns has one character per
    sticker, each of them one of the six face letters. *)
Theorem ToKociembaString_letters (s : CubeState) (k : string) :
  ToKociembaString s = Ok k →
  String.length k = length (stickers_of s) ∧
  Forall (fun ch => ch ∈ face_letters) (String.list_ascii_of_string k).
Proof.
  intros Hk.
  pose proof (ToKociembaString_inv s k Hk) as (cu & cr & cf & cd & cl & cb & ->).
  rewrite ToKociembaString_painted in Hk. injection Hk as <-.
  split.
  - by rewrite letters_length, painted_stickers, length_fmap.
  - unfold letters. rewrite String.list_ascii_of_string_of_list_ascii.
    apply Forall_fmap, Forall_forall. intros c _.
    unfold compose. destruct c; by apply (bool_decide_unpack _).
Qed.

(** X9.  Two layouts of six nine-sticker faces with the same Kociemba
    string are the same layout. *)
Theorem ToKociembaString_inj (s s' : CubeState) (k : string) :
  well_formed s = true → well_formed s' = true →
  ToKociembaString s = Ok k → ToKociembaString s' = Ok k → s = s'.
Proof.
  intros Hwf Hwf' Hk Hk'.
  pose proof (ToKociembaString_inv s k Hk) as (cu & cr & cf & cd & cl & cb & ->).
  pose proof (ToKociembaString_inv s' k Hk')
    as (cu' & cr' & cf' & cd' & cl' & cb' & ->).
  rewrite ToKociembaString_painted in Hk, Hk'.
  apply painted_letters_inj; [done..|congruence].
Qed.

Lemma All_eq_true (face : array) (c : Color) :
  All_eq face (token c) = Ok true ↔ ∃ n, face = Some (replicate n (paint c)).
Proof.
  destruct face as [a|]; simpl; [|split; [done|by intros [? ?]]].
  split.
  - intros [= Hall]. exists (length a). f_equal.
    symmetry. apply replicate_as_Forall. split; [done|].
    apply Forall_forall. intros x Hx%list_elem_of_In.
    rewrite forallb_forall in Hall. specialize (Hall x Hx).
    destruct x as [x|]; [|done].
    apply String.eqb_eq in Hall. by subst.
  - intros [n [= ->]]. f_equal. apply forallb_forall.
    intros x [-> _]%list_elem_of_In%elem_of_replicate.
    apply String.eqb_refl.
Qed.

Lemma and_then_true (a b : Result bool) :
  and_then a b = Ok true ↔ a = Ok true ∧ b = Ok true.
Proof.
  unfold and_then. destruct a as [[]|]; simpl; [|split; [done|by intros [? ?]]..].
  tauto.
Qed.

Lemma IsSolved_filled (s : CubeState) :
  IsSolved s = Ok true ↔ ∃ nu nd nf nb nr nl, s = filled nu nd nf nb nr nl.
Proof.
  unfold IsSolved. rewrite !and_then_true.
  rewrite (All_eq_true _ White), (All_eq_true _ Yellow), (All_eq_true _ Green),
    (All_eq_true _ Blue), (All_eq_true _ Red), (All_eq_true _ Orange).
  destruct s as [u d f b r l]. unfold filled. simpl. split.
  - intros ([nu ->] & [nd ->] & [nf ->] & [nb ->] & [nr ->] & [nl ->]).
    by exists nu, nd, nf, nb, nr, nl.
  - intros (nu & nd & nf & nb & nr & nl & [= -> -> -> -> -> ->]).
    split_and!; by eexists.
Qed.

Lemma IsSolved_well_formed (s : CubeState) :
  well_formed s = true → IsSolved s = Ok true ↔ s = solved_layout.
Proof.
  intros Hwf. rewrite IsSolved_filled. split.
  - intros (nu & nd & nf & nb & nr & nl & ->).
    unfold well_formed, filled in Hwf. simpl in Hwf.
    rewrite !andb_true_iff, !Nat.eqb_eq, !length_replicate in Hwf.
    destruct Hwf as (((((-> & ->) & ->) & ->) & ->) & ->). done.
  - intros ->. by exists 9%nat, 9%nat, 9%nat, 9%nat, 9%nat, 9%nat.
Qed.

(** X10.  [IsSolved] looks at colors only, not at sizes: it answers true
    for exactly the layouts whose every face, of whatever length, is filled
    with the face's home color; among the layouts of six nine-sticker
    faces that is the solved layout alone. *)
Theorem IsSolved_true_iff (s : CubeState) :
  (IsSolved s = Ok true ↔ ∃ nu nd nf nb nr nl, s = filled nu nd nf nb nr nl) ∧
  (IsSolved s = Ok true ∧ well_formed s = true ↔ s = solved_layout).
Proof.
  split; [apply IsSolved_filled|]. split.
  - intros [Hsolved Hwf]. by apply IsSolved_well_formed.
  - intros ->. split; [|done]. by apply IsSolved_well_formed.
Qed.

Lemma foreach_Ok_elem {A S : Type} (body : S → A → Result S) (l : list A)
    (st st' : S) :
  foreach body l st = Ok st' → ∀ x, x ∈ l → ∃ st1 st2, body st1 x = Ok st2.
Proof.
  revert st. induction l as [|a l IH]; intros st Hrun x Hx.
  - by apply elem_of_nil in Hx.
  - cbn [foreach] in Hrun.
    destruct (body st a) as [st1|] eqn:Hbody; [|done].
    cbn [mbind Result_bind] in Hrun.
    apply elem_of_cons in Hx as [->|Hx]; [by exists st, st1|by eapply IH].
Qed.

Lemma index_Ok (a : array) (idx : nat) (c : nstring) :
  index a idx = Ok c → ∃ l, a = Some l ∧ (idx < length l)%nat.
Proof.
  destruct a as [l|]; simpl; [|done].
  destruct (l !! idx) eqn:Hl; [|done]. intros _. exists l. split; [done|].
  by apply lookup_lt_is_Some_1.
Qed.

Lemma count_corner_Ok compareTo (s : CubeState) st st' face1 idx1 face2 idx2 face3 idx3 pos :
  count_corner compareTo s st (face1, idx1, face2, idx2, face3, idx3, pos) = Ok st' →
  (∃ c, sticker s face1 idx1 = Ok c) ∧ (∃ c, sticker s face2 idx2 = Ok c) ∧
  (∃ c, sticker s face3 idx3 = Ok c).
Proof.
  unfold count_corner. destruct st as [counts invalid].
  destruct (sticker s face1 idx1) as [c1|]; [|done].
  destruct (sticker s face2 idx2) as [c2|]; [|done].
  destruct (sticker s face3 idx3) as [c3|]; [|done].
  intros _. split_and!; by eexists.
Qed.

(** A layout the validator gets through has at least nine stickers on
    every face. *)
Lemma ValidateState_Ok_faces compareTo (s : CubeState) v :
  ValidateState compareTo s = Ok v →
  Forall (fun face : array => ∃ l, face = Some l ∧ (9 ≤ length l)%nat) (all_faces s).
Proof.
  unfold ValidateState. intros Hv.
  destruct (foreach (count_edge compareTo s) edgePositions (∅, []))
    as [[edgeCounts invalidEdges]|]; [|done].
  cbn [mbind Result_bind] in Hv.
  destruct (foreach (check_edge edgeCounts) validEdges ([], []))
    as [[missingEdges duplicateEdges]|]; [|done].
  cbn [mbind Result_bind] in Hv.
  destruct (foreach (count_corner compareTo s) cornerPositions (∅, []))
    as [[cornerCounts invalidCorners]|] eqn:Hcorners; [|done].
  clear Hv.
  pose proof (foreach_Ok_elem _ _ _ _ Hcorners) as Hall.
  assert (∀ face idx a, GetFace s face = Ok a →
            (∃ c, sticker s face idx = Ok c) →
            ∃ l, a = Some l ∧ (idx < length l)%nat) as Hface.
  { intros face idx a Hget [c Hc]. unfold sticker in Hc. rewrite Hget in Hc.
    by apply index_Ok in Hc. }
  destruct (Hall ("U", 8, "F", 2, "R", 0, "UFR")%nat)
    as (? & ? & (HU & _ & _)%count_corner_Ok); [by apply (bool_decide_unpack _)|].
  destruct (Hall ("D", 2, "F", 8, "R", 6, "DFR")%nat)
    as (? & ? & (_ & HF & _)%count_corner_Ok); [by apply (bool_decide_unpack _)|].
  destruct (Hall ("D", 0, "F", 6, "L", 8, "DFL")%nat)
    as (? & ? & (_ & _ & HL)%count_corner_Ok); [by apply (bool_decide_unpack _)|].
  destruct (Hall ("D", 8, "B", 6, "R", 8, "DBR")%nat)
    as (? & ? & (HD & _ & HR)%count_corner_Ok); [by apply (bool_decide_unpack _)|].
  destruct (Hall ("D", 6, "B", 8, "L", 6, "DBL")%nat)
    as (? & ? & (_ & HB & _)%count_corner_Ok); [by apply (bool_decide_unpack _)|].
  apply (Hface "U" 8%nat (U s) eq_refl) in HU.
  apply (Hface "F" 8%nat (F s) eq_refl) in HF.
  apply (Hface "L" 8%nat (L s) eq_refl) in HL.
  apply (Hface "D" 8%nat (D s) eq_refl) in HD.
  apply (Hface "R" 8%nat (R s) eq_refl) in HR.
  apply (Hface "B" 8%nat (B s) eq_refl) in HB.
  unfold all_faces. repeat constructor; done.
Qed.

Lemma solved_layout_painted :
  solved_layout =
  painted (replicate 9 White) (replicate 9 Red) (replicate 9 Green)
          (replicate 9 Yellow) (replicate 9 Orange) (replicate 9 Blue).
Proof. reflexivity. Qed.

Lemma solved_string_letters :
  solved_string =
  letters (replicate 9 White ++ replicate 9 Red ++ replicate 9 Green ++
           replicate 9 Yellow ++ replicate 9 Orange ++ replicate 9 Blue).
Proof. reflexivity. Qed.

(** X11.  Among the layouts of six nine-sticker faces, the Kociemba string
    is the solved one exactly when [IsSolved] answers true. *)
Theorem ToKociembaString_solved_iff (s : CubeState) :
  well_formed s = true →
  ToKociembaString s = Ok solved_string ↔ IsSolved s = Ok true.
Proof.
  intros Hwf. split.
  - intros Hk.
    pose proof (ToKociembaString_inv s _ Hk) as (cu & cr & cf & cd & cl & cb & ->).
    rewrite ToKociembaString_painted, solved_string_letters in Hk.
    injection Hk as Hk.
    rewrite (painted_letters_inj cu cr cf cd cl cb
               (replicate 9 White) (replicate 9 Red) (replicate 9 Green)
               (replicate 9 Yellow) (replicate 9 Orange) (replicate 9 Blue)
               Hwf eq_refl Hk).
    reflexivity.
  - intros ->%IsSolved_well_formed; [|done]. reflexivity.
Qed.

(** A state the validator accepts and whose Kociemba string is the solved
    one is the solved layout, sizes included. *)
Lemma solved_string_only_solved compareTo (s : CubeState) :
  ValidateState compareTo s = Ok None →
  ToKociembaString s = Ok solved_string →
  s = solved_layout.
Proof.
  intros Hv Hk. apply ValidateState_Ok_faces in Hv.
  pose proof (ToKociembaString_inv s _ Hk) as (cu & cr & cf & cd & cl & cb & ->).
  rewrite ToKociembaString_painted in Hk. injection Hk as Hk.
  assert (length (cu ++ cr ++ cf ++ cd ++ cl ++ cb) = 54%nat) as Hlen.
  { by rewrite <-letters_length, Hk. }
  rewrite !length_app in Hlen.
  unfold all_faces, painted in Hv. simpl in Hv.
  repeat match goal with
         | H : Forall _ (_ :: _) |- _ =>
             apply Forall_cons in H as [(? & [= <-] & ?) H]
         end.
  rewrite !length_fmap in *.
  rewrite solved_layout_painted. apply painted_letters_inj; [|done|done].
  apply painted_well_formed. lia.
Qed.

Lemma ToKociembaString_letters_witness :
  String.length up_turned_string = length (stickers_of up_turned_layout) ∧
  Forall (fun ch => ch ∈ face_letters)
         (String.list_ascii_of_string up_turned_string).
Proof.
  apply (ToKociembaString_letters up_turned_layout up_turned_string).
  vm_compute. reflexivity.
Defined.

Lemma ToKociembaString_inj_witness :
  up_turned_layout = RubiksCube.wire up_turned_state.
Proof.
  apply (ToKociembaString_inj up_turned_layout (RubiksCube.wire up_turned_state)
           up_turned_string).
  - reflexivity.
  - reflexivity.
  - vm_compute. reflexivity.
  - vm_compute. reflexivity.
Defined.

Lemma ToKociembaString_solved_iff_witness :
  ToKociembaString solved_layout = Ok solved_string ↔
  IsSolved solved_layout = Ok true.
Proof. apply (ToKociembaString_solved_iff solved_layout). reflexivity. Defined.

(** ** The key of a layout *)

Lemma initial_inj : Inj (=) (=) initial.
Proof. intros [] []; done. Qed.

Lemma initials_app (cs cs' : list Color) :
  initials (cs ++ cs') = initials cs +:+ initials cs'.
Proof.
  unfold initials. induction cs as [|c cs IH]; [done|].
  rewrite <-app_comm_cons, !fmap_cons. cbn [String.string_of_list_ascii].
  by rewrite IH.
Qed.

Lemma initials_inj : Inj (=) (=) initials.
Proof.
  intros cs cs' Heq. unfold initials in Heq.
  apply (f_equal String.list_ascii_of_string) in Heq.
  rewrite !String.list_ascii_of_string_of_list_ascii in Heq.
  by apply (list_fmap_eq_inj initial initial_inj) in Heq.
Qed.

Lemma Concat_paint (cs : list Color) :
  Concat (Some (paint <$> cs)) = Ok (initials cs).
Proof.
  unfold Concat. f_equal. induction cs as [|c cs IH]; [done|].
  rewrite !fmap_cons.
  change (initials (c :: cs)) with (String (initial c) (initials cs)).
  rewrite <-IH. destruct cs as [|c' cs]; by destruct c.
Qed.

Lemma ToKey_painted (cu cr cf cd cl cb : list Color) :
  ToKey (painted cu cr cf cd cl cb) =
  Ok (initials (cu ++ cd ++ cf ++ cb ++ cr ++ cl)).
Proof.
  unfold ToKey, painted. cbn [U R F D L B]. rewrite !Concat_paint.
  cbn [mbind Result_bind]. by rewrite !initials_app, !append_assoc.
Qed.

Lemma recognized_painted (s : CubeState) :
  Forall (fun face : array => is_Some face) (all_faces s) →
  Forall recognized (stickers_of s) →
  ∃ cu cr cf cd cl cb, s = painted cu cr cf cd cl cb.
Proof.
  intros Hfaces Hrec. destruct s as [u d f b r l].
  unfold all_faces in Hfaces. simpl in Hfaces.
  apply Forall_cons in Hfaces as [[u' ->] Hfaces].
  apply Forall_cons in Hfaces as [[r' ->] Hfaces].
  apply Forall_cons in Hfaces as [[f' ->] Hfaces].
  apply Forall_cons in Hfaces as [[d' ->] Hfaces].
  apply Forall_cons in Hfaces as [[l' ->] Hfaces].
  apply Forall_cons in Hfaces as [[b' ->] _].
  unfold stickers_of in Hrec. simpl in Hrec. rewrite app_nil_r in Hrec.
  rewrite !Forall_app in Hrec.
  destruct Hrec as ([cu ->]%recognized_paints & [cr ->]%recognized_paints &
    [cf ->]%recognized_paints & [cd ->]%recognized_paints &
    [cl ->]%recognized_paints & [cb ->]%recognized_paints).
  by exists cu, cr, cf, cd, cl, cb.
Qed.

Lemma well_formed_faces (s : CubeState) :
  well_formed s = true → Forall (fun face : array => is_Some face) (all_faces s).
Proof.
  unfold well_formed, all_faces. intros Hwf.
  repeat (apply andb_prop in Hwf as [Hwf ?]).
  destruct s as [[?|] [?|] [?|] [?|] [?|] [?|]]; try done.
  repeat constructor; by eexists.
Qed.

(** X12.  On layouts of six nine-sticker faces that show only the six
    colors, [ToKey] is a key: layouts with equal keys are equal. *)
Theorem ToKey_inj (s s' : CubeState) :
  well_formed s = true → well_formed s' = true →
  Forall recognized (stickers_of s) → Forall recognized (stickers_of s') →
  ToKey s = ToKey s' → s = s'.
Proof.
  intros Hwf Hwf' Hrec Hrec' Hkey.
  destruct (recognized_painted s (well_formed_faces s Hwf) Hrec)
    as (cu & cr & cf & cd & cl & cb & ->).
  destruct (recognized_painted s' (well_formed_faces s' Hwf') Hrec')
    as (cu' & cr' & cf' & cd' & cl' & cb' & ->).
  rewrite !ToKey_painted in Hkey. injection Hkey as Heq%initials_inj.
  apply painted_well_formed in Hwf as (? & ? & ? & ? & ? & ?).
  apply painted_well_formed in Hwf' as (? & ? & ? & ? & ? & ?).
  apply app_inj_1 in Heq as [-> Heq]; [|congruence].
  apply app_inj_1 in Heq as [-> Heq]; [|congruence].
  apply app_inj_1 in Heq as [-> Heq]; [|congruence].
  apply app_inj_1 in Heq as [-> Heq]; [|congruence].
  by apply app_inj_1 in Heq as [-> ->]; [|congruence].
Qed.

Lemma ToKey_inj_witness : up_turned_layout = RubiksCube.wire up_turned_state.
Proof.
  apply (ToKey_inj up_turned_layout (RubiksCube.wire up_turned_state)).
  - reflexivity.
  - reflexivity.
  - apply (bool_decide_unpack _). vm_compute. reflexivity.
  - apply (bool_decide_unpack _). vm_compute. reflexivity.
  - vm_compute. reflexivity.
Defined.

(** ** What the validator reads *)

Lemma index_take (a : array) (idx : nat) :
  (idx < 9)%nat → index (take 9 <$> a) idx = index a idx.
Proof.
  intros Hidx. destruct a as [l|]; [|done]. simpl.
  by rewrite lookup_take_lt.
Qed.

Lemma sticker_first_nine (s : CubeState) (face : string) (idx : nat) :
  (idx < 9)%nat → sticker (first_nine s) face idx = sticker s face idx.
Proof.
  intros Hidx. unfold sticker, GetFace, first_nine. cbn [U D F B R L].
  repeat (destruct (String.eqb face _);
          [cbn [mbind Result_bind]; by apply index_take|]).
  done.
Qed.

(** Stickers past the ninth of a face never change the validator's
    answer. *)
Lemma ValidateState_take compareTo (s : CubeState) :
  ValidateState compareTo (first_nine s) = ValidateState compareTo s.
Proof.
  unfold ValidateState.
  assert (∀ st, foreach (count_edge compareTo (first_nine s)) edgePositions st =
                foreach (count_edge compareTo s) edgePositions st) as ->.
  { apply foreach_ext. intros e st He.
    pose proof edgePositions_in_range as Hrange.
    rewrite Forall_forall in Hrange. specialize (Hrange e He).
    destruct e as [[[[face1 idx1] face2] idx2] pos].
    destruct Hrange as (_ & ? & _ & ?). unfold count_edge.
    by rewrite !sticker_first_nine. }
  assert (∀ st, foreach (count_corner compareTo (first_nine s)) cornerPositions st =
                foreach (count_corner compareTo s) cornerPositions st) as ->.
  { apply foreach_ext. intros c st Hc.
    pose proof cornerPositions_in_range as Hrange.
    rewrite Forall_forall in Hrange. specialize (Hrange c Hc).
    destruct c as [[[[[[face1 idx1] face2] idx2] face3] idx3] pos].
    destruct Hrange as (_ & ? & _ & ? & _ & ?). unfold count_corner.
    by rewrite !sticker_first_nine. }
  done.
Qed.

Lemma first_nine_well_formed (s : CubeState) :
  Forall (fun face : array => ∃ l, face = Some l ∧ (9 ≤ length l)%nat) (all_faces s) →
  well_formed (first_nine s) = true.
Proof.
  unfold all_faces. intros Hfaces.
  repeat match goal with
         | H : Forall _ (_ :: _) |- _ =>
             apply Forall_cons in H as [(? & ? & ?) H]
         end.
  destruct s as [u d f b r l]. simpl in *. subst.
  unfold well_formed, first_nine. simpl.
  rewrite !andb_true_iff, !Nat.eqb_eq, !length_take. lia.
Qed.

(** X13.  The validator reads the first nine stickers of each face and
    nothing else: stickers past the ninth never change its answer.  It
    returns, with a report or with null, exactly when no face is null and
    every face has at least nine stickers; on every other state it
    throws. *)
Theorem ValidateState_first_nine compareTo (s : CubeState) :
  ValidateState compareTo (first_nine s) = ValidateState compareTo s ∧
  ((∃ v, ValidateState compareTo s = Ok v) ↔
   Forall (fun face : array => ∃ l, face = Some l ∧ (9 ≤ length l)%nat)
          (all_faces s)).
Proof.
  split; [apply ValidateState_take|]. split.
  - intros [v Hv]. by apply (ValidateState_Ok_faces compareTo s v).
  - intros Hfaces%first_nine_well_formed.
    rewrite <-ValidateState_take.
    rewrite (ValidateState_report compareTo _ Hfaces). by eexists.
Qed.

(** ** Parsing the engine's answer *)

Lemma Split_no_sep (sep : ascii) (s : string) :
  Forall (fun w => Forall (fun c => c ≠ sep) (String.list_ascii_of_string w)) (Split sep s).
Proof.
  induction s as [|c s IH]; [by repeat constructor|].
  cbn [Split]. destruct (Ascii.eqb_spec c sep) as [->|Hc].
  - by constructor.
  - destruct (Split sep s) as [|w ws]; [by repeat constructor|].
    apply Forall_cons in IH as [Hw Hws]. constructor; [|done].
    by constructor.
Qed.

Lemma Split_token (sep : ascii) (w rest : string) :
  Forall (fun c => c ≠ sep) (String.list_ascii_of_string w) →
  Split sep (w +:+ String sep rest) = w :: Split sep rest.
Proof.
  induction w as [|c w IH]; intros Hw.
  - change ("" +:+ String sep rest) with (String sep rest).
    cbn [Split]. by rewrite Ascii.eqb_refl.
  - apply Forall_cons in Hw as [Hc Hw].
    change (String c w +:+ String sep rest) with (String c (w +:+ String sep rest)).
    cbn [Split]. destruct (Ascii.eqb_spec c sep) as [?|_]; [done|].
    by rewrite (IH Hw).
Qed.

Lemma Split_last (sep : ascii) (w : string) :
  Forall (fun c => c ≠ sep) (String.list_ascii_of_string w) → Split sep w = [w].
Proof.
  induction w as [|c w IH]; intros Hw; [done|].
  apply Forall_cons in Hw as [Hc Hw]. cbn [Split].
  destruct (Ascii.eqb_spec c sep) as [?|_]; [done|]. by rewrite (IH Hw).
Qed.

Lemma Split_Join (sep : ascii) (ws : list string) :
  ws ≠ [] → Forall (fun w => Forall (fun c => c ≠ sep) (String.list_ascii_of_string w)) ws →
  Split sep (Join (String sep "") ws) = ws.
Proof.
  intros Hne Hws. induction Hws as [|w ws Hw Hws IH]; [done|].
  destruct ws as [|w' ws].
  - by apply Split_last.
  - change (Join (String sep "") (w :: w' :: ws))
      with (w +:+ String sep (Join (String sep "") (w' :: ws))).
    rewrite (Split_token sep w _ Hw). f_equal. by apply IH.
Qed.

Lemma TrimStart_length (s : string) :
  (String.length (TrimStart s) ≤ String.length s)%nat.
Proof.
  induction s as [|c s IH]; [done|]. cbn [TrimStart].
  destruct (IsWhiteSpace c); simpl; lia.
Qed.

Lemma TrimEnd_length (s : string) :
  (String.length (TrimEnd s) ≤ String.length s)%nat.
Proof.
  induction s as [|c s IH]; [done|]. cbn [TrimEnd].
  destruct (TrimEnd s); [destruct (IsWhiteSpace c)|]; simpl in *; lia.
Qed.

Lemma TrimEnd_idem (s : string) : TrimEnd (TrimEnd s) = TrimEnd s.
Proof.
  induction s as [|c s IH]; [done|]. cbn [TrimEnd].
  destruct (TrimEnd s) as [|c' t] eqn:Ht.
  - destruct (IsWhiteSpace c) eqn:Hc; [done|]. cbn [TrimEnd]. by rewrite Hc.
  - cbn [TrimEnd] in IH |- *. by rewrite IH.
Qed.

Lemma TrimStart_solid (s : string) : solid_start (TrimStart s).
Proof.
  induction s as [|c s IH]; [done|]. cbn [TrimStart].
  by destruct (IsWhiteSpace c) eqn:Hc.
Qed.

Lemma solid_start_TrimStart (s : string) : solid_start s → TrimStart s = s.
Proof. destruct s as [|c s]; [done|]. simpl. by intros ->. Qed.

Lemma TrimEnd_solid_start (s : string) : solid_start s → solid_start (TrimEnd s).
Proof.
  destruct s as [|c s]; [done|]. cbn [TrimEnd solid_start]. intros Hc.
  destruct (TrimEnd s); by rewrite ?Hc.
Qed.

Lemma Trim_idem (s : string) : Trim (Trim s) = Trim s.
Proof.
  unfold Trim.
  rewrite (solid_start_TrimStart (TrimEnd (TrimStart s))).
  - apply TrimEnd_idem.
  - apply TrimEnd_solid_start, TrimStart_solid.
Qed.

Lemma TrimStart_chars (P : ascii → Prop) (s : string) :
  Forall P (String.list_ascii_of_string s) → Forall P (String.list_ascii_of_string (TrimStart s)).
Proof.
  induction s as [|c s IH]; [done|]. intros Hs. cbn [TrimStart].
  destruct (IsWhiteSpace c); [|done]. apply IH. by apply Forall_cons in Hs as [_ ?].
Qed.

Lemma TrimEnd_chars (P : ascii → Prop) (s : string) :
  Forall P (String.list_ascii_of_string s) → Forall P (String.list_ascii_of_string (TrimEnd s)).
Proof.
  induction s as [|c s IH]; [done|]. intros [Hc Hs]%Forall_cons. cbn [TrimEnd].
  specialize (IH Hs).
  destruct (TrimEnd s) as [|a t]; [destruct (IsWhiteSpace c)|];
    cbn [String.list_ascii_of_string] in IH |- *.
  - constructor.
  - by repeat constructor.
  - by constructor.
Qed.

Lemma clean_solid_start (m : string) : clean m → ∃ c m', m = String c m' ∧ IsWhiteSpace c = false.
Proof.
  intros (Hne & _ & Htrim). destruct m as [|c m']; [done|].
  exists c, m'. split; [done|].
  destruct (IsWhiteSpace c) eqn:Hc; [|done]. exfalso.
  apply (f_equal String.length) in Htrim. unfold Trim in Htrim.
  cbn [TrimStart] in Htrim. rewrite Hc in Htrim.
  pose proof (TrimEnd_length (TrimStart m')). pose proof (TrimStart_length m').
  simpl in Htrim. lia.
Qed.

Lemma IsNullOrEmpty_false (m : string) : m ≠ "" → negb (IsNullOrEmpty m) = true.
Proof. by destruct m. Qed.

(** X14.  Every move [ParseSolution] returns is clean: not empty, free of
    spaces, with no white space left to trim. *)
Theorem ParseSolution_clean (solutionString : string) :
  Forall clean (ParseSolution solutionString).
Proof.
  unfold ParseSolution. destruct (IsNullOrWhiteSpace solutionString); [done|].
  apply Forall_forall. intros m [Hm Hin]%list_elem_of_filter.
  apply list_elem_of_fmap in Hin as (w & -> & [_ Hw]%list_elem_of_filter).
  pose proof (Split_no_sep " "%char solutionString) as Hsplit.
  rewrite Forall_forall in Hsplit. specialize (Hsplit w Hw).
  split_and!.
  - by destruct (Trim w).
  - by apply TrimEnd_chars, TrimStart_chars.
  - apply Trim_idem.
Qed.

(** X15.  Joining clean moves with single spaces and parsing the result
    gives the moves back; in particular parsing what [ParseSolution]
    returned, joined, changes nothing. *)
Theorem ParseSolution_Join (moves : list string) :
  Forall clean moves → ParseSolution (Join " " moves) = moves.
Proof.
  intros Hclean. unfold ParseSolution.
  destruct moves as [|m moves]; [done|].
  assert (IsNullOrWhiteSpace (Join " " (m :: moves)) = false) as ->.
  { apply Forall_cons in Hclean as [(c & m' & -> & Hc)%clean_solid_start _].
    destruct moves; simpl; by rewrite Hc. }
  rewrite (Split_Join " "%char (m :: moves)); [|done|].
  - assert (∀ l, Forall clean l →
              filter (λ m0, negb (IsNullOrEmpty m0)) l = l) as Hfilter.
    { induction 1 as [|x l [Hx _] _ IH]; [done|].
      rewrite filter_cons_True; [by rewrite IH|].
      by rewrite IsNullOrEmpty_false. }
    rewrite (Hfilter _ Hclean).
    assert (Trim <$> (m :: moves) = m :: moves) as ->; [|by apply Hfilter].
    clear Hfilter. induction Hclean as [|x l (_ & _ & Hx) _ IH]; [done|].
    by rewrite fmap_cons, Hx, IH.
  - eapply Forall_impl; [exact Hclean|]. by intros x (_ & ? & _).
Qed.

Lemma ParseSolution_Join_witness :
  ParseSolution (Join " " ["U"; "R2"; "F'"]) = ["U"; "R2"; "F'"].
Proof.
  apply (ParseSolution_Join ["U"; "R2"; "F'"]).
  repeat constructor; done.
Defined.

(** ** The validation message *)

Lemma Join_empty (sep : string) (items : list string) :
  Forall (fun x => x ≠ "") items → Join sep items = "" → items = [].
Proof.
  intros Hitems. destruct Hitems as [|x items Hx _]; [done|].
  unfold Join. cbn [String.concat].
  destruct x as [|c x]; [done|]. by destruct items.
Qed.

Lemma message_part_nonempty (c : ascii) (label sep : string) (items : list string) :
  Forall (fun x => x ≠ "") (message_part (String c label) sep items).
Proof.
  unfold message_part. destruct (0 <? length items)%nat; by repeat constructor.
Qed.

Lemma message_part_nil (label sep : string) (items : list string) :
  message_part label sep items = [] ↔ (0 <? length items)%nat = false.
Proof. unfold message_part. by destruct (0 <? length items)%nat. Qed.

(** X16.  The detailed message is empty exactly when the result has no
    issues.  [ValidateState] hands out a result only when it has issues,
    so the error [Solve] writes for a rejected state always names at
    least one problem. *)
Theorem GetDetailedMessage_empty_iff (r : ValidationResult) :
  (GetDetailedMessage r = "" ↔ HasIssues r = false) ∧
  (∀ compareTo s,
     ValidateState compareTo s = Ok (Some r) → GetDetailedMessage r ≠ "").
Proof.
  assert (GetDetailedMessage r = "" ↔ HasIssues r = false) as Hiff.
  { change (GetDetailedMessage r) with
      (Join ". " (message_part "Invalid edges: " "; " (InvalidEdges r) ++
                  message_part "Missing edges: " ", " (MissingEdges r) ++
                  message_part "Duplicate edges: " "; " (DuplicateEdges r) ++
                  message_part "Invalid corners: " "; " (InvalidCorners r) ++
                  message_part "Missing corners: " ", " (MissingCorners r) ++
                  message_part "Duplicate corners: " "; " (DuplicateCorners r))).
    unfold HasIssues. rewrite !orb_false_iff. split.
    - intros Hempty%Join_empty.
      + repeat (apply app_eq_nil in Hempty as [?%message_part_nil Hempty]).
        apply message_part_nil in Hempty. done.
      + repeat (apply Forall_app; split); apply message_part_nonempty.
    - intros (((((Hme & Hde) & Hie) & Hmc) & Hdc) & Hic).
      apply message_part_nil with (label := "Invalid edges: ") (sep := "; ") in Hie.
      apply message_part_nil with (label := "Missing edges: ") (sep := ", ") in Hme.
      apply message_part_nil with (label := "Duplicate edges: ") (sep := "; ") in Hde.
      apply message_part_nil with (label := "Invalid corners: ") (sep := "; ") in Hic.
      apply message_part_nil with (label := "Missing corners: ") (sep := ", ") in Hmc.
      apply message_part_nil with (label := "Duplicate corners: ") (sep := "; ") in Hdc.
      by rewrite Hie, Hme, Hde, Hic, Hmc, Hdc. }
  split; [done|]. intros compareTo s Hv Hmsg. apply Hiff in Hmsg.
  unfold ValidateState in Hv.
  destruct (foreach (count_edge compareTo s) edgePositions (∅, []))
    as [[edgeCounts invalidEdges]|]; [|done].
  cbn [mbind Result_bind] in Hv.
  destruct (foreach (check_edge edgeCounts) validEdges ([], []))
    as [[missingEdges duplicateEdges]|]; [|done].
  cbn [mbind Result_bind] in Hv.
  destruct (foreach (count_corner compareTo s) cornerPositions (∅, []))
    as [[cornerCounts invalidCorners]|]; [|done].
  cbn [mbind Result_bind] in Hv.
  destruct (foreach (check_corner cornerCounts) validCorners ([], []))
    as [[missingCorners duplicateCorners]|]; [|done].
  cbn [mbind Result_bind] in Hv.
  cbv zeta in Hv.
  match type of Hv with
  | Ok (if HasIssues ?res then _ else _) = _ =>
      destruct (HasIssues res) eqn:Hissues; [|done]
  end.
  injection Hv as <-. congruence.
Qed.

(** ** [verify] off the 54-character strings *)

Lemma foreach_app {A S : Type} (body : S → A → Result S) (l1 l2 : list A) (st : S) :
  foreach body (l1 ++ l2) st = foreach body l1 st ≫= foreach body l2.
Proof.
  revert st. induction l1 as [|a l1 IH]; intros st; [done|].
  cbn [app foreach]. destruct (body st a) as [st'|ex]; [|done].
  cbn [mbind Result_bind]. apply IH.
Qed.

Lemma get_past_end (s : string) (n : nat) :
  (String.length s ≤ n)%nat → String.get n s = None.
Proof.
  revert n. induction s as [|c s IH]; intros n Hn; [by destruct n|].
  destruct n as [|n]; simpl in *; [lia|]. apply IH. lia.
Qed.

(** X17.  On a string of fewer than 54 characters [verify] answers -1: the
    read past the end throws inside the [try], whatever the characters
    before it and whatever the cubie-level check would say. *)
Theorem verify_too_short (cubie_verify : string → Z) (s : string) :
  (String.length s < 54)%nat → verify cubie_verify s = (-1)%Z.
Proof.
  intros Hlen. unfold verify, count_colors.
  replace 54%nat with (String.length s + S (53 - String.length s))%nat by lia.
  rewrite seq_app, foreach_app.
  destruct (foreach _ (seq 0 (String.length s)) _) as [count|ex]; [|done].
  cbn [mbind Result_bind seq foreach]. unfold Chars.
  rewrite (get_past_end s (0 + String.length s)) by lia. done.
Qed.

Lemma count_colors_prefix (p t : string) :
  String.length p = 54%nat → count_colors (p +:+ t) = count_colors p.
Proof.
  intros Hlen. unfold count_colors. apply foreach_ext.
  intros i count Hi%elem_of_seq. unfold Chars.
  rewrite <-(String.append_correct1 p t i) by lia. done.
Qed.

Lemma count_colors_nine (s : string) :
  String.length s = 54%nat →
  nine_of_each s ↔
  ∃ count, count_colors s = Ok count ∧ forallb (fun n => (n =? 9)%Z) count = true.
Proof.
  intros Hlen. rewrite (count_colors_chars s Hlen). split.
  - intros (cs & Hcs & Hnine).
    destruct (count_colors_parsed _ cs (replicate 6 0%Z) eq_refl Hcs)
      as (count & Hloop & Hlen' & Hslots).
    exists count. split; [done|]. apply (all_nine_slots count Hlen').
    intros c. rewrite Hslots, Hnine. by destruct c.
  - intros (count & Hloop & Hnine).
    destruct (count_colors_Ok _ (replicate 6 0%Z) count eq_refl Hloop) as [cs Hcs].
    destruct (count_colors_parsed _ cs (replicate 6 0%Z) eq_refl Hcs)
      as (count' & Hloop' & Hlen' & Hslots).
    rewrite Hloop in Hloop'. injection Hloop' as <-.
    exists cs. split; [done|]. intros c.
    apply (all_nine_slots count Hlen') with (c := c) in Hnine.
    rewrite Hslots in Hnine. destruct c; simpl in Hnine; injection Hnine; lia.
Qed.

(** X18.  [verify] counts the first 54 characters only.  When they are
    nine of each color, the answer is that of the cubie-level check on the
    whole string, whatever follows; when they are not, the answer is -1. *)
Theorem verify_prefix (cubie_verify : string → Z) (p t : string) :
  String.length p = 54%nat →
  (nine_of_each p → verify cubie_verify (p +:+ t) = cubie_verify (p +:+ t)) ∧
  (¬ nine_of_each p → verify cubie_verify (p +:+ t) = (-1)%Z).
Proof.
  intros Hlen. unfold verify. rewrite (count_colors_prefix p t Hlen).
  rewrite (count_colors_nine p Hlen). split.
  - intros (count & -> & ->). done.
  - intros Hnot. destruct (count_colors p) as [count|]; [|done].
    destruct (forallb _ count) eqn:Hnine; [|done].
    destruct Hnot. by exists count.
Qed.

Lemma verify_too_short_witness : verify accepting_check "UUU" = (-1)%Z.
Proof. apply (verify_too_short accepting_check "UUU"). simpl. lia. Defined.

Lemma verify_prefix_witness :
  (nine_of_each solved_names →
   verify accepting_check (solved_names +:+ "X") =
   accepting_check (solved_names +:+ "X")) ∧
  (¬ nine_of_each solved_names →
   verify accepting_check (solved_names +:+ "X") = (-1)%Z).
Proof. apply (verify_prefix accepting_check solved_names "X"). reflexivity. Defined.

(** ** The fast path, the engine's input, the controller *)

Section SolveAndController.

Variable compareTo : string → string → comparison.
Variable StartsWith : string → string → bool.
Variable solution : string → Z → Z → bool → bool → Result (option string).
Variable ElapsedMilliseconds : Z.

(** X19.  [Solve] answers "already solved" without calling the search
    engine for the solved layout and for no other state: a response
    without error after a run whose only call is [ToKociembaString] means
    the state is the solved layout, sizes included. *)
Theorem Solve_fast_path_iff (state : CubeState) :
  alphabetical compareTo →
  (∃ r, Solve compareTo StartsWith solution ElapsedMilliseconds state = (mkWorld r [CallToKociembaString], Ok r) ∧ Error r = None) ↔
  state = solved_layout.
Proof.
  intros Hcmp. split.
  - intros (r & Hrun & Hr).
    destruct (ValidateState compareTo state) as [[v|]|ex] eqn:Hv.
    + rewrite (Solve_invalid compareTo StartsWith solution ElapsedMilliseconds
                 state v Hv) in Hrun. done.
    + destruct (ToKociembaString state) as [k|ex] eqn:Hk.
      * destruct (decide (k = solved_string)) as [->|Hne].
        { by apply (solved_string_only_solved compareTo). }
        rewrite (Solve_searches compareTo StartsWith solution ElapsedMilliseconds
                   state k Hv Hk Hne) in Hrun. done.
      * rewrite (Solve_conversion_throws compareTo StartsWith solution
                   ElapsedMilliseconds state ex Hv Hk) in Hrun.
        injection Hrun as <-. done.
    + rewrite (Solve_validation_throws compareTo StartsWith solution
                 ElapsedMilliseconds state ex Hv) in Hrun. done.
  - intros ->. exists (mkSolveResponse [] 0 ElapsedMilliseconds None).
    split; [|done].
    apply Solve_already_solved; [by apply ValidateState_solved|by vm_compute].
Qed.

(** X20.  What reaches the search engine: the state passed validation, and
    the engine gets its Kociemba string, which is not the solved one, is
    written in the six face letters and has at least 54 characters, one
    per sticker; the limits are always depth 22 and 10000 milliseconds. *)
Theorem Solve_engine_input (state : CubeState) (facelets : string)
    (maxDepth timeOut : Z) (useSeparator buildTables : bool) :
  CallSolution facelets maxDepth timeOut useSeparator buildTables
    ∈ calls (Solve compareTo StartsWith solution ElapsedMilliseconds state).1 →
  ValidateState compareTo state = Ok None ∧
  ToKociembaString state = Ok facelets ∧
  facelets ≠ solved_string ∧
  Forall (fun ch => ch ∈ face_letters) (String.list_ascii_of_string facelets) ∧
  String.length facelets = length (stickers_of state) ∧
  (54 ≤ String.length facelets)%nat ∧
  (maxDepth, timeOut, useSeparator, buildTables) = (22%Z, 10000%Z, false, false).
Proof.
  intros Hcall.
  destruct (Solve_cases compareTo StartsWith solution ElapsedMilliseconds state)
    as [(v & _ & Hrun)|[(ex & cs & Hcs & Hrun)|[(_ & Hrun)|(k & Hv & Hk & Hne & Hrun)]]];
    rewrite Hrun in Hcall; cbn [fst calls] in Hcall.
  - by apply elem_of_nil in Hcall.
  - apply Hcs in Hcall. by apply list_elem_of_singleton in Hcall.
  - by apply list_elem_of_singleton in Hcall.
  - unfold search_calls in Hcall.
    apply elem_of_cons in Hcall as [?|Hcall]; [done|].
    apply list_elem_of_singleton in Hcall. injection Hcall as -> -> -> -> ->.
    pose proof (ToKociembaString_inv state k Hk) as (cu & cr & cf & cd & cl & cb & ->).
    pose proof (ValidateState_Ok_faces _ _ _ Hv) as Hfaces.
    rewrite ToKociembaString_painted in Hk. injection Hk as <-.
    split_and!; try done.
    + by rewrite ToKociembaString_painted.
    + unfold letters. rewrite String.list_ascii_of_string_of_list_ascii.
      apply Forall_fmap, Forall_forall. intros c _.
      unfold compose. destruct c; by apply (bool_decide_unpack _).
    + by rewrite letters_length, painted_stickers, length_fmap.
    + rewrite letters_length, !length_app.
      unfold all_faces, painted in Hfaces. simpl in Hfaces.
      repeat match goal with
             | H : Forall _ (_ :: _) |- _ =>
                 apply Forall_cons in H as [(? & [= <-] & ?) H]
             end.
      rewrite !length_fmap in *. lia.
Qed.

(** X21.  The controller answers 400 for a request without a state, and
    for that request only; every other request, a rejected cube included,
    gets 200 with the response of [Solve].  No exception leaves it. *)
Theorem Solve_action_cases (State : option CubeState) :
  (State = None ∧
   Controllers.Solve_action compareTo StartsWith solution ElapsedMilliseconds State =
   Ok (Controllers.BadRequest (mkSolveResponse [] 0 0 (Some "State is required")))) ∨
  (∃ state w response,
     State = Some state ∧ Solve compareTo StartsWith solution ElapsedMilliseconds state = (w, Ok response) ∧
     Controllers.Solve_action compareTo StartsWith solution ElapsedMilliseconds State =
     Ok (Controllers.OkResult response)).
Proof.
  destruct State as [state|]; [right|by left].
  unfold Controllers.Solve_action.
  destruct (Solve_cases compareTo StartsWith solution ElapsedMilliseconds state)
    as [(? & _ & Hrun)|[(? & ? & _ & Hrun)|[(_ & Hrun)|(? & _ & _ & _ & Hrun)]]];
    rewrite Hrun; by do 3 eexists.
Qed.

End SolveAndController.

Lemma Solve_fast_path_iff_witness :
  (∃ r, Solve String.compare ordinal_StartsWith failing_engine 3 up_turned_layout =
        (mkWorld r [CallToKociembaString], Ok r) ∧ Error r = None) ↔
  up_turned_layout = solved_layout.
Proof.
  apply (Solve_fast_path_iff String.compare ordinal_StartsWith failing_engine 3
           up_turned_layout).
  exact ordinal_alphabetical.
Defined.

Lemma Solve_engine_input_witness :
  ValidateState String.compare up_turned_layout = Ok None ∧
  ToKociembaString up_turned_layout = Ok up_turned_string ∧
  up_turned_string ≠ solved_string ∧
  Forall (fun ch => ch ∈ face_letters)
         (String.list_ascii_of_string up_turned_string) ∧
  String.length up_turned_string = length (stickers_of up_turned_layout) ∧
  (54 ≤ String.length up_turned_string)%nat ∧
  (22%Z, 10000%Z, false, false) = (22%Z, 10000%Z, false, false).
Proof.
  apply (Solve_engine_input String.compare ordinal_StartsWith timing_out_engine 3
           up_turned_layout up_turned_string 22 10000 false false).
  vm_compute. apply list_elem_of_further, list_elem_of_here.
Defined.

(** ** States the page can reach *)

Lemma face_uniform (a : RubiksCube.stickers) (c : nstring) :
  length a = 9%nat → RubiksCube.read a 4 = c →
  forallb (fun sticker => bool_decide (sticker = RubiksCube.read a 4)) a = true ↔
  a = replicate 9 c.
Proof.
  intros Hlen Hc. rewrite Hc. split.
  - intros Hall. rewrite <-Hlen. symmetry. apply replicate_as_Forall.
    split; [done|]. apply Forall_forall. intros x Hx%list_elem_of_In.
    rewrite forallb_forall in Hall. specialize (Hall x Hx).
    by apply bool_decide_eq_true in Hall.
  - intros ->. apply forallb_forall.
    intros x [-> _]%list_elem_of_In%elem_of_replicate.
    by apply bool_decide_eq_true.
Qed.

Lemma isSolved_initial (state : RubiksCube.CubeState) :
  RubiksCube.nine_each state →
  RubiksCube.centers state = RubiksCube.centers RubiksCube.createInitialState →
  RubiksCube.isSolved state = true ↔ state = RubiksCube.createInitialState.
Proof.
  intros (Hu & Hd & Hf & Hb & Hr & Hl) Hcenters.
  unfold RubiksCube.centers in Hcenters.
  injection Hcenters as Hcu Hcd Hcf Hcb Hcr Hcl.
  unfold RubiksCube.isSolved. cbn [forallb]. rewrite !andb_true_iff.
  rewrite (face_uniform _ _ Hu Hcu), (face_uniform _ _ Hd Hcd),
    (face_uniform _ _ Hf Hcf), (face_uniform _ _ Hb Hcb),
    (face_uniform _ _ Hr Hcr), (face_uniform _ _ Hl Hcl).
  destruct state as [u d f b r l]. simpl. split.
  - by intros (-> & -> & -> & -> & -> & -> & _).
  - by intros [= -> -> -> -> -> ->].
Qed.

Lemma wire_inj : Inj (=) (=) RubiksCube.wire.
Proof. intros [] [] [= -> -> -> -> -> ->]. done. Qed.

Lemma Enum_Parse_letter (c : Color) :
  Enum_Parse (letter_of c) = Ok (CubeColor.to_int (cube_color c)).
Proof. by destruct c. Qed.

Lemma letters_parse (cs : list Color) : parses_to (letters cs) (cube_color <$> cs).
Proof.
  unfold parses_to, letters. rewrite String.list_ascii_of_string_of_list_ascii.
  induction cs as [|c cs IH]; [constructor|].
  rewrite !fmap_cons. constructor; [apply Enum_Parse_letter|done].
Qed.

Lemma cube_color_inj : Inj (=) (=) cube_color.
Proof. intros [] []; done. Qed.

Lemma occ_count_color (c : Color) (cs : list Color) :
  occ (cube_color c) (cube_color <$> cs) = count_color c (paint <$> cs).
Proof.
  unfold occ, count_color. induction cs as [|c' cs IH]; [done|].
  rewrite !fmap_cons, !filter_cons.
  destruct (decide (c' = c)) as [->|Hne].
  - rewrite !decide_True by done. simpl. by rewrite IH.
  - rewrite !decide_False; [done|..].
    + by intros ?%paint_inj.
    + by intros ?%cube_color_inj.
Qed.

Lemma count_color_Permutation (c : Color) (l l' : list nstring) :
  l ≡ₚ l' → count_color c l = count_color c l'.
Proof. unfold count_color. by intros ->. Qed.

(** Nine stickers of each color make nine facelets of each face letter. *)
Lemma letters_nine_of_each (cs : list Color) :
  (∀ c, count_color c (paint <$> cs) = 9%nat) → nine_of_each (letters cs).
Proof.
  intros Hnine. exists (cube_color <$> cs). split; [apply letters_parse|].
  intros c'.
  assert (∃ c, c' = cube_color c) as [c ->].
  { destruct c'; [by exists White|by exists Red|by exists Green
                 |by exists Yellow|by exists Orange|by exists Blue]. }
  by rewrite occ_count_color.
Qed.

Lemma initial_count (c : Color) :
  count_color c (stickers_of (RubiksCube.wire RubiksCube.createInitialState)) = 9%nat.
Proof. by destruct c; vm_compute. Qed.

Lemma initial_recognized :
  Forall recognized (stickers_of (RubiksCube.wire RubiksCube.createInitialState)).
Proof. apply (bool_decide_unpack _). vm_compute. reflexivity. Qed.

Lemma initial_nine_each : RubiksCube.nine_each RubiksCube.createInitialState.
Proof. by repeat split. Qed.

(** What the server finds in a state the page reached from the initial
    one. *)
Lemma reachable_facts compareTo (moves : list string) (state : RubiksCube.CubeState) :
  alphabetical compareTo →
  RubiksCube.updateStates moves RubiksCube.createInitialState = Some state →
  ValidateState compareTo (RubiksCube.wire state) = Ok None ∧
  well_formed (RubiksCube.wire state) = true ∧
  ∃ k, ToKociembaString (RubiksCube.wire state) = Ok k ∧
       String.length k = 54%nat ∧ nine_of_each k ∧
       (k = solved_string ↔ RubiksCube.isSolved state = true).
Proof.
  intros Hcmp Hrun.
  destruct (updateStates_keeps compareTo moves _ state Hcmp initial_nine_each
              initial_recognized Hrun) as (Hnine & Hcenters & Hperm & Hverdict).
  pose proof (proj1 (wire_well_formed state) Hnine) as Hwf.
  assert (Forall recognized (stickers_of (RubiksCube.wire state))) as Hrec.
  { rewrite Hperm. apply initial_recognized. }
  destruct (recognized_painted _ (well_formed_faces _ Hwf) Hrec)
    as (cu & cr & cf & cd & cl & cb & Hpainted).
  split_and!; [|done|].
  - apply Hverdict. by apply (ValidateState_solved compareTo).
  - exists (letters (cu ++ cr ++ cf ++ cd ++ cl ++ cb)).
    rewrite Hpainted, ToKociembaString_painted. split_and!; [done|..].
    + rewrite letters_length, <-(length_fmap paint), <-painted_stickers, <-Hpainted.
      by rewrite Hperm.
    + apply letters_nine_of_each. intros c.
      rewrite <-painted_stickers, <-Hpainted.
      rewrite (count_color_Permutation c _ _ Hperm). apply initial_count.
    + rewrite (isSolved_initial state Hnine Hcenters). split.
      * intros Hk. apply wire_inj. rewrite Hpainted.
        change (RubiksCube.wire RubiksCube.createInitialState) with solved_layout.
        rewrite solved_layout_painted. apply painted_letters_inj; [by rewrite <-Hpainted|done|].
        by rewrite Hk.
      * intros ->.
        assert (ToKociembaString (RubiksCube.wire RubiksCube.createInitialState) =
                Ok solved_string) as Hk by (by vm_compute).
        rewrite Hpainted, ToKociembaString_painted in Hk. by injection Hk.
Qed.

(** X22.  The page's [isSolved] compares every sticker with the center of
    its face.  On a state of nine-sticker faces whose centers show the
    home colors, as they do in every state the page reaches, it agrees
    with the server's [IsSolved] on the state as sent. *)
Theorem isSolved_home (state : RubiksCube.CubeState) :
  RubiksCube.nine_each state →
  RubiksCube.centers state = RubiksCube.centers RubiksCube.createInitialState →
  RubiksCube.isSolved state = true ↔ IsSolved (RubiksCube.wire state) = Ok true.
Proof.
  intros Hnine Hcenters.
  rewrite (isSolved_initial state Hnine Hcenters).
  rewrite (IsSolved_well_formed _ (proj1 (wire_well_formed state) Hnine)).
  split; [by intros ->|]. intros Hwire. by apply wire_inj.
Qed.

(** X23.  Whatever moves the page has played from its initial state, the
    state it sends passes the server's validation and converts to a
    54-letter string with nine facelets of each face letter, so [verify]
    hands it on to the cubie-level check; and the string is the solved one
    exactly when the page's own [isSolved] says so. *)
Theorem reachable_state_accepted compareTo (cubie_verify : string → Z)
    (moves : list string) (state : RubiksCube.CubeState) :
  alphabetical compareTo →
  RubiksCube.updateStates moves RubiksCube.createInitialState = Some state →
  ValidateState compareTo (RubiksCube.wire state) = Ok None ∧
  ∃ k, ToKociembaString (RubiksCube.wire state) = Ok k ∧
       String.length k = 54%nat ∧ nine_of_each k ∧
       verify cubie_verify k = cubie_verify k ∧
       (k = solved_string ↔ RubiksCube.isSolved state = true).
Proof.
  intros Hcmp Hrun.
  destruct (reachable_facts compareTo moves state Hcmp Hrun)
    as (Hv & _ & k & Hk & Hlen & Hnine & Hsolved).
  split; [done|]. exists k. split_and!; try done.
  unfold verify.
  apply (count_colors_nine k Hlen) in Hnine as (count & -> & ->). done.
Qed.

Section ReachableSolve.

Variable compareTo : string → string → comparison.
Variable StartsWith : string → string → bool.
Variable solution : string → Z → Z → bool → bool → Result (option string).
Variable ElapsedMilliseconds : Z.

(** X24.  For a state the page reached from its initial state, [Solve]
    never answers with a validation or conversion error: it answers
    "already solved" when the page's [isSolved] holds, and otherwise hands
    a string with nine facelets of each letter to the search engine and
    answers with what it makes of the engine's result. *)
Theorem Solve_reachable (moves : list string) (state : RubiksCube.CubeState) :
  alphabetical compareTo →
  RubiksCube.updateStates moves RubiksCube.createInitialState = Some state →
  ∃ k, ToKociembaString (RubiksCube.wire state) = Ok k ∧ nine_of_each k ∧
       Solve compareTo StartsWith solution ElapsedMilliseconds (RubiksCube.wire state) =
       if RubiksCube.isSolved state
       then (mkWorld (mkSolveResponse [] 0 ElapsedMilliseconds None)
                     [CallToKociembaString],
             Ok (mkSolveResponse [] 0 ElapsedMilliseconds None))
       else (mkWorld (after_search StartsWith ElapsedMilliseconds
                        (solution k 22 10000 false false)) (search_calls k),
             Ok (after_search StartsWith ElapsedMilliseconds
                   (solution k 22 10000 false false))).
Proof.
  intros Hcmp Hrun.
  destruct (reachable_facts compareTo moves state Hcmp Hrun)
    as (Hv & _ & k & Hk & _ & Hnine & Hsolved).
  exists k. split_and!; [done..|].
  destruct (RubiksCube.isSolved state).
  - apply Solve_already_solved; [done|]. rewrite Hk. f_equal. by apply Hsolved.
  - apply Solve_searches; [done..|]. intros Heq%Hsolved. done.
Qed.

End ReachableSolve.

Lemma isSolved_home_witness :
  RubiksCube.isSolved RubiksCube.createInitialState = true ↔
  IsSolved (RubiksCube.wire RubiksCube.createInitialState) = Ok true.
Proof.
  apply (isSolved_home RubiksCube.createInitialState).
  - by repeat split.
  - reflexivity.
Defined.

Lemma reachable_state_accepted_witness :
  ValidateState String.compare (RubiksCube.wire sample_state) = Ok None ∧
  ∃ k, ToKociembaString (RubiksCube.wire sample_state) = Ok k ∧
       String.length k = 54%nat ∧ nine_of_each k ∧
       verify accepting_check k = accepting_check k ∧
       (k = solved_string ↔ RubiksCube.isSolved sample_state = true).
Proof.
  apply (reachable_state_accepted String.compare accepting_check sample_moves
           sample_state).
  - exact ordinal_alphabetical.
  - vm_compute. reflexivity.
Defined.

Lemma Solve_reachable_witness :
  ∃ k, ToKociembaString (RubiksCube.wire sample_state) = Ok k ∧ nine_of_each k ∧
       Solve String.compare ordinal_StartsWith timing_out_engine 3
             (RubiksCube.wire sample_state) =
       if RubiksCube.isSolved sample_state
       then (mkWorld (mkSolveResponse [] 0 3 None) [CallToKociembaString],
             Ok (mkSolveResponse [] 0 3 None))
       else (mkWorld (after_search ordinal_StartsWith 3
                        (timing_out_engine k 22 10000 false false))
                     (search_calls k),
             Ok (after_search ordinal_StartsWith 3
                   (timing_out_engine k 22 10000 false false))).
Proof.
  apply (Solve_reachable String.compare ordinal_StartsWith timing_out_engine 3
           sample_moves sample_state).
  - exact ordinal_alphabetical.
  - vm_compute. reflexivity.
Defined.

(** ** Color counts of an accepted layout *)

Lemma count_color_app (c : Color) (l l' : list nstring) :
  count_color c (l ++ l') = (count_color c l + count_color c l')%nat.
Proof. unfold count_color. by rewrite filter_app, length_app. Qed.

Lemma count_color_delete (c : Color) (l : list (list nstring)) (n : nat)
    (y : list nstring) :
  l !! n = Some y →
  count_color c (concat l) =
  (count_color c y + count_color c (concat (delete n l)))%nat.
Proof.
  revert n. induction l as [|z l IH]; intros n Hn; [done|].
  destruct n as [|n].
  - injection Hn as ->. cbn [concat]. by rewrite count_color_app.
  - change (delete (S n) (z :: l)) with (z :: delete n l).
    cbn [concat]. rewrite !count_color_app, (IH n Hn). lia.
Qed.

Lemma same_pieces_concat (c : Color) (l l2 : list (list nstring)) :
  same_pieces l l2 → count_color c (concat l) = count_color c (concat l2).
Proof.
  induction 1 as [|x y l l2 n Hn Hxy _ IH]; [done|].
  rewrite (count_color_delete c l2 n y Hn). cbn [concat].
  by rewrite count_color_app, IH, (count_color_Permutation c x y Hxy).
Qed.

Lemma paint_Permutation (p q : list Color) :
  paint <$> p ≡ₚ paint <$> q → p ≡ₚ q.
Proof.
  intros Hperm. apply (fmap_Permutation (fun x => default White
    (list_find (fun c => paint c = x) colors ≫= fun y => Some y.2))) in Hperm.
  rewrite <-!list_fmap_compose in Hperm.
  assert (∀ l : list Color,
            (fun x => default White
               (list_find (fun c => paint c = x) colors ≫= fun y => Some y.2))
            ∘ paint <$> l = l) as Hid.
  { intros l. rewrite <-(list_fmap_id l) at 2. apply list_fmap_ext.
    intros _ c _. by destruct c. }
  by rewrite !Hid in Hperm.
Qed.

(** Pieces that each occur once in a list of as many positions fill it. *)
Lemma once_same_pieces (pieces : list (list Color)) (E : list (list nstring)) :
  distinct_pieces pieces →
  (∀ q, q ∈ pieces → length (filter (occurs q) E) = 1%nat) →
  length E = length pieces →
  same_pieces ((fun p : list Color => paint <$> p) <$> pieces) E.
Proof.
  revert E. induction pieces as [|q pieces IH]; intros E Hdistinct Honce Hlen.
  - destruct E; [constructor|done].
  - destruct Hdistinct as [Hq Hdistinct]. rewrite Forall_forall in Hq.
    assert (∃ y, y ∈ filter (occurs q) E) as [y [Hy [n Hn]%list_elem_of_lookup]%list_elem_of_filter].
    { specialize (Honce q (list_elem_of_here _ _)).
      destruct (filter (occurs q) E) as [|y ?]; [done|].
      exists y. apply list_elem_of_here. }
    rewrite fmap_cons. apply (same_pieces_cons _ y _ _ n); [done|by symmetry|].
    apply IH; [done| |].
    + intros p Hp.
      pose proof (Honce p (list_elem_of_further _ _ _ Hp)) as Hone.
      rewrite (length_filter_delete _ E n y Hn) in Hone.
      rewrite decide_False in Hone; [done|].
      intros Hpy. apply (Hq p Hp). apply paint_Permutation.
      unfold occurs in Hy, Hpy. by rewrite <-Hy, <-Hpy.
    + rewrite length_delete by (by eexists). simpl in Hlen. lia.
Qed.

Lemma canonical_edges_distinct : distinct_pieces canonical_edges.
Proof.
  cbn [distinct_pieces canonical_edges].
  repeat split; apply (bool_decide_unpack _); vm_compute; reflexivity.
Qed.

Lemma canonical_corners_distinct : distinct_pieces canonical_corners.
Proof.
  cbn [distinct_pieces canonical_corners].
  repeat split; apply (bool_decide_unpack _); vm_compute; reflexivity.
Qed.

Lemma well_formed_wire (s : CubeState) :
  well_formed s = true →
  ∃ state, s = RubiksCube.wire state ∧ RubiksCube.nine_each state.
Proof.
  intros Hwf. pose proof Hwf as Hnine. unfold well_formed in Hnine.
  repeat (apply andb_prop in Hnine as [Hnine ?]).
  destruct s as [[u|] [d|] [f|] [b|] [r|] [l|]]; try done.
  exists (RubiksCube.mkState u d f b r l). split; [done|].
  by apply wire_well_formed.
Qed.

(** The 54 stickers of a layout are its 6 centers, the 24 stickers at its
    edge positions and the 24 at its corner positions. *)
Lemma stickers_split (s : CubeState) :
  well_formed s = true →
  stickers_of s ≡ₚ
  centers s ++ concat (edge_stickers s).*1 ++ concat (corner_stickers s).*1.
Proof.
  intros (state & -> & Hnine)%well_formed_wire.
  open_state state Hnine. vm_compute. perm_listed.
Qed.

Lemma canonical_count (c : Color) :
  count_color c (concat ((fun p : list Color => paint <$> p) <$> canonical_edges)) = 4%nat ∧
  count_color c (concat ((fun p : list Color => paint <$> p) <$> canonical_corners)) = 4%nat ∧
  count_color c (paint <$> colors) = 1%nat.
Proof. by destruct c; vm_compute. Qed.

(** X25.  What the validator leaves unchecked is the centers alone.  A
    layout of six nine-sticker faces that shows only the six colors, that
    the validator accepts and whose six centers show six different colors
    has nine stickers of each color; its Kociemba string then has nine
    facelets of each letter and passes the count of [verify]. *)
Theorem accepted_nine_of_each compareTo (cubie_verify : string → Z) (s : CubeState) :
  alphabetical compareTo →
  well_formed s = true →
  Forall recognized (stickers_of s) →
  centers s ≡ₚ paint <$> colors →
  ValidateState compareTo s = Ok None →
  (∀ c, count_color c (stickers_of s) = 9%nat) ∧
  ∃ k, ToKociembaString s = Ok k ∧ nine_of_each k ∧
       verify cubie_verify k = cubie_verify k.
Proof.
  intros Hcmp Hwf Hrec Hcenters Hv.
  pose proof (stickers_cubies_recognized s Hwf Hrec) as Hcubies.
  apply (ValidateState_null_pieces compareTo s Hcmp Hwf Hcubies) in Hv
    as [Hedges Hcorners].
  assert (∀ c, count_color c (stickers_of s) = 9%nat) as Hnine.
  { intros c. destruct (canonical_count c) as (He & Hc & Hm).
    rewrite (count_color_Permutation c _ _ (stickers_split s Hwf)).
    rewrite !count_color_app, (count_color_Permutation c _ _ Hcenters), Hm.
    rewrite <-(same_pieces_concat c _ _
                 (once_same_pieces canonical_edges (edge_stickers s).*1
                    canonical_edges_distinct
                    ltac:(intros q Hq; rewrite <-occurrences_fst; by apply Hedges)
                    ltac:(by rewrite length_fmap))).
    rewrite <-(same_pieces_concat c _ _
                 (once_same_pieces canonical_corners (corner_stickers s).*1
                    canonical_corners_distinct
                    ltac:(intros q Hq; rewrite <-occurrences_fst; by apply Hcorners)
                    ltac:(by rewrite length_fmap))).
    by rewrite He, Hc. }
  split; [done|].
  destruct (recognized_painted s (well_formed_faces s Hwf) Hrec)
    as (cu & cr & cf & cd & cl & cb & ->).
  exists (letters (cu ++ cr ++ cf ++ cd ++ cl ++ cb)).
  rewrite ToKociembaString_painted.
  assert (nine_of_each (letters (cu ++ cr ++ cf ++ cd ++ cl ++ cb))) as Hk.
  { apply letters_nine_of_each. intros c. rewrite <-painted_stickers. apply Hnine. }
  split_and!; [done..|].
  unfold verify.
  apply count_colors_nine in Hk as (count & -> & ->); [done|].
  apply painted_well_formed in Hwf as (? & ? & ? & ? & ? & ?).
  rewrite letters_length, !length_app. lia.
Qed.

Lemma accepted_nine_of_each_witness :
  (∀ c, count_color c (stickers_of up_turned_layout) = 9%nat) ∧
  ∃ k, ToKociembaString up_turned_layout = Ok k ∧ nine_of_each k ∧
       verify accepting_check k = accepting_check k.
Proof.
  apply (accepted_nine_of_each String.compare accepting_check up_turned_layout).
  - exact ordinal_alphabetical.
  - reflexivity.
  - apply (bool_decide_unpack _). vm_compute. reflexivity.
  - apply (bool_decide_unpack _). vm_compute. reflexivity.
  - vm_compute. reflexivity.
Defined.

(** ** The engine's error codes *)

Lemma GetErrorMessage_code (errorCode : string) :
  errorCode ∈ error_codes →
  ordinal_StartsWith (GetErrorMessage errorCode) "Error" = false.
Proof.
  unfold error_codes. intros Hcode.
  repeat (apply elem_of_cons in Hcode as [->|Hcode]; [reflexivity|]).
  by apply elem_of_nil in Hcode.
Qed.

Lemma GetErrorMessage_other (errorCode : string) :
  errorCode ∉ error_codes → GetErrorMessage errorCode = errorCode.
Proof.
  unfold error_codes, GetErrorMessage. intros Hother.
  repeat match goal with
         | |- context [String.eqb errorCode ?x] =>
             destruct (String.eqb_spec errorCode x) as [->|_];
             [destruct Hother; by apply (bool_decide_unpack _)|]
         end.
  done.
Qed.

(** X26.  [GetErrorMessage] rewrites the eight codes "Error 1" to
    "Error 8" and hands every other answer on unchanged.  No message it
    writes for a code begins with "Error", so two different answers of the
    engine that begin with "Error" never give the same message. *)
Theorem GetErrorMessage_distinct (a b : string) :
  ordinal_StartsWith a "Error" = true →
  ordinal_StartsWith b "Error" = true →
  a ≠ b → GetErrorMessage a ≠ GetErrorMessage b.
Proof.
  intros Ha Hb Hne Heq. apply Hne.
  destruct (decide (a ∈ error_codes)) as [Hin|Hout],
           (decide (b ∈ error_codes)) as [Hin'|Hout'].
  - unfold error_codes in Hin, Hin'.
    repeat (apply elem_of_cons in Hin as [->|Hin]);
      [..|by apply elem_of_nil in Hin].
    all: repeat (apply elem_of_cons in Hin' as [->|Hin']);
      [..|by apply elem_of_nil in Hin'].
    all: first [reflexivity|discriminate Heq].
  - rewrite (GetErrorMessage_other b Hout') in Heq.
    pose proof (GetErrorMessage_code a Hin) as Hmsg. congruence.
  - rewrite (GetErrorMessage_other a Hout) in Heq.
    pose proof (GetErrorMessage_code b Hin') as Hmsg. congruence.
  - by rewrite (GetErrorMessage_other a Hout), (GetErrorMessage_other b Hout') in Heq.
Qed.

Lemma GetErrorMessage_distinct_witness :
  GetErrorMessage "Error 7" ≠ GetErrorMessage "Error 8".
Proof.
  apply (GetErrorMessage_distinct "Error 7" "Error 8"); [reflexivity..|discriminate].
Defined.

(** ** The scramble *)

Lemma pick_elem_of (random : nat → nat) (n : nat) (l : list string) :
  l ≠ [] → RubiksCube.pick random n l ∈ l.
Proof.
  intros Hl. unfold RubiksCube.pick.
  destruct (l !! (random n mod length l)%nat) as [x|] eqn:Hx.
  - by apply (list_elem_of_lookup_2 _ (random n mod length l)%nat).
  - apply lookup_ge_None in Hx.
    pose proof (Nat.mod_upper_bound (random n) (length l)).
    destruct l; [done|]. simpl in *. lia.
Qed.

Lemma availableFaces_spec (last second : option string) :
  (∀ l, last = Some l → l ∈ RubiksCube.faces) →
  RubiksCube.availableFaces last second ≠ [] ∧
  ∀ f, f ∈ RubiksCube.availableFaces last second →
       f ∈ RubiksCube.faces ∧ Some f ≠ last ∧
       (∀ l, last = Some l → is_Some second →
             RubiksCube.oppositeFaces l = second → Some f ≠ second).
Proof.
  intros Hlast. destruct last as [l|].
  - specialize (Hlast l eq_refl). unfold RubiksCube.faces in Hlast.
    repeat (apply elem_of_cons in Hlast as [->|Hlast]);
      [..|by apply elem_of_nil in Hlast].
    all: unfold RubiksCube.availableFaces; destruct second as [s|].
    all: try destruct (bool_decide _) eqn:Hopp.
    all: try (apply bool_decide_eq_true in Hopp; injection Hopp as <-).
    all: try apply bool_decide_eq_false in Hopp.
    all: (split; [by vm_compute|]); vm_compute filter; intros f Hf.
    all: repeat (apply elem_of_cons in Hf as [->|Hf]);
      [..|by apply elem_of_nil in Hf].
    all: (split_and!; [by apply (bool_decide_unpack _)|done|]).
    all: intros l' [= <-] Hsome Hl'; try done; try by destruct Hsome.
  - split; [by vm_compute|]. intros f Hf. split_and!; [|done|done].
    unfold RubiksCube.availableFaces in Hf.
    by apply list_elem_of_filter in Hf as [_ Hf].
Qed.

Lemma move_in_table (face modifier : string) :
  face ∈ RubiksCube.faces → modifier ∈ RubiksCube.modifiers →
  face +:+ modifier ∈ RubiksCube.inverseMoves.*1.
Proof.
  unfold RubiksCube.faces, RubiksCube.modifiers. intros Hface Hmod.
  repeat (apply elem_of_cons in Hface as [->|Hface]);
    [..|by apply elem_of_nil in Hface].
  all: repeat (apply elem_of_cons in Hmod as [->|Hmod]);
    [..|by apply elem_of_nil in Hmod].
  all: by apply (bool_decide_unpack _).
Qed.

Lemma scramble_from_shape (random : nat → nat) (count i : nat)
    (last second : option string) :
  (∀ l, last = Some l → l ∈ RubiksCube.faces) →
  length (RubiksCube.scramble_from random count i last second) = count ∧
  well_spaced last second (RubiksCube.scramble_from random count i last second).*1 ∧
  Forall (fun x => ∃ modifier, modifier ∈ RubiksCube.modifiers ∧
                               x.2 = x.1 +:+ modifier)
         (RubiksCube.scramble_from random count i last second).
Proof.
  revert i last second. induction count as [|count IH]; intros i last second Hlast.
  - by split_and!.
  - cbn [RubiksCube.scramble_from]. cbv zeta.
    destruct (availableFaces_spec last second Hlast) as [Hne Havailable].
    pose proof (pick_elem_of random (2 * i) _ Hne) as Hpick.
    destruct (Havailable _ Hpick) as (Hface & Hnew & Hopp).
    destruct (IH (S i) (Some (RubiksCube.pick random (2 * i)
                                (RubiksCube.availableFaces last second))) last)
      as (Hlen & Hspaced & Hmoves); [by intros l [= <-]|].
    split_and!.
    + cbn [length]. by rewrite Hlen.
    + rewrite fmap_cons. cbn [well_spaced fst]. done.
    + constructor; [|done]. eexists. split; [|reflexivity].
      by apply pick_elem_of.
Qed.

Lemma well_spaced_faces last second (fs : list string) :
  well_spaced last second fs → Forall (fun f => f ∈ RubiksCube.faces) fs.
Proof.
  revert last second. induction fs as [|f fs IH]; intros last second; [done|].
  intros (Hf & _ & _ & Hrest). constructor; [done|]. by apply (IH _ _ Hrest).
Qed.

Lemma well_spaced_two last second (fs : list string) (i : nat) (f g : string) :
  well_spaced last second fs →
  fs !! i = Some f → fs !! S i = Some g → g ≠ f.
Proof.
  revert last second i. induction fs as [|x fs IH]; intros last second i; [done|].
  intros (_ & _ & _ & Hrest) Hf Hg. destruct i as [|i].
  - injection Hf as ->. destruct fs as [|y fs]; [done|]. injection Hg as ->.
    destruct Hrest as (_ & Hne & _). congruence.
  - by apply (IH _ _ i Hrest).
Qed.

Lemma well_spaced_three last second (fs : list string) (i : nat) (f g h : string) :
  well_spaced last second fs →
  fs !! i = Some f → fs !! S i = Some g → fs !! S (S i) = Some h →
  RubiksCube.oppositeFaces g = Some f → h ≠ f.
Proof.
  revert last second i. induction fs as [|x fs IH]; intros last second i; [done|].
  intros (_ & _ & _ & Hrest) Hf Hg Hh Hopp. destruct i as [|i].
  - injection Hf as ->. destruct fs as [|y [|z fs]]; [done..|].
    injection Hg as ->. injection Hh as ->.
    destruct Hrest as (_ & _ & _ & (_ & _ & Hthird & _)).
    specialize (Hthird g eq_refl ltac:(by eexists) Hopp). congruence.
  - by apply (IH _ _ i Hrest).
Qed.

Lemma updateState_table (move : string) (state : RubiksCube.CubeState) :
  move ∈ RubiksCube.inverseMoves.*1 → is_Some (RubiksCube.updateState move state).
Proof.
  intros Hmove. vm_compute fmap in Hmove.
  repeat (apply elem_of_cons in Hmove as [->|Hmove]);
    [..|by apply elem_of_nil in Hmove].
  all: match goal with
       | |- is_Some (RubiksCube.updateState ?m _) =>
           let face :=
             eval vm_compute in
               (RubiksCube.remove_first "2" (RubiksCube.remove_first "'" m)) in
           let ccw := eval vm_compute in (RubiksCube.includes "'" m) in
           let double := eval vm_compute in (RubiksCube.includes "2" m) in
           rewrite (updateState_read m face ccw double state eq_refl eq_refl eq_refl);
           assert (face ∈ ["U"; "D"; "F"; "B"; "R"; "L"]) as Hface
             by (by apply (bool_decide_unpack _));
           destruct (proj2 (rotateFace_is_Some face ccw state) Hface) as [state1 ->];
           cbn [mbind option_bind];
           try apply (proj2 (rotateFace_is_Some face ccw state1) Hface);
           try by eexists
       end.
Qed.

Lemma updateStates_table (moves : list string) (state : RubiksCube.CubeState) :
  Forall (fun move => move ∈ RubiksCube.inverseMoves.*1) moves →
  is_Some (RubiksCube.updateStates moves state).
Proof.
  intros Hmoves. revert state.
  induction Hmoves as [|move moves Hmove _ IH]; intros state; [by eexists|].
  cbn [RubiksCube.updateStates].
  destruct (updateState_table move state Hmove) as [state1 ->]. apply IH.
Qed.

(** X27.  Whatever the random numbers, the scramble has 20 moves; each is
    a face with one of the three modifiers, one of the 18 moves of the
    [inverseMoves] table; no move turns the face of the move before it;
    after two moves on opposite faces the next move turns neither of
    them; and playing the scramble on any state never throws. *)
Theorem scrambleMoves_shape (random : nat → nat) :
  let moves := RubiksCube.scrambleMoves random in
  length moves = 20%nat ∧
  Forall (fun x => x.1 ∈ RubiksCube.faces ∧
                   (∃ modifier, modifier ∈ RubiksCube.modifiers ∧
                                x.2 = x.1 +:+ modifier) ∧
                   x.2 ∈ RubiksCube.inverseMoves.*1) moves ∧
  (∀ i f g, moves.*1 !! i = Some f → moves.*1 !! S i = Some g → g ≠ f) ∧
  (∀ i f g h, moves.*1 !! i = Some f → moves.*1 !! S i = Some g →
              moves.*1 !! S (S i) = Some h →
              RubiksCube.oppositeFaces g = Some f → h ≠ f ∧ h ≠ g) ∧
  ∀ state, is_Some (RubiksCube.updateStates moves.*2 state).
Proof.
  intros moves.
  destruct (scramble_from_shape random 20 0 None None) as (Hlen & Hspaced & Hmoves);
    [done|].
  fold (RubiksCube.scrambleMoves random) in Hlen, Hspaced, Hmoves. fold moves in Hlen, Hspaced, Hmoves.
  assert (Forall (fun x => x.1 ∈ RubiksCube.faces ∧
                   (∃ modifier, modifier ∈ RubiksCube.modifiers ∧
                                x.2 = x.1 +:+ modifier) ∧
                   x.2 ∈ RubiksCube.inverseMoves.*1) moves) as Hall.
  { apply well_spaced_faces in Hspaced. rewrite Forall_fmap in Hspaced.
    rewrite Forall_forall in Hspaced, Hmoves. apply Forall_forall. intros x Hx.
    specialize (Hspaced x Hx). destruct (Hmoves x Hx) as (modifier & Hmod & Heq).
    split_and!; [done|by exists modifier|]. rewrite Heq. by apply move_in_table. }
  split_and!; [done|done| | |].
  - intros i f g. by apply (well_spaced_two None None).
  - intros i f g h Hf Hg Hh Hopp. split.
    + by apply (well_spaced_three None None moves.*1 i f g h).
    + by apply (well_spaced_two None None moves.*1 (S i) g h).
  - intros state. apply updateStates_table. apply Forall_fmap.
    eapply Forall_impl; [exact Hall|]. by intros x (_ & _ & ?).
Qed.

(** ** The exported string *)

Lemma face_of_paint inherited (c : Color) :
  App.face_of inherited (paint c) = String (letter_of c) "".
Proof. by destruct c. Qed.

Lemma concat_face_of inherited (cs : list Color) :
  String.concat "" (App.face_of inherited <$> (paint <$> cs)) = letters cs.
Proof.
  induction cs as [|c cs IH]; [done|].
  rewrite !fmap_cons, face_of_paint.
  change (letters (c :: cs)) with (String (letter_of c) (letters cs)).
  rewrite <-IH. by destruct (App.face_of inherited <$> (paint <$> cs)).
Qed.

(** X28.  On a state that shows only the six colors, the Kociemba string
    the page exports is the string the server's [ToKociembaString] makes
    of the state as sent, whatever the sizes of the faces. *)
Theorem exportState_agrees inherited (state : RubiksCube.CubeState) :
  Forall recognized (stickers_of (RubiksCube.wire state)) →
  ToKociembaString (RubiksCube.wire state) =
  Ok (App.kociembaString inherited state).
Proof.
  intros Hrec.
  destruct (recognized_painted (RubiksCube.wire state))
    as (cu & cr & cf & cd & cl & cb & Hpainted); [|done|].
  { unfold all_faces. simpl. repeat constructor; by eexists. }
  rewrite Hpainted, ToKociembaString_painted. f_equal.
  unfold App.kociembaString.
  destruct state as [u d f b r l]. injection Hpainted as -> -> -> -> -> ->.
  cbn [RubiksCube.U RubiksCube.D RubiksCube.F RubiksCube.B RubiksCube.R RubiksCube.L].
  rewrite <-!fmap_app. by rewrite concat_face_of.
Qed.

Lemma exportState_agrees_witness :
  ToKociembaString (RubiksCube.wire sample_state) =
  Ok (App.kociembaString nothing_inherited sample_state).
Proof.
  apply (exportState_agrees nothing_inherited sample_state).
  apply (bool_decide_unpack _). vm_compute. reflexivity.
Defined.

(** ** The search limits *)

Import SearchRunTime.

Lemma face_turn_shape (move : string) :
  move ∈ face_turns →
  ∃ c rest, move = String c rest ∧ IsWhiteSpace c = false ∧ c ≠ "E"%char ∧
            Forall (fun c => c ≠ " "%char) (String.list_ascii_of_string move) ∧
            Trim move = move.
Proof.
  unfold face_turns. intros Hmove.
  repeat (apply elem_of_cons in Hmove as [->|Hmove];
          [do 2 eexists; split_and!; [reflexivity|reflexivity|done| |reflexivity];
           repeat constructor; done|]).
  by apply elem_of_nil in Hmove.
Qed.

Lemma face_turns_not_error (moves : list string) :
  Forall (fun move => move ∈ face_turns) moves →
  ordinal_StartsWith (Join " " moves) "Error" = false.
Proof.
  intros [|move tail (c & rest & -> & _ & Hc & _)%face_turn_shape _]; [done|].
  unfold ordinal_StartsWith, Join. cbn [String.concat].
  destruct tail as [|move tail].
  - cbn [String.prefix]. by destruct (ascii_dec "E" c) as [<-|?].
  - change (String c rest +:+ ?t) with (String c (rest +:+ t)).
    cbn [String.prefix]. by destruct (ascii_dec "E" c) as [<-|?].
Qed.

(** A list of face turns, written out and parsed, is the list. *)
Lemma ParseSolution_face_turns (moves : list string) :
  Forall (fun move => move ∈ face_turns) moves →
  ParseSolution (Join " " moves) = moves.
Proof.
  intros Hmoves. unfold ParseSolution.
  destruct moves as [|m moves]; [done|].
  assert (IsNullOrWhiteSpace (Join " " (m :: moves)) = false) as ->.
  { apply Forall_cons in Hmoves as [(c & rest & -> & Hc & _)%face_turn_shape _].
    destruct moves; simpl; by rewrite Hc. }
  rewrite (Split_Join " "%char (m :: moves)); [|done|].
  - assert (∀ l, Forall (fun move => move ∈ face_turns) l →
              filter (λ m0, negb (IsNullOrEmpty m0)) l = l) as Hfilter.
    { induction 1 as [|x l (c & rest & -> & _)%face_turn_shape _ IH]; [done|].
      rewrite filter_cons_True; [by rewrite IH|done]. }
    rewrite (Hfilter _ Hmoves).
    assert (Trim <$> (m :: moves) = m :: moves) as ->; [|by apply Hfilter].
    clear Hfilter.
    induction Hmoves as [|x l (c & rest & _ & _ & _ & _ & Hx)%face_turn_shape _ IH];
      [done|].
    by rewrite fmap_cons, Hx, IH.
  - eapply Forall_impl; [exact Hmoves|].
    by intros x (c & rest & _ & _ & _ & ? & _)%face_turn_shape.
Qed.

Section SearchLimits.

Variable compareTo : string → string → comparison.
Variable StartsWith : string → string → bool.
Variable solution : string → Z → Z → bool → bool → Result (option string).
Variable ElapsedMilliseconds : Z.
Variable E : Engine.

Lemma Solve_outcome (state : CubeState) (k : string) :
  Contract E →
  (∀ o, StartsWith (write o) "Error" = ordinal_StartsWith (write o) "Error") →
  ValidateState compareTo state = Ok None →
  ToKociembaString state = Ok k →
  k ≠ solved_string →
  solution k 22 10000 false false = Ok (Some (write (search E k 22 10000))) →
  Solve compareTo StartsWith solution ElapsedMilliseconds state =
  (mkWorld (response_to ElapsedMilliseconds (search E k 22 10000)) (search_calls k),
   Ok (response_to ElapsedMilliseconds (search E k 22 10000))).
Proof.
  intros Hcontract Hstarts Hv Hk Hne Hengine.
  rewrite (Solve_searches compareTo StartsWith solution ElapsedMilliseconds
             state k Hv Hk Hne), Hengine.
  unfold after_search. rewrite Hstarts.
  destruct (search E k 22 10000) as [moves| |] eqn:Hsearch; [|done..].
  destruct (capped E Hcontract k 22%Z 10000%Z moves Hsearch) as (_ & _ & Hturns).
  cbn [write]. rewrite (face_turns_not_error moves Hturns).
  by rewrite (ParseSolution_face_turns moves Hturns).
Qed.

(** C6.  [Solve] runs the search once, with a cap of 22 moves and a
    budget of 10000 milliseconds.  With an engine that keeps the
    specification's termination contract, it reports "no solution within
    max depth" when the search ends within the budget and no solution of
    at most 22 moves exists, and "timeout" when the budget runs out
    first; otherwise it returns a solution of at most 22 moves.  The two
    reports are given for the outcomes DepthExceeded and TimedOut and for
    no other, so no response is both, and no response without error has
    more than 22 moves. *)
Theorem Solve_search_limits (state : CubeState) (k : string) :
  Contract E →
  (∀ o, StartsWith (write o) "Error" = ordinal_StartsWith (write o) "Error") →
  ValidateState compareTo state = Ok None →
  ToKociembaString state = Ok k →
  k ≠ solved_string →
  solution k 22 10000 false false = Ok (Some (write (search E k 22 10000))) →
  calls (Solve compareTo StartsWith solution ElapsedMilliseconds state).1 =
  [CallToKociembaString; CallSolution k 22 10000 false false] ∧
  ((duration E k 22 ≤ 10000)%Z → ¬ within E k 22 →
   (Solve compareTo StartsWith solution ElapsedMilliseconds state).2 =
   Ok (failure ElapsedMilliseconds "No solution found within max depth")) ∧
  ((10000 < duration E k 22)%Z →
   (Solve compareTo StartsWith solution ElapsedMilliseconds state).2 =
   Ok (failure ElapsedMilliseconds "Timeout - no solution found within time limit")) ∧
  ((duration E k 22 ≤ 10000)%Z → within E k 22 →
   ∃ moves, solves E k moves ∧ (length moves ≤ 22)%nat ∧
     (Solve compareTo StartsWith solution ElapsedMilliseconds state).2 =
     Ok (mkSolveResponse moves (Z.of_nat (length moves)) ElapsedMilliseconds None)) ∧
  ((Solve compareTo StartsWith solution ElapsedMilliseconds state).2 =
   Ok (failure ElapsedMilliseconds "No solution found within max depth") ↔
   search E k 22 10000 = DepthExceeded) ∧
  ((Solve compareTo StartsWith solution ElapsedMilliseconds state).2 =
   Ok (failure ElapsedMilliseconds "Timeout - no solution found within time limit") ↔
   search E k 22 10000 = TimedOut) ∧
  (∀ r, (Solve compareTo StartsWith solution ElapsedMilliseconds state).2 = Ok r →
        Error r = None → (MoveCount r ≤ 22)%Z).
Proof.
  intros Hcontract Hstarts Hv Hk Hne Hengine.
  rewrite (Solve_outcome state k Hcontract Hstarts Hv Hk Hne Hengine).
  cbn [fst snd calls]. split_and!.
  - done.
  - intros Htime Hnone.
    by rewrite (depth_exceeded E Hcontract k 22%Z 10000%Z Htime Hnone).
  - intros Htime. by rewrite (timed_out E Hcontract k 22%Z 10000%Z Htime).
  - intros Htime Hsome.
    destruct (found E Hcontract k 22%Z 10000%Z Htime Hsome) as [moves Hsearch].
    destruct (capped E Hcontract k 22%Z 10000%Z moves Hsearch) as (Hsolves & Hlen & _).
    exists moves. rewrite Hsearch. split_and!; [done|lia|done].
  - destruct (search E k 22 10000); split; done.
  - destruct (search E k 22 10000); split; done.
  - intros r [= <-] Herror.
    destruct (search E k 22 10000) as [moves| |] eqn:Hsearch; [|done..].
    by destruct (capped E Hcontract k 22%Z 10000%Z moves Hsearch) as (_ & ? & _).
Qed.

End SearchLimits.

Lemma sample_contract : Contract sample.
Proof.
  split; unfold within; cbn [search duration solves sample].
  - intros facelets maxDepth timeOut Htime.
    by rewrite (proj2 (Z.ltb_lt _ _) Htime).
  - intros facelets maxDepth timeOut Htime Hnone.
    rewrite (proj2 (Z.ltb_ge _ _) Htime).
    destruct (String.eqb_spec facelets up_turned_string) as [->|_]; [|done].
    destruct (Z.leb_spec 1 maxDepth) as [Hdepth|_]; [|done].
    destruct Hnone. exists ["U'"]. split; [done|]. simpl. lia.
  - intros facelets maxDepth timeOut Htime (moves & [-> ->] & Hlen).
    rewrite (proj2 (Z.ltb_ge _ _) Htime).
    change (Z.of_nat (length ["U'"])) with 1%Z in Hlen.
    rewrite String.eqb_refl, (proj2 (Z.leb_le 1 maxDepth) Hlen). by eexists.
  - intros facelets maxDepth timeOut moves.
    destruct (_ <? _)%Z; [done|].
    destruct (String.eqb_spec facelets up_turned_string) as [->|_]; [|done].
    destruct (Z.leb_spec 1 maxDepth) as [Hdepth|_]; [|done].
    intros [= <-]. split; [done|]. split; [simpl; lia|].
    constructor; [|done]. by apply (bool_decide_unpack _).
Qed.

Lemma Solve_search_limits_witness :
  (Solve String.compare ordinal_StartsWith (solution sample) 3 flipped_edge_layout).2 =
  Ok (failure 3 "No solution found within max depth") ∧
  (Solve String.compare ordinal_StartsWith (solution sample) 3
         (RubiksCube.wire sample_state)).2 =
  Ok (failure 3 "Timeout - no solution found within time limit") ∧
  ∃ moves, solves sample up_turned_string moves ∧ (length moves ≤ 22)%nat ∧
    (Solve String.compare ordinal_StartsWith (solution sample) 3 up_turned_layout).2 =
    Ok (mkSolveResponse moves (Z.of_nat (length moves)) 3 None).
Proof.
  split_and!.
  - destruct (Solve_search_limits String.compare ordinal_StartsWith
                (solution sample) 3 sample flipped_edge_layout
                "UUUUUUUFURRRRRRRRRFUFFFFFFFDDDDDDDDDLLLLLLLLLBBBBBBBBB")
      as (_ & Hdepth & _).
    + exact sample_contract.
    + reflexivity.
    + vm_compute. reflexivity.
    + vm_compute. reflexivity.
    + discriminate.
    + reflexivity.
    + apply Hdepth.
      * vm_compute. discriminate.
      * intros (moves & [Hk _] & _). discriminate Hk.
  - destruct (Solve_search_limits String.compare ordinal_StartsWith
                (solution sample) 3 sample (RubiksCube.wire sample_state)
                slow_facelets)
      as (_ & _ & Htime & _).
    + exact sample_contract.
    + reflexivity.
    + vm_compute. reflexivity.
    + vm_compute. reflexivity.
    + discriminate.
    + reflexivity.
    + apply Htime. vm_compute. reflexivity.
  - destruct (Solve_search_limits String.compare ordinal_StartsWith
                (solution sample) 3 sample up_turned_layout up_turned_string)
      as (_ & _ & _ & Hfound & _).
    + exact sample_contract.
    + reflexivity.
    + vm_compute. reflexivity.
    + vm_compute. reflexivity.
    + discriminate.
    + reflexivity.
    + apply Hfound.
      * vm_compute. discriminate.
      * exists ["U'"]. split; [done|]. vm_compute. discriminate.
Defined.
